(** * The ledger of [blockchain.py], embedded and verified

    The file follows the Python module. First come the library functions
    that the module relies on: [hashlib.sha256], [json.dumps], [str],
    [int] and [str.split] are written out, and the signature check of
    [fastecdsa] and the answers of the peers are taken as interfaces. Then
    come the classes [Address], [Transaction] and [Blockchain]; a method is
    a function on the state of the object that returns or raises. The
    properties of transaction admission, proof of work, hashing, chain
    validation and consensus follow, each stated on these definitions.

    The HTTP endpoints, the key generation, the two files and the replay
    of a stored chain in [__init__] are outside the development; numbers
    are integers throughout, so that a time stamp is an integral number of
    clock ticks. *)

From Stdlib Require Import ZArith List String Ascii DecimalString Lia Bool.
From Stdlib Require Import Permutation.
From stdpp Require Import base list.

Open Scope string_scope.
Open Scope Z_scope.

(** ** [hashlib.sha256(...).hexdigest()]

    SHA-256 (FIPS 180-4) on 32-bit words carried by [Z]; every addition
    wraps around through [Z.land _ mask32]. *)
Module hashlib.

Definition mask32 : Z := 0xFFFFFFFF.

Definition add32 (a b : Z) : Z := Z.land (a + b) mask32.

Definition rotr (n x : Z) : Z :=
  Z.land (Z.lor (Z.shiftr x n) (Z.shiftl x (32 - n))) mask32.

Definition Ch (x y z : Z) : Z :=
  Z.lxor (Z.land x y) (Z.land (Z.lxor x mask32) z).

Definition Maj (x y z : Z) : Z :=
  Z.lxor (Z.lxor (Z.land x y) (Z.land x z)) (Z.land y z).

Definition Sigma0 (x : Z) : Z := Z.lxor (Z.lxor (rotr 2 x) (rotr 13 x)) (rotr 22 x).
Definition Sigma1 (x : Z) : Z := Z.lxor (Z.lxor (rotr 6 x) (rotr 11 x)) (rotr 25 x).
Definition sigma0 (x : Z) : Z := Z.lxor (Z.lxor (rotr 7 x) (rotr 18 x)) (Z.shiftr x 3).
Definition sigma1 (x : Z) : Z := Z.lxor (Z.lxor (rotr 17 x) (rotr 19 x)) (Z.shiftr x 10).

(** The constants of the standard are the first 32 bits of the fractional
    parts of the cube roots of the first 64 primes, and the initial hash
    value those of the square roots of the first 8 primes; they are
    computed from this description. *)
Definition is_prime (n : Z) : bool :=
  forallb (fun d => negb (n mod d =? 0))
          (map Z.of_nat (List.seq 2 (Z.to_nat n - 2))).

Definition primes_below (n : nat) : list Z :=
  List.filter is_prime (map Z.of_nat (List.seq 2 (n - 2))).

(** The largest [r] between [lo] and [hi] with [r ^ e <= x], by bisection. *)
Fixpoint root_search (fuel : nat) (e x lo hi : Z) : Z :=
  match fuel with
  | O => lo
  | S fuel' =>
      let mid := (lo + hi) / 2 in
      if mid ^ e <=? x then root_search fuel' e x mid hi
      else root_search fuel' e x lo mid
  end.

Definition fractional_root (e p : Z) : Z :=
  Z.land (root_search 40 e (p * 2 ^ (32 * e)) 0 (2 ^ 36)) mask32.

Definition K : list Z :=
  Eval vm_compute in map (fractional_root 3) (primes_below 312).

Definition H0 : list Z :=
  Eval vm_compute in map (fractional_root 2) (primes_below 20).

(** The message as bytes: every character of the (ASCII) string is one byte. *)
Definition bytes_of_string (s : string) : list Z :=
  map (fun c => Z.of_N (N_of_ascii c)) (list_ascii_of_string s).

(** Big-endian bytes of [x], [n] of them. *)
Fixpoint be_bytes (n : nat) (x : Z) : list Z :=
  match n with
  | O => []
  | S n' => Z.land (Z.shiftr x (8 * Z.of_nat n')) 0xFF :: be_bytes n' x
  end.

Definition pad (msg : list Z) : list Z :=
  let len := Z.of_nat (length msg) in
  msg ++ [0x80] ++ repeat 0 (Z.to_nat ((55 - len) mod 64)) ++ be_bytes 8 (8 * len).

Fixpoint words (l : list Z) : list Z :=
  match l with
  | a :: b :: c :: d :: r => (((a * 256 + b) * 256 + c) * 256 + d) :: words r
  | _ => []
  end.

Fixpoint chunks (fuel : nat) (l : list Z) : list (list Z) :=
  match fuel with
  | O => []
  | S f =>
      match l with
      | [] => []
      | _ => firstn 64 l :: chunks f (skipn 64 l)
      end
  end.

(** [schedule n w] extends the message schedule [w] by [n] further words. *)
Fixpoint schedule (n : nat) (w : list Z) : list Z :=
  match n with
  | O => w
  | S n' =>
      let t := length w in
      let g i := nth (t - i) w 0 in
      schedule n'
        (w ++ [add32 (add32 (sigma1 (g 2%nat)) (g 7%nat))
                     (add32 (sigma0 (g 15%nat)) (g 16%nat))])
  end.

Record regs := Regs { ra : Z; rb : Z; rc : Z; rd : Z; re : Z; rf : Z; rg : Z; rh : Z }.

Definition round (s : regs) (kw : Z * Z) : regs :=
  let t1 := add32 (add32 (add32 (rh s) (Sigma1 (re s)))
                         (add32 (Ch (re s) (rf s) (rg s)) (fst kw))) (snd kw) in
  let t2 := add32 (Sigma0 (ra s)) (Maj (ra s) (rb s) (rc s)) in
  Regs (add32 t1 t2) (ra s) (rb s) (rc s) (add32 (rd s) t1) (re s) (rf s) (rg s).

Definition regs_of (h : list Z) : regs :=
  Regs (nth 0 h 0) (nth 1 h 0) (nth 2 h 0) (nth 3 h 0)
       (nth 4 h 0) (nth 5 h 0) (nth 6 h 0) (nth 7 h 0).

Definition list_of (s : regs) : list Z :=
  [ra s; rb s; rc s; rd s; re s; rf s; rg s; rh s].

Definition compress (h : list Z) (chunk : list Z) : list Z :=
  let w := schedule 48 (words chunk) in
  let s := fold_left round (combine K w) (regs_of h) in
  map (fun p => add32 (fst p) (snd p)) (combine h (list_of s)).

Definition digest (msg : list Z) : list Z :=
  let p := pad msg in
  fold_left compress (chunks (length p) p) H0.

Definition hex_digit (n : Z) : ascii :=
  if n <? 10 then ascii_of_N (Z.to_N (48 + n)) else ascii_of_N (Z.to_N (87 + n)).

Fixpoint hex_word (n : nat) (w : Z) : string :=
  match n with
  | O => EmptyString
  | S n' => String (hex_digit (Z.land (Z.shiftr w (4 * Z.of_nat n')) 0xF)) (hex_word n' w)
  end.

Definition sha256_hexdigest (s : string) : string :=
  fold_right (fun w acc => String.append (hex_word 8 w) acc) EmptyString (digest (bytes_of_string s)).

End hashlib.

(** ** Python values and built-ins

    A [string] holds code points below 256, one per [ascii]. *)

(** Exceptions that the modelled code can raise.  [Dangling] has no Python
    counterpart: it is the answer of the embedding when a reference to an
    [Address] object points outside the ledger, which the program never
    produces. *)
Inductive exn : Type :=
| AddressNotFound | AttributeError | ValueError | TypeError
| IndexError | KeyError | Dangling.

Inductive result (A : Type) : Type :=
| Ok (a : A)
| Raise (e : exn).
Arguments Ok {A} a.
Arguments Raise {A} e.

#[global] Instance result_ret : MRet result := @Ok.
#[global] Instance result_bind : MBind result := fun A B f r =>
  match r with
  | Ok a => f a
  | Raise e => Raise e
  end.
#[global] Instance result_fmap : FMap result := fun A B f r =>
  match r with
  | Ok a => Ok (f a)
  | Raise e => Raise e
  end.

Module builtins.

(** [str(n)] for an [int]. *)
Definition str (n : Z) : string := NilZero.string_of_int (Z.to_int n).

(** [str(x)] as an f-string renders an optional string: [None] prints as
    the word None. *)
Definition str_opt (o : option string) : string :=
  match o with
  | Some s => s
  | None => "None"
  end.

(** Characters on which [str.split()] cuts (those of [str.isspace] below
    code point 256). *)
Definition is_space (c : ascii) : bool :=
  let n := Z.of_N (N_of_ascii c) in
  ((9 <=? n) && (n <=? 13)) || ((28 <=? n) && (n <=? 32))
  || (n =? 0x85) || (n =? 0xA0).

(** [s.split()]: the maximal runs of non-space characters, in order. *)
Fixpoint split_from (cur : option string) (s : string) : list string :=
  match s with
  | EmptyString =>
      match cur with
      | Some w => [w]
      | None => []
      end
  | String c r =>
      if is_space c then
        match cur with
        | Some w => w :: split_from None r
        | None => split_from None r
        end
      else
        split_from (Some (String.append (default EmptyString cur) (String c EmptyString))) r
  end.

Definition split (s : string) : list string := split_from None s.

Definition digit_value (c : ascii) : option Z :=
  let n := Z.of_N (N_of_ascii c) in
  if (48 <=? n) && (n <=? 57) then Some (n - 48) else None.

(** Decimal digits with single underscores between them. *)
Fixpoint int_digits (acc : Z) (after_digit : bool) (s : string) : option Z :=
  match s with
  | EmptyString => if after_digit then Some acc else None
  | String c r =>
      match digit_value c with
      | Some d => int_digits (10 * acc + d) true r
      | None =>
          if Ascii.eqb c "_"%char && after_digit then int_digits acc false r
          else None
      end
  end.

(** [int(s)] in base ten, for a token that holds no white space (the
    program applies it to the pieces of [split] only); [None] stands for
    the [ValueError]. *)
Definition int (s : string) : option Z :=
  match s with
  | String "-"%char r => Z.opp <$> int_digits 0 false r
  | String "+"%char r => int_digits 0 false r
  | _ => int_digits 0 false s
  end.

End builtins.

(** [a, b = map(int, s.split())]: every failure is a [ValueError] (a
    token that is no integer, too few or too many pieces). *)
Definition two_ints (s : string) : result (Z * Z) :=
  match builtins.split s with
  | [a; b] =>
      match builtins.int a, builtins.int b with
      | Some x, Some y => Ok (x, y)
      | _, _ => Raise ValueError
      end
  | _ => Raise ValueError
  end.

(** ** JSON values and [json.dumps(_, sort_keys=True)]

    Numbers are the integers and the floats. The finite numbers are
    represented by the integers, in their order: a time stamp of
    [time()] is carried as an integral number of clock ticks. The three
    floats that are no finite numbers, which [json.loads] reads and
    [json.dumps] writes as [NaN], [Infinity] and [-Infinity], are values
    of their own. A dictionary is the list of its items in insertion
    order; its keys are pairwise distinct. *)
Inductive nonfinite : Type :=
| NaN
| Infinity
| NegInfinity.

#[warnings="-register-all"]
Inductive json : Type :=
| JNull
| JBool (b : bool)
| JInt (n : Z)
| JFloat (x : nonfinite)
| JStr (s : string)
| JList (l : list json)
| JDict (d : list (string * json)).

(** A number, as the key [timestamp] of a block holds one. *)
Inductive number : Type :=
| Finite (z : Z)
| NonFinite (x : nonfinite).

Coercion Finite : Z >-> number.

Definition number_json (x : number) : json :=
  match x with
  | Finite z => JInt z
  | NonFinite x => JFloat x
  end.

(** [a < b] for two numbers: every comparison with [NaN] is false. *)
Definition number_lt (a b : number) : bool :=
  match a, b with
  | Finite x, Finite y => x <? y
  | NonFinite NaN, _ => false
  | _, NonFinite NaN => false
  | _, NonFinite NegInfinity => false
  | NonFinite NegInfinity, _ => true
  | NonFinite Infinity, _ => false
  | Finite _, NonFinite Infinity => true
  end.

(** [d.get(k)]: the value bound to [k]. *)
Fixpoint dict_get {A : Type} (k : string) (d : list (string * A)) : option A :=
  match d with
  | [] => None
  | (k', v) :: r => if String.eqb k k' then Some v else dict_get k r
  end.

(** [v == s] for a string [s]. *)
Definition json_eq_str (v : json) (s : string) : bool :=
  match v with
  | JStr s' => String.eqb s' s
  | _ => false
  end.

Definition quote : ascii := "034"%char.
Definition backslash : ascii := "092"%char.

(** One character inside a JSON string literal, with [ensure_ascii]:
    the quote, the backslash and the control characters have short escapes
    and whatever else lies outside the printable ASCII range is written
    with its four hexadecimal digits. *)
Definition escape_char (c : ascii) : string :=
  let n := Z.of_N (N_of_ascii c) in
  let esc (x : ascii) := String backslash (String x EmptyString) in
  if n =? 34 then esc quote
  else if n =? 92 then esc backslash
  else if n =? 10 then esc "n"%char
  else if n =? 13 then esc "r"%char
  else if n =? 9 then esc "t"%char
  else if n =? 8 then esc "b"%char
  else if n =? 12 then esc "f"%char
  else if (32 <=? n) && (n <=? 126) then String c EmptyString
  else String.append (esc "u"%char) (hashlib.hex_word 4 n).

Fixpoint escape (s : string) : string :=
  match s with
  | EmptyString => EmptyString
  | String c r => String.append (escape_char c) (escape r)
  end.

Definition encode_basestring_ascii (s : string) : string :=
  String quote (String.append (escape s) (String quote EmptyString)).

(** [sep.join(l)]. *)
Fixpoint join (sep : string) (l : list string) : string :=
  match l with
  | [] => EmptyString
  | [x] => x
  | x :: r => String.append x (String.append sep (join sep r))
  end.

(** [sorted(items)] for the items of a dictionary: a stable insertion
    sort on the keys, compared code point by code point. *)
Fixpoint insert_item {A : Type} (kv : string * A) (l : list (string * A))
  : list (string * A) :=
  match l with
  | [] => [kv]
  | x :: r =>
      if String.leb (fst kv) (fst x) then kv :: l else x :: insert_item kv r
  end.

Definition sorted {A : Type} (l : list (string * A)) : list (string * A) :=
  fold_right insert_item [] l.

Definition dumps_item (kv : string * string) : string :=
  String.append (encode_basestring_ascii (fst kv)) (String.append ": " (snd kv)).

(** [json.dumps(v, sort_keys=True)] with the default separators. The
    values of a dictionary are rendered and the rendered items are then
    put in key order; the order of the keys does not look at the values. *)
Fixpoint dumps (v : json) : string :=
  match v with
  | JNull => "null"
  | JBool true => "true"
  | JBool false => "false"
  | JInt n => builtins.str n
  | JFloat NaN => "NaN"
  | JFloat Infinity => "Infinity"
  | JFloat NegInfinity => "-Infinity"
  | JStr s => encode_basestring_ascii s
  | JList l =>
      String.append "[" (String.append (join ", " (map dumps l)) "]")
  | JDict d =>
      let items := sorted (map (fun kv => (fst kv, dumps (snd kv))) d) in
      String.append "{" (String.append (join ", " (map dumps_item items)) "}")
  end.

(** ** The external collaborators

    [fastecdsa.ecdsa.verify(sig, msg, Q)] is a library call: the embedding
    takes it as an interface. It answers a boolean or raises. *)
Class Ecdsa : Type := {
  ecdsa_verify : Z * Z -> string -> Z * Z -> result bool
}.

(** ** class Address *)
Module Address.

Record t : Type := mk { address : string; amount : Z }.

(** [Address(address)]: a fresh wallet holds nothing. *)
Definition init (address : string) : t := mk address 0.

End Address.

(** What the attributes [sender] and [recipient] of a transaction hold:
    the string ['0'], or an [Address] object. Every [Address] object is
    created by [getOrCreateAddress], which stores it at the end of
    [self.addresses], and nothing is ever removed from that list: the
    object and its index (the attributes [sender] and [senderIndex]) are
    one reference [Obj index] into the ledger, and reading or updating the
    object reads or updates the ledger at that index. *)
Inductive party : Type :=
| Zero
| Obj (index : nat).

Definition party_eqb (p q : party) : bool :=
  match p, q with
  | Zero, Zero => true
  | Obj i, Obj j => Nat.eqb i j
  | _, _ => false
  end.

(** [len(x)] for a tuple of two components. *)
Definition len_pair {A B : Type} (x : A * B) : Z := 2.

(** The object behind a reference. *)
Definition deref (addresses : list Address.t) (i : nat) : result Address.t :=
  match addresses !! i with
  | Some a => Ok a
  | None => Raise Dangling
  end.

(** ** class Transaction *)
Module Transaction.

Record t : Type := mk {
  sender : party;
  recipient : party;
  amount : Z;
  message : option string;
  signature : option string;
  executed : bool
}.

Definition init (sender recipient : party) (amount : Z)
    (signature message : option string) : t :=
  mk sender recipient amount message signature false.

Definition is_valid (addresses : list Address.t) (self : t) : result bool :=
  overdraft ←
    match sender self with
    | Zero => Ok false
    | Obj i => a ← deref addresses i; Ok (Address.amount a <? amount self)
    end;
  if overdraft || (amount self =? 0) then Ok false else Ok true.

(** The text that [is_signature_valid] hands to the verifier. *)
Definition msg_signed (sender_address recipient_address : string)
    (message : option string) (amount sender_transactions : Z) : string :=
  String.append sender_address (String.append " "
    (String.append recipient_address (String.append " "
      (String.append (builtins.str_opt message) (String.append " "
        (String.append (builtins.str amount) (String.append " "
          (builtins.str sender_transactions)))))))).

Definition is_signature_valid `{Ecdsa} {A B : Type}
    (addresses : list Address.t) (self : t) (transactions : A * B)
  : result bool :=
  match sender self with
  | Zero => Ok true
  | Obj i =>
      sig ← match signature self with
            | None => Raise AttributeError
            | Some s => two_ints s
            end;
      a ← deref addresses i;
      key ← two_ints (Address.address a);
      let sender_transactions := len_pair transactions in
      r ← match recipient self with
          | Zero => Raise AttributeError
          | Obj j => deref addresses j
          end;
      ecdsa_verify sig
        (msg_signed (Address.address a) (Address.address r)
                    (message self) (amount self) sender_transactions)
        key
  end.

End Transaction.

(** An element of [block['transactions']]: a [Transaction] object in a
    block that this node forged or loaded, a dictionary in a block taken
    from a peer. *)
Inductive tx_entry : Type :=
| TxObj (t : Transaction.t)
| TxDict (j : json).

(** A block: the dictionary with the keys [index], [timestamp],
    [transactions], [proof] and [previous_hash]. *)
Module Block.

Record t : Type := mk {
  index : Z;
  timestamp : number;
  transactions : list tx_entry;
  proof : Z;
  previous_hash : json
}.

(** The element as [json.dumps] meets it: an object that is no JSON
    value is refused with a [TypeError]. *)
Definition entry_json (e : tx_entry) : result json :=
  match e with
  | TxDict j => Ok j
  | TxObj _ => Raise TypeError
  end.

(** The items of the dictionary, in the order in which [new_block] writes
    them. *)
Definition items (b : t) : result (list (string * json)) :=
  txs ← mapM entry_json (transactions b);
  Ok [ ("index", JInt (index b));
       ("timestamp", number_json (timestamp b));
       ("transactions", JList txs);
       ("proof", JInt (proof b));
       ("previous_hash", previous_hash b) ].

End Block.

(** The answer of a peer to [GET /chain]. *)
Record Response : Type := {
  status_code : Z;
  json_length : Z;
  json_chain : list Block.t
}.

(** ** class Blockchain *)
Module Blockchain.

(** The attributes of the object. [nodes] is a Python set: the list holds
    its elements in the order in which a [for] loop meets them. *)
Record t : Type := mk {
  current_transactions : list Transaction.t;
  addresses : list Address.t;
  chain : list Block.t;
  nodes : list string
}.

Definition set_current_transactions (l : list Transaction.t) (self : t) : t :=
  mk l (addresses self) (chain self) (nodes self).
Definition set_addresses (l : list Address.t) (self : t) : t :=
  mk (current_transactions self) l (chain self) (nodes self).
Definition set_chain (l : list Block.t) (self : t) : t :=
  mk (current_transactions self) (addresses self) l (nodes self).

(** A method: it reads and updates [self], and returns or raises. *)
Definition M (A : Type) : Type := t -> result A * t.

#[global] Instance M_ret : MRet M := fun A a self => (Ok a, self).
#[global] Instance M_bind : MBind M := fun A B f m self =>
  match m self with
  | (Ok a, self') => f a self'
  | (Raise e, self') => (Raise e, self')
  end.

Definition raise {A : Type} (e : exn) : M A := fun self => (Raise e, self).
Definition lift {A : Type} (r : result A) : M A := fun self => (r, self).
Definition read {A : Type} (f : t -> A) : M A := fun self => (Ok (f self), self).
Definition modify (f : t -> t) : M unit := fun self => (Ok tt, f self).

(** [try: x = m  except e: handler] followed by [k x]. *)
Definition try_except {A B : Type} (m : M A) (e : exn -> bool)
    (handler : M B) (k : A -> M B) : M B := fun self =>
  match m self with
  | (Ok a, self') => k a self'
  | (Raise x, self') => if e x then handler self' else (Raise x, self')
  end.

Definition is_AddressNotFound (e : exn) : bool :=
  match e with
  | AddressNotFound => true
  | _ => false
  end.

(** The argument of [get_address] and [getTransactionsByAddress]: a
    string, or an [Address] object. *)
Inductive arg : Type :=
| Str (s : string)
| Ref (index : nat).

Definition arg_of_party (p : party) : arg :=
  match p with
  | Zero => Str "0"
  | Obj i => Ref i
  end.

(** The loop of [get_address] over [enumerate(list_of_addresses)]. *)
Fixpoint find_index (address : string) (l : list Address.t) (index : nat)
  : option nat :=
  match l with
  | [] => None
  | a :: r =>
      if String.eqb address (Address.address a) then Some index
      else find_index address r (S index)
  end.

(** An [Address] object is equal to no string: it is never found. *)
Definition get_address (address : arg) : M party :=
  match address with
  | Str s =>
      if String.eqb s "0" then mret Zero
      else
        l ← read addresses;
        match find_index s l 0 with
        | Some index => mret (Obj index)
        | None => raise AddressNotFound
        end
  | Ref _ => raise AddressNotFound
  end.

Definition getOrCreateAddress (address : string) : M party :=
  try_except (get_address (Str address)) is_AddressNotFound
    (l ← read addresses;
     modify (set_addresses (l ++ [Address.init address]));;
     mret (Obj (length (l ++ [Address.init address])%list - 1)))
    mret.

(** [hash(block)] for a dictionary. *)
Definition hash (block : list (string * json)) : string :=
  hashlib.sha256_hexdigest (dumps (JDict block)).

Definition hash_block (b : Block.t) : result string :=
  hash <$> Block.items b.

Definition valid_proof (last_proof proof : Z) : bool :=
  let guess := String.append (builtins.str last_proof) (builtins.str proof) in
  let guess_hash := hashlib.sha256_hexdigest guess in
  String.eqb (substring 0 4 guess_hash) "0000".

(** The loop of [proof_of_work], for at most [fuel] candidates; [None]
    when they are used up. *)
Fixpoint proof_of_work_from (fuel : nat) (last_proof proof : Z) : option Z :=
  match fuel with
  | O => None
  | S fuel' =>
      if valid_proof last_proof proof then Some proof
      else proof_of_work_from fuel' last_proof (proof + 1)
  end.

Definition proof_of_work (fuel : nat) (last_proof : Z) : option Z :=
  proof_of_work_from fuel last_proof 0.

(** The loop of [valid_chain]: [rest] holds the blocks from
    [current_index] on. *)
Fixpoint valid_chain_from (last_block : Block.t) (rest : list Block.t)
  : result bool :=
  match rest with
  | [] => Ok true
  | block :: rest' =>
      h ← hash_block last_block;
      if negb (json_eq_str (Block.previous_hash block) h) then Ok false
      else if negb (valid_proof (Block.proof last_block) (Block.proof block))
      then Ok false
      else if number_lt (Block.timestamp block) (Block.timestamp last_block)
      then Ok false
      else valid_chain_from block rest'
  end.

Definition valid_chain (chain : list Block.t) : result bool :=
  match chain with
  | [] => Raise IndexError
  | last_block :: rest => valid_chain_from last_block rest
  end.

(** [resolve_conflicts]. The peers answer through [requests_get]. Both
    [return] statements that follow the status test stand inside the body
    of the [for] loop, so the first pass through the body leaves the
    function: the remaining neighbours are never asked. *)
Definition resolve_conflicts (requests_get : string -> Response)
  : M (bool * list string) :=
  neighbours ← read nodes;
  let new_chain : option (list Block.t) := None in
  let invalid_chains : list string := [] in
  match neighbours with
  | [] => mret (false, invalid_chains)
  | node :: _ =>
      own ← read chain;
      let max_length := Z.of_nat (length own) in
      let response := requests_get node in
      '(new_chain, invalid_chains) ←
        (if status_code response =? 200 then
           let reported := json_length response in
           let chain := json_chain response in
           longer ← (if max_length <? reported then lift (valid_chain chain)
                     else mret false);
           if longer : bool then mret (Some chain, invalid_chains)
           else
             shorter ← (if reported <? max_length then lift (valid_chain chain)
                        else mret false);
             if negb shorter then mret (new_chain, (invalid_chains ++ [node])%list)
             else mret (new_chain, invalid_chains)
         else mret (new_chain, invalid_chains));
      match new_chain with
      | Some (b :: r) =>
          modify (set_chain (b :: r));;
          mret (true, invalid_chains)
      | _ => mret (false, invalid_chains)
      end
  end.

(** [self.addresses[index].amount += delta]. *)
Definition add_amount (index : nat) (delta : Z) : M unit :=
  l ← read addresses;
  match l !! index with
  | Some a =>
      modify (set_addresses
                (<[index := Address.mk (Address.address a) (Address.amount a + delta)]> l))
  | None => raise IndexError
  end.

(** [execute_transaction]; the transaction comes back with its flag set.
    A recipient ['0'] has the index [None], which no list accepts. *)
Definition execute_transaction (transaction : Transaction.t) : M Transaction.t :=
  match Transaction.sender transaction with
  | Zero => mret tt
  | Obj senderIndex => add_amount senderIndex (- Transaction.amount transaction)
  end;;
  match Transaction.recipient transaction with
  | Zero => raise TypeError
  | Obj recipientIndex => add_amount recipientIndex (Transaction.amount transaction)
  end;;
  mret (Transaction.mk (Transaction.sender transaction)
          (Transaction.recipient transaction) (Transaction.amount transaction)
          (Transaction.message transaction) (Transaction.signature transaction)
          true).

(** [address == v] for a value read from a dictionary. *)
Definition json_eq_party (address : party) (v : json) : bool :=
  match address with
  | Zero => json_eq_str v "0"
  | Obj _ => false
  end.

(** [address in (t.sender, t.recipient)], and for what has no such
    attributes [address in (t['sender'], t['recipient'])]. *)
Definition involves (address : party) (e : tx_entry) : result bool :=
  match e with
  | TxObj t =>
      Ok (party_eqb address (Transaction.sender t)
          || party_eqb address (Transaction.recipient t))
  | TxDict (JDict d) =>
      match dict_get "sender" d, dict_get "recipient" d with
      | Some s, Some r => Ok (json_eq_party address s || json_eq_party address r)
      | _, _ => Raise KeyError
      end
  | TxDict _ => Raise TypeError
  end.

(** The elements that satisfy [p], in order; the first failure of [p]
    ends the loop. *)
Fixpoint select {A : Type} (p : A -> result bool) (l : list A) : result (list A) :=
  match l with
  | [] => Ok []
  | x :: r =>
      b ← p x;
      rest ← select p r;
      Ok (if b : bool then x :: rest else rest)
  end.

(** [getTransactionsByAddress] returns a pair in every case: the two
    lists, or [None, None]. *)
Definition getTransactionsByAddress (address : arg)
  : M (option (list tx_entry) * option (list Transaction.t)) :=
  try_except (get_address address) is_AddressNotFound
    (match address with
     | Ref i => mret (Some (Obj i))
     | Str _ => mret None
     end)
    (fun p => mret (Some p))
  ≫= fun resolved =>
  match resolved with
  | None => mret (None, None)
  | Some address =>
      c ← read chain;
      transactions ← lift (select (involves address) (flat_map Block.transactions c));
      pending ← read current_transactions;
      future_transactions ← lift (select (fun t => involves address (TxObj t)) pending);
      mret (Some transactions, Some future_transactions)
  end.

Definition new_transaction `{Ecdsa} (sender recipient : string) (amount : Z)
    (signature message : option string) : M (option Z) :=
  try_except (get_address (Str sender)) is_AddressNotFound (mret None)
    (fun sender =>
       recipient ← getOrCreateAddress recipient;
       let transaction :=
         Transaction.init sender recipient amount signature message in
       sender_transactions ← getTransactionsByAddress (arg_of_party sender);
       l ← read addresses;
       valid ← lift (Transaction.is_valid l transaction);
       signed ← (if valid : bool
                 then lift (Transaction.is_signature_valid l transaction
                              sender_transactions)
                 else mret false);
       if negb signed then mret None
       else
         transaction ← execute_transaction transaction;
         pending ← read current_transactions;
         modify (set_current_transactions (pending ++ [transaction]));;
         c ← read chain;
         match last c with
         | None => mret (Some 0)
         | Some last_block => mret (Some (Block.index last_block + 1))
         end).

(** Truth value of an argument. *)
Definition truthy (v : json) : bool :=
  match v with
  | JNull => false
  | JBool b => b
  | JInt n => negb (n =? 0)
  | JFloat _ => true
  | JStr s => negb (String.eqb s "")
  | JList l => negb (Nat.eqb (length l) 0)
  | JDict d => negb (Nat.eqb (length d) 0)
  end.

(** [new_block]; [now] is the reading of the clock. Writing the chain
    file is left out. *)
Definition new_block (now : Z) (proof : Z) (previous_hash : option json)
  : M Block.t :=
  c ← read chain;
  let index := if negb (Nat.eqb (length c) 0) then Z.of_nat (length c) else 0 in
  pending ← read current_transactions;
  previous_hash ←
    match previous_hash with
    | Some v =>
        if truthy v then mret v
        else match last c with
             | Some b => lift (JStr <$> hash_block b)
             | None => raise IndexError
             end
    | None =>
        match last c with
        | Some b => lift (JStr <$> hash_block b)
        | None => raise IndexError
        end
    end;
  let block := Block.mk index now (map TxObj pending) proof previous_hash in
  modify (set_current_transactions []);;
  own ← read chain;
  modify (set_chain (own ++ [block]));;
  mret block.

(** The end of [__init__] when the chain file holds no block: the genesis
    block, with the first coin for the key of the node. *)
Definition init_genesis `{Ecdsa} (public_key : string) (now : Z) : M Block.t :=
  new_transaction "0" public_key 1 None None;;
  new_block now 100 (Some (JInt 1)).

(** [get_balance]: the amount of a known wallet. *)
Definition get_balance (address : string) : M (option Z) :=
  try_except (get_address (Str address)) is_AddressNotFound (mret None)
    (fun p =>
       match p with
       | Zero => raise AttributeError
       | Obj i => l ← read addresses; a ← lift (deref l i); mret (Some (Address.amount a))
       end).

End Blockchain.

(** ** The functions of the module *)

Import Blockchain.

(** [x.address] for what a transaction holds as sender or recipient: the
    string ['0'] has no such attribute. *)
Definition party_address (addresses : list Address.t) (p : party) : result string :=
  match p with
  | Zero => Raise AttributeError
  | Obj i => Address.address <$> deref addresses i
  end.

(** An optional string as a JSON value: [None] is [null]. *)
Definition json_of_option (o : option string) : json :=
  match o with
  | Some s => JStr s
  | None => JNull
  end.

(** The body of the loop of [transactions_to_jsonSerializable]: a
    dictionary has no attribute [sender]. *)
Definition transaction_to_jsonSerializable (addresses : list Address.t)
    (transaction_ : tx_entry) : result (list (string * json)) :=
  match transaction_ with
  | TxDict _ => Raise AttributeError
  | TxObj t =>
      sender ← match Transaction.sender t with
               | Zero => Ok "0"
               | Obj i => Address.address <$> deref addresses i
               end;
      recipient ← party_address addresses (Transaction.recipient t);
      Ok [ ("sender", JStr sender);
           ("recipient", JStr recipient);
           ("amount", JInt (Transaction.amount t));
           ("message", json_of_option (Transaction.message t));
           ("signature", json_of_option (Transaction.signature t)) ]
  end.

Definition transactions_to_jsonSerializable (addresses : list Address.t)
    (transactions_ : list tx_entry) : result (list (list (string * json))) :=
  mapM (transaction_to_jsonSerializable addresses) transactions_.

(** The dictionary that [block_to_jsonSerializable] builds, in the order
    in which it writes the keys. *)
Definition block_to_jsonSerializable (addresses : list Address.t)
    (block_ : Block.t) : result (list (string * json)) :=
  transactions ← transactions_to_jsonSerializable addresses (Block.transactions block_);
  Ok [ ("index", JInt (Block.index block_));
       ("timestamp", number_json (Block.timestamp block_));
       ("proof", JInt (Block.proof block_));
       ("previous_hash", Block.previous_hash block_);
       ("transactions", JList (map JDict transactions)) ].

Definition chain_to_jsonSerializable (addresses : list Address.t)
    (chain_ : list Block.t) : result (list (list (string * json))) :=
  mapM (block_to_jsonSerializable addresses) chain_.

(** [update_chainFile], as far as the blockchain is concerned: the chain
    is made serializable, which can fail; the file itself is outside the
    model. *)
Definition update_chainFile : M unit :=
  c ← read chain;
  l ← read addresses;
  lift (chain_to_jsonSerializable l c);;
  mret tt.

(** [new_block] as a whole: once the block is appended, the chain file is
    written, and only then is the block returned. *)
Definition new_block_saved (now : Z) (proof : Z) (previous_hash : option json)
  : M Block.t :=
  block ← new_block now proof previous_hash;
  update_chainFile;;
  mret block.

(** The property [last_block]. *)
Definition last_block : M Block.t :=
  c ← read chain;
  match last c with
  | Some b => mret b
  | None => raise IndexError
  end.

(** The endpoint [/mine] for the node whose key is [public_key]; [now] is
    the reading of the clock in [new_block] and [fuel] bounds the loop of
    [proof_of_work]: [None] when it is used up. The value is the
    dictionary of the response. *)
Definition mine `{Ecdsa} (public_key : string) (now : Z) (fuel : nat)
  : M (option (list (string * json))) :=
  last ← last_block;
  l ← read addresses;
  last_json ← lift (block_to_jsonSerializable l last);
  let last_proof := Block.proof last in
  match proof_of_work fuel last_proof with
  | None => mret None
  | Some proof =>
      new_transaction "0" public_key 1 None None;;
      let previous_hash := hash last_json in
      block ← new_block_saved now proof (Some (JStr previous_hash));
      l' ← read addresses;
      transactions ← lift (transactions_to_jsonSerializable l' (Block.transactions block));
      mret (Some [ ("message", JStr "New block forged");
                   ("index", JInt (Block.index block));
                   ("transactions", JList (map JDict transactions));
                   ("proof", JInt (Block.proof block));
                   ("previous_hash", Block.previous_hash block) ])
  end.

(** The endpoint [/chain]: the chain and its length. *)
Definition full_chain : M (list (list (string * json)) * Z) :=
  c ← read chain;
  l ← read addresses;
  served ← lift (chain_to_jsonSerializable l c);
  mret (served, Z.of_nat (length c)).

(** The endpoint [/transactions/new] once the four keys were found in the
    request: the message of the response. *)
Definition new_transaction_endpoint `{Ecdsa} (sender recipient : string)
    (amount : Z) (signature message : option string) : M string :=
  index ← new_transaction sender recipient amount signature message;
  match index with
  | None => mret "Invalid transaction"
  | Some index =>
      mret (String.append "Transaction added to the Block " (builtins.str index))
  end.

(** The endpoint [/node/resolve]: whether the chain was replaced, and the
    chain in the response. *)
Definition consensus (requests_get : string -> Response)
  : M (bool * list (list (string * json))) :=
  '(replaced, invalid_chains) ← resolve_conflicts requests_get;
  c ← read chain;
  l ← read addresses;
  served ← lift (chain_to_jsonSerializable l c);
  mret (replaced, served).

(** The endpoint [/transactions/wallet] once the key [address] was found:
    [None] stands for the answer that the address does not exist. *)
Definition get_transactions (address : string)
  : M (option (list (list (string * json)) * list (list (string * json)) * option Z)) :=
  found ← getTransactionsByAddress (Str address);
  match found with
  | (Some transactions, Some future_transactions) =>
      l ← read addresses;
      transactions ← lift (transactions_to_jsonSerializable l transactions);
      future_transactions ←
        lift (transactions_to_jsonSerializable l (map TxObj future_transactions));
      actual_balance ← get_balance address;
      mret (Some (transactions, future_transactions, actual_balance))
  | _ => mret None
  end.

(** ** The chain file

    [__init__] reads the chain that [update_chainFile] wrote: blocks whose
    transactions are dictionaries with the five keys that
    [transactions_to_jsonSerializable] writes, the sender and the
    recipient as strings. *)
Record Entry : Type := {
  entry_sender : string;
  entry_recipient : string;
  entry_amount : Z;
  entry_message : option string;
  entry_signature : option string
}.

Record FileBlock : Type := {
  file_index : Z;
  file_timestamp : number;
  file_proof : Z;
  file_previous_hash : json;
  file_transactions : list Entry
}.

(** The dictionaries as [json.load] returns them. *)
Definition entry_dict (transaction : Entry) : list (string * json) :=
  [ ("sender", JStr (entry_sender transaction));
    ("recipient", JStr (entry_recipient transaction));
    ("amount", JInt (entry_amount transaction));
    ("message", json_of_option (entry_message transaction));
    ("signature", json_of_option (entry_signature transaction)) ].

Definition loaded (block : FileBlock) : Block.t :=
  Block.mk (file_index block) (file_timestamp block)
    (map (fun transaction => TxDict (JDict (entry_dict transaction)))
         (file_transactions block))
    (file_proof block) (file_previous_hash block).

(** The body of the inner loop of [__init__]: the transaction is checked,
    the answer of the check is dropped, and the transaction is carried
    out. The message of the dictionary is not read. *)
Definition init_transaction `{Ecdsa} (transaction : Entry) : M Transaction.t :=
  sender ← (if String.eqb (entry_sender transaction) "0" then mret Zero
            else getOrCreateAddress (entry_sender transaction));
  recipient ← getOrCreateAddress (entry_recipient transaction);
  let transaction_ :=
    Transaction.init sender recipient (entry_amount transaction)
      (entry_signature transaction) None in
  sender_transactions ← getTransactionsByAddress (arg_of_party sender);
  l ← read addresses;
  valid ← lift (Transaction.is_valid l transaction_);
  (if valid : bool
   then lift (Transaction.is_signature_valid l transaction_ sender_transactions)
   else mret false);;
  execute_transaction transaction_.

Fixpoint init_transactions `{Ecdsa} (transactions : list Entry)
  : M (list Transaction.t) :=
  match transactions with
  | [] => mret []
  | transaction :: rest =>
      transaction_ ← init_transaction transaction;
      transactions_ ← init_transactions rest;
      mret (transaction_ :: transactions_)
  end.

(** The outer loop, from the block at [position] on: the block of the
    chain gets the [Transaction] objects in the place of its
    dictionaries once all of them are made. *)
Fixpoint init_blocks `{Ecdsa} (position : nat) (blocks : list FileBlock) : M unit :=
  match blocks with
  | [] => mret tt
  | block :: rest =>
      transactions_ ← init_transactions (file_transactions block);
      c ← read chain;
      modify (set_chain
                (<[position := Block.mk (file_index block) (file_timestamp block)
                                 (map TxObj transactions_) (file_proof block)
                                 (file_previous_hash block)]> c));;
      init_blocks (S position) rest
  end.

(** [__init__] for the node whose key is [public_key]: [file_chain] is
    what the chain file holds, [file_nodes] the set made of the nodes
    file, and [now] the reading of the clock in [new_block]. *)
Definition init `{Ecdsa} (public_key : string) (now : Z)
    (file_chain : list FileBlock) (file_nodes : list string) : result unit * t :=
  (init_blocks 0 file_chain;;
   modify (fun self =>
             Blockchain.mk (current_transactions self) (addresses self)
               (chain self) file_nodes);;
   c ← read chain;
   if Nat.eqb (length c) 0
   then (new_transaction "0" public_key 1 None None;;
         new_block_saved now 100 (Some (JInt 1));;
         mret tt)
   else mret tt)
    (Blockchain.mk [] [] (map loaded file_chain) []).

(** * Vocabulary of the properties *)

Import Blockchain.

(** What [valid_chain] demands of two neighbours: the time stamp of the
    second is not below the time stamp of the first. *)
Definition pair_ok (previous current : Block.t) : Prop :=
  (exists h, hash_block previous = Ok h /\ Block.previous_hash current = JStr h)
  /\ valid_proof (Block.proof previous) (Block.proof current) = true
  /\ number_lt (Block.timestamp current) (Block.timestamp previous) = false.




(** Two values that differ at most in the order in which the keys of
    their dictionaries, at any depth, were inserted. *)
Inductive same_value : json -> json -> Prop :=
| same_null : same_value JNull JNull
| same_bool (b : bool) : same_value (JBool b) (JBool b)
| same_int (n : Z) : same_value (JInt n) (JInt n)
| same_float (x : nonfinite) : same_value (JFloat x) (JFloat x)
| same_str (s : string) : same_value (JStr s) (JStr s)
| same_list (l1 l2 : list json) :
    length l1 = length l2 ->
    (forall (i : nat) v1 v2,
        l1 !! i = Some v1 -> l2 !! i = Some v2 -> same_value v1 v2) ->
    same_value (JList l1) (JList l2)
| same_dict (d1 d2 : list (string * json)) :
    List.NoDup (map fst d1) -> List.NoDup (map fst d2) ->
    (forall k, dict_get k d1 = None <-> dict_get k d2 = None) ->
    (forall k v1 v2,
        dict_get k d1 = Some v1 -> dict_get k d2 = Some v2 -> same_value v1 v2) ->
    same_value (JDict d1) (JDict d2).

(** The index that [new_block] gives to the block it forges. *)
Definition next_index (c : list Block.t) : Z := Z.of_nat (length c).

(** Every block sits at the position that its [index] names. *)
Definition chain_indexed (c : list Block.t) : Prop :=
  forall (i : nat) b, c !! i = Some b -> Block.index b = Z.of_nat i.

(** What [get_address] finds for a string in the ledger [l]. *)
Definition resolve (s : string) (l : list Address.t) : option party :=
  if String.eqb s "0" then Some Zero else Obj <$> find_index s l 0.

Definition resolve_arg (a : arg) (l : list Address.t) : result party :=
  match a with
  | Str s =>
      match resolve s l with
      | Some p => Ok p
      | None => Raise AddressNotFound
      end
  | Ref _ => Raise AddressNotFound
  end.

(** The ledger after [delta] has been added to the wallet at [i]. *)
Definition bump (i : nat) (delta : Z) (l : list Address.t) : list Address.t :=
  match l !! i with
  | Some a => <[i := Address.mk (Address.address a) (Address.amount a + delta)]> l
  | None => l
  end.

(** The amount held by the wallet named [a]; nothing when the ledger has
    no such wallet. *)
Fixpoint balance (a : string) (l : list Address.t) : Z :=
  match l with
  | [] => 0
  | x :: r => if String.eqb a (Address.address x) then Address.amount x else balance a r
  end.

(** The state in which [new_transaction] checks the transaction: the
    recipient has a wallet. *)
Definition with_recipient (r : string) (self : t) : t :=
  match resolve r (addresses self) with
  | Some _ => self
  | None => set_addresses (addresses self ++ [Address.init r]) self
  end.

Definition recipient_party (r : string) (self : t) : party :=
  match resolve r (addresses self) with
  | Some p => p
  | None => Obj (length (addresses self))
  end.

(** The arguments of one call of [new_transaction]. *)
Record Call : Type := {
  call_sender : string;
  call_recipient : string;
  call_amount : Z;
  call_signature : option string;
  call_message : option string
}.

Definition call `{Ecdsa} (c : Call) : M (option Z) :=
  new_transaction (call_sender c) (call_recipient c) (call_amount c)
    (call_signature c) (call_message c).

(** A call is admitted when it returns an index: it neither returns
    [None] nor raises. *)
Definition admitted (r : result (option Z)) : bool :=
  match r with
  | Ok (Some _) => true
  | _ => false
  end.

(** The calls of a sequence, one after the other, whatever each of them
    answers; the state at the end. *)
Fixpoint run `{Ecdsa} (calls : list Call) (self : t) : t :=
  match calls with
  | [] => self
  | c :: rest => run rest (snd (call c self))
  end.

(** The sum of the amounts that the wallet named [a] received in the
    admitted calls of the sequence. *)
Fixpoint received `{Ecdsa} (a : string) (calls : list Call) (self : t) : Z :=
  match calls with
  | [] => 0
  | c :: rest =>
      (if admitted (fst (call c self)) && String.eqb (call_recipient c) a
       then call_amount c else 0)
      + received a rest (snd (call c self))
  end.

(** The sum of the amounts that it sent in them. *)
Fixpoint sent `{Ecdsa} (a : string) (calls : list Call) (self : t) : Z :=
  match calls with
  | [] => 0
  | c :: rest =>
      (if admitted (fst (call c self)) && String.eqb (call_sender c) a
       then call_amount c else 0)
      + sent a rest (snd (call c self))
  end.

(** The blockchain of a node that has seen nothing yet. *)
Definition blank : t := Blockchain.mk [] [] [] [].

(** The names of the wallets, in the order of the ledger. *)
#[local] Abbreviation names l := (map Address.address l).

(** No two wallets share a name, and no wallet is named ['0']. *)
Definition ledger_ok (l : list Address.t) : Prop :=
  List.NoDup (names l) /\ ~ In "0" (names l).

(** Every element of every block of the chain is a [Transaction] object:
    the chain holds no block taken from a peer. *)
Definition forged_here (c : list Block.t) : Prop :=
  Forall (fun e => exists t, e = TxObj t) (flat_map Block.transactions c).


(** ** Data of the worked examples *)

(** The call by which [mine] rewards a wallet. *)
Definition coinbase (recipient : string) (amount : Z) : Call :=
  {| call_sender := "0"; call_recipient := recipient; call_amount := amount;
     call_signature := None; call_message := None |}.

(** The key of the node, and the node once [__init__] has run on empty
    files at time 10: the chain holds the genesis block and the wallet of
    the node holds one coin. *)
Definition alice : string := "1 2".

Definition started `{Ecdsa} : t := snd (init_genesis alice 10 blank).

(** A verifier that accepts the signatures put on one text only. *)
Definition accepts_only (text : string) : Ecdsa :=
  {| ecdsa_verify := fun _ msg _ => Ok (String.eqb msg text) |}.

(** A chain of two blocks: 2 is the proof that follows 30916. *)
Definition genesis : Block.t := Block.mk 0 10 [] 30916 (JInt 1).

Definition second : Block.t :=
  Block.mk 1 11 [] 2
    (JStr "eea2fd4ad8f8de4cc9afa2284147bea1f636ec713043637dc7b74600bef17d84").

(** Two peers: the first serves the chain that this node has, the second
    a valid chain that is longer. *)
Definition peers (node : string) : Response :=
  if String.eqb node "a:5000"
  then {| status_code := 200; json_length := 1; json_chain := [genesis] |}
  else {| status_code := 200; json_length := 2; json_chain := [genesis; second] |}.


(** Peers that all serve a longer chain whose second block does not name
    the hash of the first. *)
Definition unlinked : Block.t := Block.mk 1 11 [] 2 (JStr "00").

Definition liars (node : string) : Response :=
  {| status_code := 200; json_length := 2; json_chain := [genesis; unlinked] |}.

(** A node whose chain file holds the block [genesis]. *)
Definition node_with (neighbours : list string) : t :=
  Blockchain.mk [] [] [genesis] neighbours.

(** A peer that serves a valid chain whose second block carries the
    index 7, and the node once it has adopted that chain. *)
Definition misnumbered : Block.t :=
  Block.mk 7 11 [] 2
    (JStr "eea2fd4ad8f8de4cc9afa2284147bea1f636ec713043637dc7b74600bef17d84").

Definition rogue (node : string) : Response :=
  {| status_code := 200; json_length := 2; json_chain := [genesis; misnumbered] |}.

Definition misled : t := snd (resolve_conflicts rogue (node_with ["c:5000"])).

(** The same block written with its keys in two orders. *)
Definition genesis_items : list (string * json) :=
  [ ("index", JInt 0); ("timestamp", JInt 10); ("transactions", JList []);
    ("proof", JInt 30916); ("previous_hash", JInt 1) ].

Definition genesis_items_shuffled : list (string * json) :=
  [ ("previous_hash", JInt 1); ("proof", JInt 30916); ("index", JInt 0);
    ("transactions", JList []); ("timestamp", JInt 10) ].

(** ** Vocabulary of the further properties *)

(** The sum of the amounts of all wallets. *)
Definition supply (l : list Address.t) : Z :=
  fold_right (fun x acc => Address.amount x + acc) 0 l.

(** What [getTransactionsByAddress] scans for. *)
Definition scanned (a : arg) (l : list Address.t) : option party :=
  match a with
  | Str s => resolve s l
  | Ref i => Some (Obj i)
  end.

(** An argument [previous_hash] that [new_block] replaces by the hash of
    the last block: [None], or a value that counts as false. *)
Definition falsy (previous_hash : option json) : Prop :=
  match previous_hash with
  | None => True
  | Some v => truthy v = false
  end.

(** Every element of every block of the chain is a dictionary: the chain
    is one that a peer has sent. *)
Definition dictionaries_only (c : list Block.t) : Prop :=
  Forall (fun e => exists j, e = TxDict j) (flat_map Block.transactions c).

(** What the node [started] serves: its genesis block, with the first
    coin of [alice]. *)
Definition served_genesis : list (string * json) :=
  [ ("index", JInt 0); ("timestamp", JInt 10); ("proof", JInt 100);
    ("previous_hash", JInt 1);
    ("transactions",
     JList [JDict [ ("sender", JStr "0"); ("recipient", JStr alice);
                    ("amount", JInt 1); ("message", JNull);
                    ("signature", JNull) ]]) ].

(** The number that a JSON value is, if it is one. *)
Definition json_number (v : json) : option number :=
  match v with
  | JInt z => Some (Finite z)
  | JFloat x => Some (NonFinite x)
  | _ => None
  end.

(** A served block as the peer that asked for it holds it: the five
    entries of the dictionary, with the transactions as the dictionaries
    that they were served as. *)
Definition as_received (served : list (string * json)) : option Block.t :=
  match dict_get "index" served, dict_get "timestamp" served ≫= json_number,
        dict_get "transactions" served, dict_get "proof" served,
        dict_get "previous_hash" served with
  | Some (JInt index), Some timestamp, Some (JList transactions),
    Some (JInt proof), Some previous_hash =>
      Some (Block.mk index timestamp (map TxDict transactions) proof previous_hash)
  | _, _, _, _, _ => None
  end.

(** The chain that a peer holds of the chain that was served. *)
Definition chain_received (served : list (list (string * json)))
    (c : list Block.t) : Prop :=
  Forall2 (fun d b => as_received d = Some b) served c.

(** What the node [node_with []] serves, and what [mine] answers there
    for the key [alice] at time 11. *)
Definition served_first : list (string * json) :=
  [ ("index", JInt 0); ("timestamp", JInt 10); ("proof", JInt 30916);
    ("previous_hash", JInt 1); ("transactions", JList []) ].

Definition mined_second : list (string * json) :=
  [ ("message", JStr "New block forged"); ("index", JInt 1);
    ("transactions",
     JList [JDict [ ("sender", JStr "0"); ("recipient", JStr alice);
                    ("amount", JInt 1); ("message", JNull);
                    ("signature", JNull) ]]);
    ("proof", JInt 2);
    ("previous_hash",
     JStr "eea2fd4ad8f8de4cc9afa2284147bea1f636ec713043637dc7b74600bef17d84") ].

(** The transactions of a chain file, and what they bring to and take
    from the name [n]. *)
Definition entries (file : list FileBlock) : list Entry :=
  flat_map file_transactions file.

Definition credited (n : string) (l : list Entry) : Z :=
  fold_right (fun e acc =>
                (if String.eqb (entry_recipient e) n then entry_amount e else 0) + acc)
             0 l.

Definition debited (n : string) (l : list Entry) : Z :=
  fold_right (fun e acc =>
                (if String.eqb (entry_sender e) n then entry_amount e else 0) + acc)
             0 l.

(** A block of the chain file as the node serves it once it has loaded
    it: the messages of the transactions are gone. *)
Definition without_message (e : Entry) : Entry :=
  {| entry_sender := entry_sender e; entry_recipient := entry_recipient e;
     entry_amount := entry_amount e; entry_message := None;
     entry_signature := entry_signature e |}.

Definition reloaded (block : FileBlock) : list (string * json) :=
  [ ("index", JInt (file_index block));
    ("timestamp", number_json (file_timestamp block));
    ("proof", JInt (file_proof block));
    ("previous_hash", file_previous_hash block);
    ("transactions",
     JList (map (fun e => JDict (entry_dict (without_message e)))
                (file_transactions block))) ].

(** A chain file of one block in which a wallet that holds nothing pays
    five coins, and one whose only transaction carries a message. *)
Definition overdrawn_file : list FileBlock :=
  [ {| file_index := 0; file_timestamp := 10; file_proof := 100;
       file_previous_hash := JInt 1;
       file_transactions :=
         [ {| entry_sender := "A"; entry_recipient := "B"; entry_amount := 5;
              entry_message := None; entry_signature := None |} ] |} ].

Definition greeting_file : list FileBlock :=
  [ {| file_index := 0; file_timestamp := 10; file_proof := 100;
       file_previous_hash := JInt 1;
       file_transactions :=
         [ {| entry_sender := "0"; entry_recipient := alice; entry_amount := 1;
              entry_message := Some "hello"; entry_signature := None |} ] |} ].

(** * Properties *)

(** ** The library functions on known values *)

(** The digest of the FIPS 180-4 test message. *)
Example sha256_abc :
  hashlib.sha256_hexdigest "abc" =
  "ba7816bf8f01cfea414140de5dae2223b00361a396177a9cb410ff61f20015ad".
Proof. vm_compute. reflexivity. Qed.

(** The digest that Python gives for the block [genesis_items]. *)
Example hash_genesis_items :
  hash genesis_items =
  "eea2fd4ad8f8de4cc9afa2284147bea1f636ec713043637dc7b74600bef17d84".
Proof. vm_compute. reflexivity. Qed.

(** The proof that the usual genesis proof 100 leads to. *)
Example valid_proof_100 : valid_proof 100 35293 = true.
Proof. vm_compute. reflexivity. Qed.

Example split_and_int :
  two_ints " 12  -7 " = Ok (12, -7)
  /\ two_ints "12" = Raise ValueError
  /\ two_ints "1 2 3" = Raise ValueError
  /\ two_ints "1 x" = Raise ValueError
  /\ builtins.int "1_000" = Some 1000
  /\ builtins.int "1__0" = None.
Proof. repeat split. Qed.

(** ** Chain validation *)

Lemma json_eq_str_true (v : json) (s : string) :
  json_eq_str v s = true <-> v = JStr s.
Proof.
  destruct v; simpl; try (split; [discriminate | intros [=]]).
  rewrite String.eqb_eq. split; [intros -> | intros [= ->]]; reflexivity.
Qed.

Lemma valid_chain_from_step (last_block block : Block.t) (rest : list Block.t) :
  valid_chain_from last_block (block :: rest) = Ok true <->
  pair_ok last_block block /\ valid_chain_from block rest = Ok true.
Proof.
  unfold pair_ok. simpl. destruct (hash_block last_block) as [h|e]; simpl.
  - destruct (json_eq_str (Block.previous_hash block) h) eqn:Hh; simpl.
    + apply json_eq_str_true in Hh.
      destruct (valid_proof (Block.proof last_block) (Block.proof block)); simpl.
      * destruct (number_lt (Block.timestamp block) (Block.timestamp last_block)).
        -- split; [discriminate | intros [(_ & _ & Hts) _]; discriminate].
        -- split; [intros Hv; repeat split; eauto | intros [_ Hv]; exact Hv].
      * split; [discriminate | intros [(_ & Hp & _) _]; discriminate].
    + split; [discriminate |].
      intros [((h' & [= <-] & Hph) & _) _].
      apply json_eq_str_true in Hph. congruence.
  - split; [discriminate | intros [((h & Hh & _) & _) _]; discriminate].
Qed.


Lemma valid_chain_from_raises (rest : list Block.t) : forall last_block e,
  valid_chain_from last_block rest = Raise e -> e = TypeError.
Proof.
  induction rest as [|block rest IH]; intros last_block e; simpl; [discriminate|].
  unfold hash_block, Block.items.
  destruct (mapM Block.entry_json (Block.transactions last_block)) as [txs|e'] eqn:Htx; simpl.
  - repeat (match goal with |- context [if ?b then _ else _] => destruct b end;
            try discriminate).
    apply IH.
  - intros [= <-]. clear IH. revert e' Htx.
    generalize (Block.transactions last_block) as l.
    induction l as [|x l IHl]; intros e' Htx; [discriminate|].
    simpl in Htx. destruct x as [t|j]; simpl in Htx; [congruence|].
    destruct (mapM Block.entry_json l) as [txs'|e''] eqn:Hl; simpl in Htx;
      [discriminate|].
    injection Htx as <-. exact (IHl e'' eq_refl).
Qed.




(** C10. [valid_chain] fails with the index error exactly on the empty
    chain: there it returns no boolean, and on a chain with at least one
    block the index error cannot occur. *)
Theorem valid_chain_index_error (chain : list Block.t) :
  valid_chain chain = Raise IndexError <-> chain = [].
Proof.
  destruct chain as [|b rest]; simpl.
  - split; reflexivity.
  - split; [|discriminate].
    intros Hr. apply valid_chain_from_raises in Hr. discriminate.
Qed.

(** ** Proof of work *)

Lemma substring_0000 (s : string) :
  String.eqb (substring 0 4 s) "0000" = true <->
  exists rest, s = String.append "0000" rest.
Proof.
  rewrite String.eqb_eq. split.
  - destruct s as [|a [|b [|c [|d rest]]]]; simpl; try discriminate.
    intros [= -> -> -> -> _]. exists rest. reflexivity.
  - intros [rest ->]. simpl. destruct rest; reflexivity.
Qed.

(** What the loop returns is valid, and nothing that it stepped over is. *)
Lemma proof_of_work_from_sound (last_proof : Z) (fuel : nat) :
  forall start r,
    proof_of_work_from fuel last_proof start = Some r ->
    start <= r /\ valid_proof last_proof r = true
    /\ (forall q, start <= q < r -> valid_proof last_proof q = false).
Proof.
  induction fuel as [|fuel IH]; intros start r; simpl; [discriminate|].
  destruct (valid_proof last_proof start) eqn:Hv.
  - intros [= <-]. repeat split; [lia | assumption | intros q Hq; lia].
  - intros Hr. destruct (IH _ _ Hr) as (Hle & Hvr & Hmin).
    repeat split; [lia | assumption |].
    intros q Hq. destruct (Z.eq_dec q start) as [-> | Hne]; [assumption|].
    apply Hmin. lia.
Qed.

(** With fuel beyond a known solution the loop returns. *)
Lemma proof_of_work_from_complete (last_proof : Z) (fuel : nat) :
  forall start p,
    start <= p -> valid_proof last_proof p = true ->
    (Z.to_nat (p - start) < fuel)%nat ->
    exists r, proof_of_work_from fuel last_proof start = Some r /\ r <= p.
Proof.
  induction fuel as [|fuel IH]; intros start p Hle Hv Hfuel; [lia|].
  simpl. destruct (valid_proof last_proof start) eqn:Hs.
  - exists start. split; [reflexivity | assumption].
  - assert (start <> p) by congruence.
    apply IH; [lia | assumption | lia].
Qed.

(** C6. [valid_proof] holds exactly when the hexadecimal SHA-256 digest of
    the two decimal numerals written one after the other starts with four
    zeros; and whenever some non-negative proof is valid for [last_proof],
    there is a smallest one, [proof_of_work] returns it as soon as the
    loop is given enough steps to reach it, and it never returns anything
    else: its result is valid and is a function of [last_proof] alone. *)
Theorem proof_of_work_spec (last_proof : Z) :
  (forall proof,
      valid_proof last_proof proof = true <->
      exists rest,
        hashlib.sha256_hexdigest
          (String.append (builtins.str last_proof) (builtins.str proof))
        = String.append "0000" rest)
  /\ (forall p, 0 <= p -> valid_proof last_proof p = true ->
      exists p0,
        0 <= p0 <= p
        /\ valid_proof last_proof p0 = true
        /\ (forall q, 0 <= q < p0 -> valid_proof last_proof q = false)
        /\ (forall fuel, (Z.to_nat p0 < fuel)%nat ->
                         proof_of_work fuel last_proof = Some p0)
        /\ (forall fuel r, proof_of_work fuel last_proof = Some r -> r = p0)).
Proof.
  split.
  - intros proof. unfold valid_proof. apply substring_0000.
  - intros p Hp Hv.
    destruct (proof_of_work_from_complete last_proof (S (Z.to_nat p)) 0 p)
      as (p0 & Hrun & Hle); [lia | assumption | lia |].
    destruct (proof_of_work_from_sound _ _ _ _ Hrun) as (H0 & Hv0 & Hmin).
    exists p0. repeat split; try assumption.
    + intros fuel Hfuel.
      destruct (proof_of_work_from_complete last_proof fuel 0 p0)
        as (r & Hr & Hrle); [lia | assumption | lia |].
      unfold proof_of_work. rewrite Hr. f_equal.
      destruct (proof_of_work_from_sound _ _ _ _ Hr) as (Hr0 & Hvr & _).
      destruct (Z.eq_dec r p0) as [-> | Hne]; [reflexivity|].
      rewrite (Hmin r) in Hvr; [discriminate | lia].
    + intros fuel r Hr.
      destruct (proof_of_work_from_sound _ _ _ _ Hr) as (Hr0 & Hvr & Hminr).
      destruct (Z.lt_trichotomy r p0) as [Hlt | [-> | Hgt]]; [|reflexivity|].
      * rewrite (Hmin r) in Hvr; [discriminate | lia].
      * rewrite (Hminr p0) in Hv0; [discriminate | lia].
Qed.

(** The solution for the proof 30916 is 2: neither 0 nor 1 will do. *)
Lemma proof_of_work_spec_witness :
  valid_proof 30916 2 = true
  /\ proof_of_work 3 30916 = Some 2
  /\ valid_proof 30916 0 = false /\ valid_proof 30916 1 = false.
Proof.
  assert (Hv : valid_proof 30916 2 = true) by (vm_compute; reflexivity).
  destruct (proj2 (proof_of_work_spec 30916) 2 ltac:(lia) Hv)
    as (p0 & Hle & Hv0 & Hmin & Hrun & Hdet).
  assert (Hp0 : p0 = 2).
  { symmetry. apply (Hdet 3%nat). vm_compute. reflexivity. }
  subst p0.
  refine (conj Hv (conj (Hrun 3%nat _) (conj (Hmin 0 _) (Hmin 1 _)))).
  - simpl. lia.
  - lia.
  - lia.
Defined.

(** ** Canonical hashing *)

Lemma string_leb_trans (a b c : string) :
  String.leb a b = true -> String.leb b c = true -> String.leb a c = true.
Proof.
  unfold String.leb. revert b c.
  induction a as [|x a IH]; intros [|y b] [|z c]; simpl; try easy.
  unfold Ascii.compare.
  destruct (N.compare_spec (N_of_ascii x) (N_of_ascii y));
    destruct (N.compare_spec (N_of_ascii y) (N_of_ascii z));
    destruct (N.compare_spec (N_of_ascii x) (N_of_ascii z));
    try easy; try lia.
  apply IH.
Qed.

(** Two items with different keys can be inserted in either order. *)
Lemma insert_item_comm {A : Type} (x y : string * A) (l : list (string * A)) :
  fst x <> fst y ->
  insert_item x (insert_item y l) = insert_item y (insert_item x l).
Proof.
  intros Hxy.
  assert (Hcases : (String.leb (fst x) (fst y) = true /\ String.leb (fst y) (fst x) = false)
                   \/ (String.leb (fst x) (fst y) = false /\ String.leb (fst y) (fst x) = true)).
  { destruct (String.leb (fst x) (fst y)) eqn:H1, (String.leb (fst y) (fst x)) eqn:H2;
      auto.
    - exfalso. apply Hxy. apply String.leb_antisym; assumption.
    - destruct (String.leb_total (fst x) (fst y)); congruence. }
  induction l as [|z l IH]; simpl.
  - destruct Hcases as [[-> ->] | [-> ->]]; reflexivity.
  - destruct (String.leb (fst y) (fst z)) eqn:Hyz,
             (String.leb (fst x) (fst z)) eqn:Hxz; simpl;
      rewrite ?Hyz, ?Hxz.
    + destruct Hcases as [[-> ->] | [-> ->]]; simpl; rewrite ?Hyz, ?Hxz; reflexivity.
    + destruct (String.leb (fst x) (fst y)) eqn:H1.
      * rewrite (string_leb_trans _ _ _ H1 Hyz) in Hxz. discriminate.
      * reflexivity.
    + destruct (String.leb (fst y) (fst x)) eqn:H2.
      * rewrite (string_leb_trans _ _ _ H2 Hxz) in Hyz. discriminate.
      * reflexivity.
    + rewrite IH. reflexivity.
Qed.

(** The sorted items do not depend on the order of insertion. *)
Lemma sorted_permutation {A : Type} (l1 l2 : list (string * A)) :
  Permutation l1 l2 -> List.NoDup (map fst l1) -> sorted l1 = sorted l2.
Proof.
  induction 1 as [| x l1 l2 Hp IH | x y l | l1 l2 l3 Hp1 IH1 Hp2 IH2];
    intros Hnd; simpl.
  - reflexivity.
  - inversion Hnd; subst. f_equal. auto.
  - apply insert_item_comm. simpl in Hnd.
    inversion Hnd as [|? ? Hnotin _]; subst. intros Heq. apply Hnotin.
    rewrite Heq. left. reflexivity.
  - rewrite IH1 by assumption. apply IH2.
    eapply Permutation.Permutation_NoDup; [apply Permutation.Permutation_map; eassumption | assumption].
Qed.

Lemma dict_get_In {A : Type} (d : list (string * A)) (k : string) (v : A) :
  List.NoDup (map fst d) -> (In (k, v) d <-> dict_get k d = Some v).
Proof.
  induction d as [|[k' v'] d IH]; simpl; intros Hnd.
  - split; [contradiction | discriminate].
  - inversion Hnd as [|? ? Hnotin Hnd']; subst.
    destruct (String.eqb_spec k k') as [-> | Hne].
    + split.
      * intros [[= ->] | Hin]; [reflexivity|].
        exfalso. apply Hnotin. apply (in_map fst) in Hin. exact Hin.
      * intros [= ->]. left. reflexivity.
    + rewrite <- (IH Hnd'). split.
      * intros [[= -> ->] | Hin]; [contradiction | assumption].
      * intros Hin. right. assumption.
Qed.

(** Dictionaries with the same bindings hold the same items. *)
Lemma dict_same_bindings_permutation {A : Type} (d1 d2 : list (string * A)) :
  List.NoDup (map fst d1) -> List.NoDup (map fst d2) ->
  (forall k, dict_get k d1 = dict_get k d2) ->
  Permutation d1 d2.
Proof.
  intros H1 H2 Hget.
  apply Permutation.NoDup_Permutation.
  - eapply List.NoDup_map_inv; eassumption.
  - eapply List.NoDup_map_inv; eassumption.
  - intros [k v]. rewrite (dict_get_In d1) by assumption.
    rewrite (dict_get_In d2) by assumption. rewrite Hget. reflexivity.
Qed.

(** C9. The hash of a block is a function of its bindings: two
    dictionaries that bind the same keys to the same values have the same
    digest, in whatever order their keys were inserted; hashing the same
    block again gives the same digest. *)
Theorem hash_key_order_independent (block1 block2 : list (string * json))
    (Hkeys1 : List.NoDup (map fst block1)) (Hkeys2 : List.NoDup (map fst block2))
    (Hsame : forall k, dict_get k block1 = dict_get k block2) :
  hash block1 = hash block2 /\ hash block1 = hash block1.
Proof.
  split; [|reflexivity].
  unfold hash. f_equal. simpl.
  rewrite (sorted_permutation
             (map (fun kv => (fst kv, dumps (snd kv))) block1)
             (map (fun kv => (fst kv, dumps (snd kv))) block2)).
  - reflexivity.
  - apply Permutation.Permutation_map.
    apply dict_same_bindings_permutation; assumption.
  - rewrite List.map_map. simpl. exact Hkeys1.
Qed.

Lemma map_pointwise {A B : Type} (f : A -> B) (l1 : list A) : forall l2,
  length l1 = length l2 ->
  (forall (i : nat) x y, l1 !! i = Some x -> l2 !! i = Some y -> f x = f y) ->
  map f l1 = map f l2.
Proof.
  induction l1 as [|x l1 IH]; intros [|y l2] Hlen Hall; try discriminate.
  - reflexivity.
  - simpl. f_equal.
    + exact (Hall 0%nat x y eq_refl eq_refl).
    + apply IH; [simpl in Hlen; lia|].
      intros i x' y' Hx Hy. exact (Hall (S i) x' y' Hx Hy).
Qed.

Lemma dict_get_map {A B : Type} (f : A -> B) (k : string) (d : list (string * A)) :
  dict_get k (map (fun kv => (fst kv, f (snd kv))) d) = f <$> dict_get k d.
Proof.
  induction d as [|[k' v] d IH]; simpl; [reflexivity|].
  destruct (String.eqb k k'); [reflexivity | exact IH].
Qed.

(** The text of a value does not depend on the order of the keys, at any
    depth. *)
Theorem dumps_same_value (v1 v2 : json) : same_value v1 v2 -> dumps v1 = dumps v2.
Proof.
  induction 1 as [ | b | n | x | s | l1 l2 Hlen _ IH | d1 d2 Hk1 Hk2 Hdom _ IH ];
    try reflexivity.
  - simpl. rewrite (map_pointwise dumps l1 l2 Hlen IH). reflexivity.
  - simpl.
    rewrite (sorted_permutation
               (map (fun kv => (fst kv, dumps (snd kv))) d1)
               (map (fun kv => (fst kv, dumps (snd kv))) d2)).
    + reflexivity.
    + apply dict_same_bindings_permutation.
      * rewrite List.map_map. exact Hk1.
      * rewrite List.map_map. exact Hk2.
      * intros k. rewrite !dict_get_map.
        destruct (dict_get k d1) as [x|] eqn:H1, (dict_get k d2) as [y|] eqn:H2; simpl.
        -- f_equal. exact (IH k x y H1 H2).
        -- apply Hdom in H2. congruence.
        -- apply Hdom in H1. congruence.
        -- reflexivity.
    + rewrite List.map_map. exact Hk1.
Qed.

(** So does the hash of a block whose transactions are dictionaries. *)
Corollary hash_same_value (block1 block2 : list (string * json)) :
  same_value (JDict block1) (JDict block2) -> hash block1 = hash block2.
Proof. intros Hsame. unfold hash. f_equal. apply dumps_same_value, Hsame. Qed.

(** ** Transaction admission *)

Ltac run_M := cbv [mbind M_bind mret M_ret read modify lift raise try_except].

Lemma bind_eq {A B : Type} (m : M A) (f : A -> M B) (self : t) :
  (m ≫= f) self =
  match m self with
  | (Ok a, self') => f a self'
  | (Raise e, self') => (Raise e, self')
  end.
Proof. reflexivity. Qed.

Lemma get_address_eq (a : arg) (self : t) :
  get_address a self = (resolve_arg a (addresses self), self).
Proof.
  destruct a as [s|i]; [|reflexivity].
  unfold get_address, resolve_arg, resolve.
  destruct (String.eqb s "0"); [reflexivity|].
  run_M. destruct (find_index s (addresses self) 0); reflexivity.
Qed.

Lemma getOrCreateAddress_eq (r : string) (self : t) :
  getOrCreateAddress r self =
  match resolve r (addresses self) with
  | Some p => (Ok p, self)
  | None => (Ok (Obj (length (addresses self))),
             set_addresses (addresses self ++ [Address.init r]) self)
  end.
Proof.
  unfold getOrCreateAddress, try_except. rewrite get_address_eq. simpl.
  destruct (resolve r (addresses self)); [reflexivity|]. simpl.
  run_M. simpl. rewrite length_app. simpl.
  replace (length (addresses self) + 1 - 1)%nat with (length (addresses self)) by lia.
  reflexivity.
Qed.

Lemma getTransactionsByAddress_state (a : arg) (self : t) :
  snd (getTransactionsByAddress a self) = self.
Proof.
  unfold getTransactionsByAddress. rewrite bind_eq. unfold try_except.
  rewrite get_address_eq.
  destruct (resolve_arg a (addresses self)) as [p|e].
  - run_M. simpl. destruct (select _ _); [|reflexivity]. simpl.
    destruct (select _ _); reflexivity.
  - destruct (is_AddressNotFound e); [|reflexivity].
    destruct a; run_M; simpl; [reflexivity|].
    destruct (select _ _); [|reflexivity]. simpl.
    destruct (select _ _); reflexivity.
Qed.

Lemma add_amount_eq (i : nat) (delta : Z) (self : t) :
  add_amount i delta self =
  match addresses self !! i with
  | Some _ => (Ok tt, set_addresses (bump i delta (addresses self)) self)
  | None => (Raise IndexError, self)
  end.
Proof.
  unfold add_amount, bump. run_M.
  destruct (addresses self !! i); reflexivity.
Qed.

Lemma new_transaction_eq `{Ecdsa} (s r : string) (a : Z)
    (sig msg : option string) (self : t) :
  new_transaction s r a sig msg self =
  match resolve s (addresses self) with
  | None => (Ok None, self)
  | Some sp =>
      let self1 := with_recipient r self in
      let tx := Transaction.init sp (recipient_party r self) a sig msg in
      match fst (getTransactionsByAddress (arg_of_party sp) self1) with
      | Raise e => (Raise e, self1)
      | Ok txs =>
          match Transaction.is_valid (addresses self1) tx with
          | Raise e => (Raise e, self1)
          | Ok false => (Ok None, self1)
          | Ok true =>
              match Transaction.is_signature_valid (addresses self1) tx txs with
              | Raise e => (Raise e, self1)
              | Ok false => (Ok None, self1)
              | Ok true =>
                  match execute_transaction tx self1 with
                  | (Raise e, self2) => (Raise e, self2)
                  | (Ok tx', self2) =>
                      (Ok (Some match last (chain self2) with
                                | None => 0
                                | Some last_block => Block.index last_block + 1
                                end),
                       set_current_transactions
                         (current_transactions self2 ++ [tx']) self2)
                  end
              end
          end
      end
  end.
Proof.
  unfold new_transaction, try_except. rewrite get_address_eq. simpl.
  destruct (resolve s (addresses self)) as [sp|]; [|reflexivity]. simpl.
  rewrite bind_eq, getOrCreateAddress_eq.
  unfold with_recipient, recipient_party.
  set (self1 := match resolve r (addresses self) with
                | Some _ => self
                | None => set_addresses (addresses self ++ [Address.init r]) self
                end).
  set (rp := match resolve r (addresses self) with
             | Some p => p
             | None => Obj (length (addresses self))
             end).
  assert (Hr : (match resolve r (addresses self) with
       | Some p => (Ok p, self)
       | None => (Ok (Obj (length (addresses self))),
                  set_addresses (addresses self ++ [Address.init r]) self)
       end) = (Ok rp, self1)).
  { subst self1 rp. destruct (resolve r (addresses self)); reflexivity. }
  rewrite Hr. clear Hr. rewrite bind_eq.
  pose proof (getTransactionsByAddress_state (arg_of_party sp) self1) as Hst.
  destruct (getTransactionsByAddress (arg_of_party sp) self1) as [[txs|e] self1'].
  2:{ simpl in Hst. subst. reflexivity. }
  simpl in Hst. subst self1'. simpl fst.
  run_M.
  destruct (Transaction.is_valid (addresses self1) _) as [[|]|e]; try reflexivity.
  destruct (Transaction.is_signature_valid (addresses self1) _ txs) as [[|]|e];
    try reflexivity.
  simpl.
  destruct (execute_transaction _ self1) as [[tx'|e] self2]; [|reflexivity].
  destruct (last (chain self2)); reflexivity.
Qed.

Lemma execute_transaction_eq (tx : Transaction.t) (self : t) :
  execute_transaction tx self =
  let credit (st : t) :=
    match Transaction.recipient tx with
    | Zero => (Raise TypeError, st)
    | Obj j =>
        match addresses st !! j with
        | Some _ =>
            (Ok (Transaction.mk (Transaction.sender tx) (Transaction.recipient tx)
                   (Transaction.amount tx) (Transaction.message tx)
                   (Transaction.signature tx) true),
             set_addresses (bump j (Transaction.amount tx) (addresses st)) st)
        | None => (Raise IndexError, st)
        end
    end in
  match Transaction.sender tx with
  | Zero => credit self
  | Obj i =>
      match addresses self !! i with
      | Some _ =>
          credit (set_addresses (bump i (- Transaction.amount tx) (addresses self)) self)
      | None => (Raise IndexError, self)
      end
  end.
Proof.
  unfold execute_transaction. rewrite !bind_eq.
  destruct (Transaction.sender tx) as [|i].
  - run_M. destruct (Transaction.recipient tx) as [|j]; [reflexivity|].
    fold (add_amount j (Transaction.amount tx) self). rewrite add_amount_eq.
    destruct (addresses self !! j); reflexivity.
  - rewrite add_amount_eq. destruct (addresses self !! i); [|reflexivity].
    destruct (Transaction.recipient tx) as [|j]; [reflexivity|].
    rewrite bind_eq, add_amount_eq. simpl.
    destruct (bump i (- Transaction.amount tx) (addresses self) !! j); reflexivity.
Qed.

Lemma execute_transaction_frame (tx : Transaction.t) (self : t) :
  chain (snd (execute_transaction tx self)) = chain self
  /\ nodes (snd (execute_transaction tx self)) = nodes self
  /\ current_transactions (snd (execute_transaction tx self))
     = current_transactions self.
Proof.
  rewrite execute_transaction_eq. simpl.
  destruct (Transaction.sender tx), (Transaction.recipient tx); simpl;
    repeat (match goal with
            | |- context [match ?x with _ => _ end] => destruct x
            end; simpl); auto.
Qed.

Lemma with_recipient_frame (r : string) (self : t) :
  chain (with_recipient r self) = chain self
  /\ nodes (with_recipient r self) = nodes self
  /\ current_transactions (with_recipient r self) = current_transactions self.
Proof.
  unfold with_recipient. destruct (resolve r (addresses self)); simpl; auto.
Qed.

(** The chain and the peers are not touched by [new_transaction]. *)
Lemma new_transaction_frame `{Ecdsa} (s r : string) (a : Z)
    (sig msg : option string) (self : t) :
  chain (snd (new_transaction s r a sig msg self)) = chain self
  /\ nodes (snd (new_transaction s r a sig msg self)) = nodes self.
Proof.
  rewrite new_transaction_eq.
  destruct (with_recipient_frame r self) as (Hc & Hn & _).
  destruct (resolve s (addresses self)) as [sp|]; [|auto]. simpl.
  destruct (fst (getTransactionsByAddress _ _)) as [txs|e]; [|auto].
  destruct (Transaction.is_valid _ _) as [[|]|e]; auto.
  destruct (Transaction.is_signature_valid _ _ _) as [[|]|e]; auto.
  match goal with |- context [execute_transaction ?tx ?st] =>
    destruct (execute_transaction_frame tx st) as (Hc' & Hn' & _);
    destruct (execute_transaction tx st) as [[tx'|e] self2] end;
    simpl in *; split; congruence.
Qed.

(** What an admitted call returns. *)
Lemma new_transaction_returns `{Ecdsa} (s r : string) (a : Z)
    (sig msg : option string) (self : t) (idx : Z) :
  fst (new_transaction s r a sig msg self) = Ok (Some idx) ->
  idx = match last (chain self) with
        | None => 0
        | Some last_block => Block.index last_block + 1
        end.
Proof.
  rewrite new_transaction_eq.
  destruct (with_recipient_frame r self) as (Hc & _ & _).
  destruct (resolve s (addresses self)) as [sp|]; [|discriminate]. simpl.
  destruct (fst (getTransactionsByAddress _ _)) as [txs|e]; [|discriminate].
  destruct (Transaction.is_valid _ _) as [[|]|e]; try discriminate.
  destruct (Transaction.is_signature_valid _ _ _) as [[|]|e]; try discriminate.
  match goal with |- context [execute_transaction ?tx ?st] =>
    destruct (execute_transaction_frame tx st) as (Hc' & _ & _);
    destruct (execute_transaction tx st) as [[tx'|e] self2] end;
    [|discriminate].
  simpl in *. intros [= <-]. rewrite Hc', Hc. reflexivity.
Qed.

Lemma chain_indexed_last (c : list Block.t) :
  chain_indexed c ->
  match last c with
  | None => 0
  | Some last_block => Block.index last_block + 1
  end = next_index c.
Proof.
  intros Hidx. unfold next_index.
  destruct c as [|b c'] using rev_ind; [reflexivity|].
  rewrite last_snoc, length_app. simpl.
  rewrite (Hidx (length c') b).
  - lia.
  - rewrite lookup_app_r by lia. rewrite Nat.sub_diag. reflexivity.
Qed.

(** An admitted call appends its transaction, marked as executed, to the
    pending pool. *)
Lemma new_transaction_pending `{Ecdsa} (s r : string) (a : Z)
    (sig msg : option string) (self : t) (idx : Z) :
  fst (new_transaction s r a sig msg self) = Ok (Some idx) ->
  exists tx,
    current_transactions (snd (new_transaction s r a sig msg self))
    = (current_transactions self ++ [tx])%list
    /\ Transaction.amount tx = a /\ Transaction.executed tx = true.
Proof.
  rewrite new_transaction_eq.
  destruct (with_recipient_frame r self) as (_ & _ & Hp).
  destruct (resolve s (addresses self)) as [sp|]; [|discriminate]. simpl.
  destruct (fst (getTransactionsByAddress _ _)) as [txs|e]; [|discriminate].
  destruct (Transaction.is_valid _ _) as [[|]|e]; try discriminate.
  destruct (Transaction.is_signature_valid _ _ _) as [[|]|e]; try discriminate.
  match goal with |- context [execute_transaction ?tx ?st] =>
    destruct (execute_transaction_frame tx st) as (_ & _ & Hp');
    pose proof (execute_transaction_eq tx st) as Hex;
    destruct (execute_transaction tx st) as [[tx'|e] self2] end;
    [|discriminate].
  simpl in *. intros _. exists tx'. rewrite Hp', Hp. split; [reflexivity|].
  repeat match type of Hex with
         | context [match ?x with _ => _ end] => destruct x
         end; try discriminate; injection Hex as -> _; split; reflexivity.
Qed.

(** The block that [new_block] forges. *)
Lemma new_block_forged (now proof : Z) (previous_hash : option json)
    (self self' : t) (block : Block.t) :
  new_block now proof previous_hash self = (Ok block, self') ->
  Block.index block = next_index (chain self)
  /\ Block.transactions block = map TxObj (current_transactions self)
  /\ chain self' = (chain self ++ [block])%list
  /\ current_transactions self' = [].
Proof.
  unfold new_block, next_index. run_M. simpl.
  assert (Hidx : (if negb (length (chain self) =? 0)%nat
                  then Z.of_nat (length (chain self)) else 0)
                 = Z.of_nat (length (chain self))).
  { destruct (chain self); reflexivity. }
  rewrite Hidx.
  destruct previous_hash as [v|]; [destruct (truthy v)|];
    try (destruct (last (chain self)); [destruct (hash_block _)|]);
    simpl; intros [= <- <-]; simpl; auto.
Qed.

(** The chains that [new_block] builds carry their positions as indices. *)
Lemma new_block_keeps_indices (now proof : Z) (previous_hash : option json)
    (self self' : t) (block : Block.t) :
  chain_indexed (chain self) ->
  new_block now proof previous_hash self = (Ok block, self') ->
  chain_indexed (chain self').
Proof.
  intros Hindexed Hforge. apply new_block_forged in Hforge.
  destruct Hforge as (Hbi & _ & -> & _).
  intros i b Hb. apply lookup_app_Some in Hb. destruct Hb as [Hl | [Hge Hr]].
  - apply Hindexed, Hl.
  - destruct (i - length (chain self))%nat as [|k] eqn:Hk; [|discriminate].
    injection Hr as <-. rewrite Hbi. unfold next_index. f_equal. lia.
Qed.

(** What [new_transaction] returns for an admitted transaction is the
    index that [new_block] gives to the block forged next exactly when the
    last block of the chain, if there is one, carries its position as its
    index. *)
Lemma new_transaction_returns_next_index `{Ecdsa} (s r : string) (a : Z)
    (sig msg : option string) (self : t) (idx : Z) :
  fst (new_transaction s r a sig msg self) = Ok (Some idx) ->
  (idx = next_index (chain self) <->
   forall b, last (chain self) = Some b ->
             Block.index b + 1 = next_index (chain self)).
Proof.
  intros Hadmitted.
  pose proof (new_transaction_returns _ _ _ _ _ _ _ Hadmitted) as Hidx.
  destruct (last (chain self)) as [b|] eqn:Hlast.
  - rewrite Hidx. split.
    + intros Heq b' [= <-]. exact Heq.
    + intros Hall. apply Hall. reflexivity.
  - apply last_None in Hlast. rewrite Hidx, Hlast. split; [discriminate | reflexivity].
Qed.

(** ** The ledger *)


Lemma find_index_names (s : string) (l l' : list Address.t) :
  names l = names l' -> forall k, find_index s l k = find_index s l' k.
Proof.
  revert l'. induction l as [|x l IH]; intros [|x' l'] Hn k; try discriminate.
  - reflexivity.
  - simpl in *. injection Hn as Hx Hl. rewrite Hx.
    destruct (String.eqb s (Address.address x')); [reflexivity|]. apply IH, Hl.
Qed.

Lemma find_index_Some (s : string) (l : list Address.t) : forall k i,
  find_index s l k = Some i ->
  (k <= i)%nat
  /\ exists x, l !! (i - k)%nat = Some x /\ Address.address x = s
               /\ balance s l = Address.amount x.
Proof.
  induction l as [|x l IH]; intros k i; simpl; [discriminate|].
  destruct (String.eqb_spec s (Address.address x)) as [-> | Hne].
  - intros [= <-]. split; [lia|]. rewrite Nat.sub_diag. exists x. auto.
  - intros Hf. destruct (IH _ _ Hf) as (Hle & y & Hy & Hs & Hb).
    split; [lia|]. exists y.
    replace (i - k)%nat with (S (i - S k)) by lia. auto.
Qed.

Lemma find_index_None (s : string) (l : list Address.t) : forall k,
  find_index s l k = None -> balance s l = 0 /\ ~ In s (names l).
Proof.
  induction l as [|x l IH]; intros k; simpl; [auto|].
  destruct (String.eqb_spec s (Address.address x)) as [-> | Hne]; [discriminate|].
  intros Hf. destruct (IH _ Hf) as [Hb Hn]. split; [assumption|].
  intros [Heq | Hin]; [congruence | contradiction].
Qed.

Lemma find_index_app (s : string) (l : list Address.t) (x : Address.t) : forall k,
  find_index s (l ++ [x]) k =
  match find_index s l k with
  | Some i => Some i
  | None => if String.eqb s (Address.address x) then Some (k + length l)%nat else None
  end.
Proof.
  induction l as [|y l IH]; intros k; simpl.
  - rewrite Nat.add_0_r. reflexivity.
  - destruct (String.eqb s (Address.address y)); [reflexivity|].
    rewrite IH. replace (S k + length l)%nat with (k + S (length l))%nat by lia.
    reflexivity.
Qed.

Lemma names_bump (i : nat) (d : Z) (l : list Address.t) :
  names (bump i d l) = names l.
Proof.
  unfold bump. destruct (l !! i) as [x|] eqn:Hx; [|reflexivity].
  revert i Hx. induction l as [|y l IH]; intros [|i] Hx; try discriminate; simpl in *.
  - injection Hx as ->. reflexivity.
  - f_equal. apply IH, Hx.
Qed.

Lemma length_bump (i : nat) (d : Z) (l : list Address.t) :
  length (bump i d l) = length l.
Proof.
  rewrite <- (length_map Address.address (bump i d l)), names_bump.
  apply length_map.
Qed.

(** Adding to the wallet that [get_address] finds for [n] changes the
    balance of [n] and of no other name. *)
Lemma balance_bump (n a : string) (d : Z) (l : list Address.t) : forall k i,
  find_index n l k = Some i ->
  balance a (bump (i - k) d l) = balance a l + (if String.eqb a n then d else 0).
Proof.
  unfold bump. induction l as [|x l IH]; intros k i; simpl; [discriminate|].
  destruct (String.eqb_spec n (Address.address x)) as [-> | Hne].
  - intros [= <-]. rewrite Nat.sub_diag. simpl.
    destruct (String.eqb a (Address.address x)); lia.
  - intros Hf. destruct (find_index_Some _ _ _ _ Hf) as (Hle & _).
    replace (i - k)%nat with (S (i - S k)) by lia. simpl.
    specialize (IH _ _ Hf).
    destruct (l !! (i - S k)%nat) as [y|] eqn:Hy; simpl.
    + destruct (String.eqb_spec a (Address.address x)) as [-> | Hax].
      * destruct (String.eqb_spec (Address.address x) n); [congruence | lia].
      * exact IH.
    + destruct (String.eqb_spec a (Address.address x)) as [-> | Hax].
      * destruct (String.eqb_spec (Address.address x) n); [congruence | lia].
      * exact IH.
Qed.

Lemma balance_app_init (a r : string) (l : list Address.t) :
  balance a (l ++ [Address.init r]) = balance a l.
Proof.
  induction l as [|x l IH]; simpl.
  - destruct (String.eqb a r); reflexivity.
  - destruct (String.eqb a (Address.address x)); [reflexivity | exact IH].
Qed.

(** A wallet of the ledger holds the balance of its name when no two
    wallets share a name. *)
Lemma balance_of_member (x : Address.t) (l : list Address.t) :
  List.NoDup (names l) -> In x l -> balance (Address.address x) l = Address.amount x.
Proof.
  induction l as [|y l IH]; simpl; intros Hnd Hin; [contradiction|].
  inversion Hnd as [|? ? Hnotin Hnd']; subst.
  destruct Hin as [-> | Hin].
  - rewrite String.eqb_refl. reflexivity.
  - destruct (String.eqb_spec (Address.address x) (Address.address y)) as [Heq | _].
    + exfalso. apply Hnotin. rewrite <- Heq. apply in_map. exact Hin.
    + apply IH; assumption.
Qed.

(** The ledger in which [new_transaction] checks the transaction: the
    balances are those of the call, the sender and the recipient are
    found at the indices that the transaction holds. *)
Lemma with_recipient_ledger (s r : string) (sp : party) (self : t) :
  resolve s (addresses self) = Some sp ->
  let l := addresses self in
  let l1 := addresses (with_recipient r self) in
  (forall n, balance n l1 = balance n l)
  /\ (names l1 = names l
      \/ (r <> "0" /\ ~ In r (names l) /\ names l1 = (names l ++ [r])%list))
  /\ ((sp = Zero /\ s = "0")
      \/ exists i, sp = Obj i /\ s <> "0" /\ find_index s l1 0 = Some i)
  /\ ((recipient_party r self = Zero /\ r = "0")
      \/ exists j, recipient_party r self = Obj j /\ r <> "0"
                   /\ find_index r l1 0 = Some j).
Proof.
  intros Hs l l1. subst l l1.
  unfold with_recipient, recipient_party, resolve in *.
  assert (Hsender :
    forall x, (sp = Zero /\ s = "0")
      \/ exists i, sp = Obj i /\ s <> "0"
                   /\ find_index s (addresses self ++ [x]) 0 = Some i
                   /\ find_index s (addresses self) 0 = Some i).
  { intros x. destruct (String.eqb_spec s "0") as [-> | Hne].
    - left. injection Hs as <-. auto.
    - right. destruct (find_index s (addresses self) 0) as [i|] eqn:Hi;
        [|discriminate].
      injection Hs as <-. exists i. rewrite find_index_app, Hi. auto. }
  destruct (String.eqb_spec r "0") as [-> | Hr].
  - repeat split; auto.
    destruct (Hsender (Address.init "0")) as [? | (i & ? & ? & _ & ?)]; eauto.
  - destruct (find_index r (addresses self) 0) as [j|] eqn:Hj; simpl.
    + repeat split; auto.
      * destruct (Hsender (Address.init "0")) as [? | (i & ? & ? & _ & ?)]; eauto.
      * right. eauto.
    + destruct (find_index_None _ _ _ Hj) as [_ Hnotin].
      split; [intros n; apply balance_app_init|].
      split; [right; rewrite map_app; auto|].
      split.
      * destruct (Hsender (Address.init r)) as [? | (i & ? & ? & ? & _)]; eauto.
      * right. exists (length (addresses self)).
        rewrite find_index_app, Hj. simpl. rewrite String.eqb_refl. auto.
Qed.

Lemma is_valid_true (l : list Address.t) (tx : Transaction.t) :
  Transaction.is_valid l tx = Ok true ->
  Transaction.amount tx <> 0
  /\ forall i, Transaction.sender tx = Obj i ->
       exists x, l !! i = Some x /\ Transaction.amount tx <= Address.amount x.
Proof.
  unfold Transaction.is_valid, deref.
  destruct (Transaction.sender tx) as [|i]; simpl.
  - destruct (Z.eqb_spec (Transaction.amount tx) 0); [discriminate|].
    intros _. split; [assumption | discriminate].
  - destruct (l !! i) as [x|] eqn:Hx; simpl; [|discriminate].
    destruct (Z.ltb_spec (Address.amount x) (Transaction.amount tx)); simpl;
      [discriminate|].
    destruct (Z.eqb_spec (Transaction.amount tx) 0); [discriminate|].
    intros _. split; [assumption|]. intros j [= <-]. exists x. split; [assumption | lia].
Qed.

(** A transaction signed by a wallet names a wallet as its recipient. *)
Lemma is_signature_valid_recipient `{Ecdsa} {A B : Type}
    (l : list Address.t) (tx : Transaction.t) (txs : A * B) (i : nat) :
  Transaction.sender tx = Obj i ->
  Transaction.is_signature_valid l tx txs = Ok true ->
  exists j, Transaction.recipient tx = Obj j.
Proof.
  unfold Transaction.is_signature_valid. intros ->.
  destruct (Transaction.recipient tx) as [|j]; [|eauto].
  destruct (Transaction.signature tx) as [sg|]; simpl; [|discriminate].
  destruct (two_ints sg); simpl; [|discriminate].
  destruct (deref l i); simpl; [|discriminate].
  destruct (two_ints _); simpl; discriminate.
Qed.

Ltac ledger_simpl :=
  cbn [fst snd admitted andb addresses current_transactions chain nodes
       set_addresses set_current_transactions].

(** One call of [new_transaction], seen from the ledger. *)
Lemma new_transaction_ledger `{Ecdsa} (s r : string) (a : Z)
    (sig msg : option string) (self : t) :
  let res := fst (new_transaction s r a sig msg self) in
  let self' := snd (new_transaction s r a sig msg self) in
  (forall n, n <> "0" ->
     balance n (addresses self') =
     balance n (addresses self)
     + (if admitted res && String.eqb r n then a else 0)
     - (if admitted res && String.eqb s n then a else 0))
  /\ (names (addresses self') = names (addresses self)
      \/ (r <> "0" /\ ~ In r (names (addresses self))
          /\ names (addresses self') = (names (addresses self) ++ [r])%list))
  /\ (admitted res = true ->
      a <> 0 /\ r <> "0" /\ (s <> "0" -> a <= balance s (addresses self)))
  /\ (admitted res = false ->
      current_transactions self' = current_transactions self).
Proof.
  rewrite new_transaction_eq.
  destruct (resolve s (addresses self)) as [sp|] eqn:Hs.
  2:{ simpl. repeat split; auto; try discriminate. intros n _. lia. }
  destruct (with_recipient_ledger s r sp self Hs) as (Hbal & Hnames & Hsp & Hrp).
  destruct (with_recipient_frame r self) as (_ & _ & Hcur).
  set (self1 := with_recipient r self) in *.
  set (rp := recipient_party r self) in *.
  assert (Hrejected :
    forall res, admitted res = false ->
      (forall n, n <> "0" ->
         balance n (addresses self1) =
         balance n (addresses self)
         + (if admitted res && String.eqb r n then a else 0)
         - (if admitted res && String.eqb s n then a else 0))
      /\ (names (addresses self1) = names (addresses self)
          \/ (r <> "0" /\ ~ In r (names (addresses self))
              /\ names (addresses self1) = (names (addresses self) ++ [r])%list))
      /\ (admitted res = true ->
          a <> 0 /\ r <> "0" /\ (s <> "0" -> a <= balance s (addresses self)))
      /\ (admitted res = false ->
          current_transactions self1 = current_transactions self)).
  { intros res Hres. rewrite Hres. simpl. repeat split; auto; try discriminate.
    intros n _. rewrite Hbal. lia. }
  cbv zeta.
  destruct (fst (getTransactionsByAddress (arg_of_party sp) self1)) as [txs|e];
    [|apply Hrejected; reflexivity].
  destruct (Transaction.is_valid _ _) as [[|]|e] eqn:Hvalid;
    try (apply Hrejected; reflexivity).
  destruct (Transaction.is_signature_valid _ _ _) as [[|]|e] eqn:Hsigned;
    try (apply Hrejected; reflexivity).
  apply is_valid_true in Hvalid. simpl in Hvalid. destruct Hvalid as [Ha Hfunds].
  rewrite execute_transaction_eq.
  destruct Hsp as [[-> ->] | (i & -> & Hs0 & Hi)];
    destruct Hrp as [[Hrp ->] | (j & Hrp & Hr0 & Hj)]; rewrite Hrp in *;
    cbn [Transaction.init Transaction.sender Transaction.recipient
         Transaction.amount Transaction.message Transaction.signature] in *.
  - apply Hrejected; reflexivity.
  - destruct (find_index_Some _ _ _ _ Hj) as (_ & x & Hx & _ & _).
    rewrite Nat.sub_0_r in Hx. rewrite Hx. ledger_simpl.
    repeat split; auto; try discriminate.
    + intros n Hn. rewrite <- (Nat.sub_0_r j) at 1.
      rewrite (balance_bump r n a _ 0%nat j Hj), Hbal, (String.eqb_sym n r).
      destruct (String.eqb_spec "0" n); [congruence | lia].
    + rewrite names_bump. exact Hnames.
    + intros Hcontra. congruence.
  - eapply is_signature_valid_recipient in Hsigned; [|reflexivity].
    destruct Hsigned as (j & Hj). discriminate.
  - destruct (find_index_Some _ _ _ _ Hi) as (_ & x & Hx & _ & Hbx).
    rewrite Nat.sub_0_r in Hx. rewrite Hx.
    destruct (Hfunds i eq_refl) as (x' & Hx' & Hle).
    assert (x' = x) by congruence. subst x'.
    set (l2 := bump i (- a) (addresses self1)).
    assert (Hj2 : find_index r l2 0 = Some j).
    { rewrite (find_index_names r l2 (addresses self1)); [exact Hj|].
      apply names_bump. }
    destruct (find_index_Some _ _ _ _ Hj2) as (_ & y & Hy & _ & _).
    rewrite Nat.sub_0_r in Hy. ledger_simpl. fold l2. rewrite Hy. ledger_simpl.
    repeat split; auto; try discriminate.
    + intros n Hn. rewrite <- (Nat.sub_0_r j) at 1.
      rewrite (balance_bump r n a _ 0%nat j Hj2). subst l2.
      rewrite <- (Nat.sub_0_r i) at 1.
      rewrite (balance_bump s n (- a) _ 0%nat i Hi), Hbal.
      rewrite (String.eqb_sym n r), (String.eqb_sym n s).
      destruct (String.eqb r n), (String.eqb s n); lia.
    + subst l2. rewrite !names_bump. exact Hnames.
    + intros _. rewrite <- Hbal, Hbx. exact Hle.
Qed.

(** ** Sequences of calls *)

Lemma new_transaction_ledger_ok `{Ecdsa} (s r : string) (a : Z)
    (sig msg : option string) (self : t) :
  ledger_ok (addresses self) ->
  ledger_ok (addresses (snd (new_transaction s r a sig msg self))).
Proof.
  intros [Hnd H0].
  destruct (new_transaction_ledger s r a sig msg self) as (_ & Hnames & _).
  cbv zeta in Hnames. unfold ledger_ok.
  destruct Hnames as [-> | (Hr & Hnotin & ->)]; [auto|]. split.
  - apply List.NoDup_app; [assumption | repeat constructor; intros [] | ].
    intros x Hx [<- | []]. contradiction.
  - rewrite in_app_iff. intros [? | [? | []]]; [contradiction | congruence].
Qed.

(** The balance of every name is what it was, plus what the admitted
    calls brought, minus what they took. *)
Lemma run_accounting `{Ecdsa} (calls : list Call) : forall self n,
  n <> "0" ->
  balance n (addresses (run calls self)) =
  balance n (addresses self) + received n calls self - sent n calls self.
Proof.
  induction calls as [|c calls IH]; intros self n Hn; simpl.
  - lia.
  - rewrite (IH _ n Hn). unfold call at 1 4 7.
    destruct (new_transaction_ledger (call_sender c) (call_recipient c)
                (call_amount c) (call_signature c) (call_message c) self)
      as (Hbal & _).
    cbv zeta in Hbal. rewrite (Hbal n Hn). unfold call. lia.
Qed.

Lemma run_ledger_ok `{Ecdsa} (calls : list Call) : forall self,
  ledger_ok (addresses self) -> ledger_ok (addresses (run calls self)).
Proof.
  induction calls as [|c calls IH]; intros self Hok; simpl; [assumption|].
  apply IH. apply new_transaction_ledger_ok. exact Hok.
Qed.

(** From an empty ledger, every wallet holds what it received minus what
    it sent in the admitted calls. *)
Theorem balances_account_for_admitted_calls `{Ecdsa} (calls : list Call)
    (self : t) (x : Address.t) :
  addresses self = [] ->
  In x (addresses (run calls self)) ->
  Address.amount x =
  received (Address.address x) calls self - sent (Address.address x) calls self.
Proof.
  intros Hempty Hin.
  assert (Hok : ledger_ok (addresses (run calls self))).
  { apply run_ledger_ok. rewrite Hempty. split; [constructor | intros []]. }
  destruct Hok as [Hnd H0].
  rewrite <- (balance_of_member x _ Hnd Hin).
  rewrite run_accounting.
  - rewrite Hempty. simpl. lia.
  - intros Heq. apply H0. rewrite <- Heq. apply in_map. exact Hin.
Qed.

(** As long as no call carries a negative amount, no balance becomes
    negative. *)
Theorem balances_stay_nonnegative `{Ecdsa} (calls : list Call) : forall self,
  Forall (fun c => 0 <= call_amount c) calls ->
  (forall n, n <> "0" -> 0 <= balance n (addresses self)) ->
  forall n, n <> "0" -> 0 <= balance n (addresses (run calls self)).
Proof.
  induction calls as [|c calls IH]; intros self Hpos Hbal n Hn; simpl.
  - apply Hbal, Hn.
  - inversion Hpos as [|? ? Hc Hrest]; subst.
    apply IH; [assumption | | assumption].
    intros m Hm. unfold call.
    destruct (new_transaction_ledger (call_sender c) (call_recipient c)
                (call_amount c) (call_signature c) (call_message c) self)
      as (Hstep & _ & Hadm & _).
    cbv zeta in Hstep, Hadm. rewrite (Hstep m Hm).
    specialize (Hbal m Hm).
    destruct (admitted _); simpl.
    + destruct (Hadm eq_refl) as (_ & _ & Hfunds).
      destruct (String.eqb_spec (call_sender c) m) as [Heq | _];
        destruct (String.eqb (call_recipient c) m);
        try (rewrite Heq in Hfunds; specialize (Hfunds Hm)); lia.
    + lia.
Qed.

(** The scan of a chain that was forged here does not fail. *)
Lemma select_involves_forged (p : party) (l : list tx_entry) :
  Forall (fun e => exists t, e = TxObj t) l ->
  exists txs, select (involves p) l = Ok txs.
Proof.
  induction 1 as [|e l [t ->] _ [txs IH]]; [simpl; eauto|].
  cbn [select]. rewrite IH. simpl. eauto.
Qed.

Lemma select_involves_pending (p : party) (l : list Transaction.t) :
  exists txs, select (fun t => involves p (TxObj t)) l = Ok txs.
Proof.
  induction l as [|t l [txs IH]]; [simpl; eauto|].
  cbn [select]. rewrite IH. simpl. eauto.
Qed.

Lemma getTransactionsByAddress_forged (p : party) (self : t) :
  forged_here (chain self) ->
  exists txs, fst (getTransactionsByAddress (arg_of_party p) self) = Ok txs.
Proof.
  intros Hforged.
  unfold getTransactionsByAddress. rewrite bind_eq. unfold try_except.
  rewrite get_address_eq.
  assert (Hscan : forall q, exists txs,
    fst ((c ← read chain;
          transactions ← lift (select (involves q) (flat_map Block.transactions c));
          pending ← read current_transactions;
          future_transactions ← lift (select (fun t => involves q (TxObj t)) pending);
          mret (Some transactions, Some future_transactions)) self) = Ok txs).
  { intros q. run_M.
    destruct (select_involves_forged q _ Hforged) as [txs ->].
    destruct (select_involves_pending q (current_transactions self)) as [fut ->].
    simpl. eauto. }
  destruct p as [|i]; simpl.
  - apply Hscan.
  - run_M. apply (Hscan (Obj i)).
Qed.

(** A transaction of amount zero, and one that the sender cannot pay
    for, is not admitted: the pending pool and every balance stay as they
    were, and [None] is returned unless the scan of the chain fails on an
    element taken from a peer. *)
Lemma new_transaction_rejects `{Ecdsa} (s r : string) (a : Z)
    (sig msg : option string) (self : t) (sp : party) :
  resolve s (addresses self) = Some sp ->
  a = 0 \/ (s <> "0" /\ balance s (addresses self) < a) ->
  let res := fst (new_transaction s r a sig msg self) in
  let self' := snd (new_transaction s r a sig msg self) in
  self' = with_recipient r self
  /\ current_transactions self' = current_transactions self
  /\ (forall n, balance n (addresses self') = balance n (addresses self))
  /\ (res = Ok None
      \/ exists e,
           fst (getTransactionsByAddress (arg_of_party sp) (with_recipient r self))
           = Raise e /\ res = Raise e)
  /\ (forged_here (chain self) -> res = Ok None).
Proof.
  intros Hs Hbad. cbv zeta.
  destruct (with_recipient_ledger s r sp self Hs) as (Hbal & _ & Hsp & _).
  destruct (with_recipient_frame r self) as (Hchain & _ & Hcur).
  assert (Hinvalid :
    Transaction.is_valid (addresses (with_recipient r self))
      (Transaction.init sp (recipient_party r self) a sig msg) = Ok false).
  { unfold Transaction.is_valid, deref. simpl.
    destruct Hsp as [[-> ->] | (i & -> & Hs0 & Hi)]; simpl.
    - destruct Hbad as [-> | [Hcontra _]]; [reflexivity | congruence].
    - destruct (find_index_Some _ _ _ _ Hi) as (_ & x & Hx & _ & Hbx).
      rewrite Nat.sub_0_r in Hx. rewrite Hx. simpl.
      rewrite Hbal in Hbx.
      destruct Hbad as [-> | [_ Hlt]].
      + rewrite orb_true_r. reflexivity.
      + destruct (Z.ltb_spec (Address.amount x) a); [reflexivity | lia]. }
  rewrite new_transaction_eq, Hs. cbv zeta.
  pose proof (getTransactionsByAddress_forged sp (with_recipient r self)) as Hforged.
  rewrite Hchain in Hforged.
  destruct (fst (getTransactionsByAddress (arg_of_party sp) (with_recipient r self)))
    as [txs|e]; simpl.
  - rewrite Hinvalid. simpl. repeat split; auto.
  - repeat split; auto; [right; eauto|].
    intros Hf. destruct (Hforged Hf) as [txs Htxs]. discriminate.
Qed.

(** ** Where the program departs from its description *)

(** C1. A call with a negative amount is not rejected: the test of
    [is_valid] compares the amount with zero for equality only. On the
    node as [__init__] leaves it, the amount -5 sent by ['0'] to a new
    wallet is admitted: the call returns the index 1, the transaction
    joins the pending pool and the new wallet holds -5. *)
Theorem negative_amount_is_admitted `{Ecdsa} :
  fst (new_transaction "0" "A" (-5) None None started) = Ok (Some 1)
  /\ current_transactions started = []
  /\ current_transactions (snd (new_transaction "0" "A" (-5) None None started))
     = [Transaction.mk Zero (Obj 1) (-5) None None true]
  /\ addresses started = [Address.mk alice 1]
  /\ addresses (snd (new_transaction "0" "A" (-5) None None started))
     = [Address.mk alice 1; Address.mk "A" (-5)].
Proof. repeat split. Qed.

(** C2. From an empty ledger, after the call that mints the first coin
    and a call that sends -5 from ['0'] to a new wallet, both admitted,
    every wallet holds what it received minus what it sent, and the
    balance of the new wallet is negative. *)
Theorem balance_becomes_negative `{Ecdsa} :
  let calls := [coinbase alice 1; coinbase "A" (-5)] in
  addresses blank = []
  /\ addresses (run calls blank) = [Address.mk alice 1; Address.mk "A" (-5)]
  /\ received alice calls blank - sent alice calls blank = 1
  /\ received "A" calls blank - sent "A" calls blank = -5
  /\ fst (get_balance "A" (run calls blank)) = Ok (Some (-5)).
Proof. repeat split. Qed.

(** The text that is verified ends in the number 2, whatever the lists
    that [getTransactionsByAddress] returned hold. *)
Lemma is_signature_valid_message `{Ecdsa} {A B : Type}
    (l : list Address.t) (tx : Transaction.t) (txs : A * B)
    (i j : nat) (x y : Address.t) (sg : string) (sig key : Z * Z) :
  Transaction.sender tx = Obj i -> Transaction.recipient tx = Obj j ->
  l !! i = Some x -> l !! j = Some y ->
  Transaction.signature tx = Some sg ->
  two_ints sg = Ok sig -> two_ints (Address.address x) = Ok key ->
  Transaction.is_signature_valid l tx txs =
  ecdsa_verify sig
    (Transaction.msg_signed (Address.address x) (Address.address y)
       (Transaction.message tx) (Transaction.amount tx) 2)
    key.
Proof.
  intros Hs Hr Hx Hy Hsg Hsig Hkey.
  unfold Transaction.is_signature_valid, deref.
  rewrite Hs, Hr, Hsg, Hsig, Hx, Hy. simpl. rewrite Hkey. reflexivity.
Qed.

(** C3. The number that enters the signed text is not the number of the
    sender's earlier transactions. On the node as [__init__] leaves it the
    wallet [alice] has one earlier transaction, that of the genesis block,
    and none pending. A transfer whose signature is good for the text
    that ends in 1 is rejected, and one whose signature is good for the
    text that ends in 2 is admitted: 2 is the length of the pair that
    [getTransactionsByAddress] returns. *)
Theorem signed_text_ignores_transaction_count :
  fst (getTransactionsByAddress (Ref 0) (@started (accepts_only ""))) =
    Ok (Some [TxObj (Transaction.mk Zero (Obj 0) 1 None None true)], Some [])
  /\ fst (@new_transaction (accepts_only "1 2 B None 1 1")
            alice "B" 1 (Some "3 4") None (@started (accepts_only ""))) = Ok None
  /\ fst (@new_transaction (accepts_only "1 2 B None 1 2")
            alice "B" 1 (Some "3 4") None (@started (accepts_only "")))
     = Ok (Some 1).
Proof. repeat split. Qed.

(** Only the answer of the first neighbour matters. *)
Lemma resolve_conflicts_first_neighbour (net net' : string -> Response)
    (self : t) (node : string) (others : list string) :
  nodes self = node :: others ->
  net node = net' node ->
  resolve_conflicts net self = resolve_conflicts net' self.
Proof.
  intros Hnodes Hnet. unfold resolve_conflicts. rewrite !bind_eq.
  unfold read. rewrite Hnodes. rewrite !bind_eq, Hnet. reflexivity.
Qed.

(** C4. The loop of [resolve_conflicts] returns at the end of its first
    pass. When the neighbour met first serves a chain as long as the
    local one and the second a longer valid chain, the local chain is
    kept and the first neighbour alone is reported; with the neighbours
    met in the other order the longer chain is adopted. When every
    neighbour serves a longer chain that fails validation, the first
    neighbour alone is reported, in whatever order they are met. *)
Theorem resolve_conflicts_asks_one_peer :
  valid_chain [genesis; second] = Ok true
  /\ resolve_conflicts peers (node_with ["a:5000"; "b:5000"]) =
     (Ok (false, ["a:5000"]), node_with ["a:5000"; "b:5000"])
  /\ resolve_conflicts peers (node_with ["b:5000"; "a:5000"]) =
     (Ok (true, []),
      Blockchain.mk [] [] [genesis; second] ["b:5000"; "a:5000"])
  /\ valid_chain [genesis; unlinked] = Ok false
  /\ (forall first others,
        resolve_conflicts liars (node_with (first :: others)) =
        (Ok (false, [first]), node_with (first :: others))).
Proof.
  split; [vm_compute; reflexivity|].
  split; [vm_compute; reflexivity|].
  split; [vm_compute; reflexivity|].
  assert (Hbad : valid_chain [genesis; unlinked] = Ok false)
    by (vm_compute; reflexivity).
  split; [exact Hbad|].
  intros first others. unfold resolve_conflicts, node_with. run_M.
  cbn [nodes chain liars status_code json_length json_chain length].
  change (200 =? 200) with true. change (Z.of_nat 1 <? 2) with true.
  cbv iota. rewrite Hbad. reflexivity.
Qed.

(** C7. A call whose signature is missing or is not made of two integers
    does not return [None]: it raises. The sender is the wallet of the
    node, which can pay. *)
Theorem bad_signature_raises `{Ecdsa} :
  fst (new_transaction alice "B" 1 None None started) = Raise AttributeError
  /\ fst (new_transaction alice "B" 1 (Some "forged") None started)
     = Raise ValueError
  /\ fst (get_balance alice started) = Ok (Some 1).
Proof. repeat split. Qed.

(** C8. [new_transaction] answers with the successor of the index that
    the last block carries, where [new_block] numbers the blocks by the
    length of the chain, and [valid_chain] does not look at the indices.
    After the node has adopted a valid chain of two blocks whose last
    index is 7, an admitted transaction is answered with 8; the chain has
    2 blocks, and the block that is forged next and holds the transaction
    has the index 2. *)
Theorem new_transaction_names_wrong_block :
  resolve_conflicts rogue (node_with ["c:5000"]) = (Ok (true, []), misled)
  /\ chain misled = [genesis; misnumbered]
  /\ valid_chain (chain misled) = Ok true
  /\ fst (@new_transaction (accepts_only "") "0" "A" 1 None None misled)
     = Ok (Some 8)
  /\ Z.of_nat (length (chain misled)) = 2
  /\ fst (new_block 12 5 (Some (JStr "h"))
            (snd (@new_transaction (accepts_only "") "0" "A" 1 None None misled)))
     = Ok (Block.mk 2 12 [TxObj (Transaction.mk Zero (Obj 0) 1 None None true)]
             5 (JStr "h")).
Proof. vm_compute. repeat split. Qed.

(** ** The statements at work on the data of the examples *)



Lemma valid_chain_index_error_witness :
  valid_chain [] = Raise IndexError
  /\ valid_chain [genesis] <> Raise IndexError.
Proof.
  split.
  - apply (valid_chain_index_error []). reflexivity.
  - intros Hraise. apply (valid_chain_index_error [genesis]) in Hraise.
    discriminate.
Defined.

Lemma hash_key_order_independent_witness :
  hash genesis_items = hash genesis_items_shuffled.
Proof.
  apply (hash_key_order_independent genesis_items genesis_items_shuffled).
  - repeat constructor; simpl; intuition discriminate.
  - repeat constructor; simpl; intuition discriminate.
  - intros k. simpl.
    destruct (String.eqb_spec k "index") as [-> | _]; [reflexivity|].
    destruct (String.eqb_spec k "timestamp") as [-> | _]; [reflexivity|].
    destruct (String.eqb_spec k "transactions") as [-> | _]; [reflexivity|].
    destruct (String.eqb_spec k "proof") as [-> | _]; [reflexivity|].
    reflexivity.
Defined.

(** * Further properties of the code *)

(** ** The address ledger *)

(** X1. [getOrCreateAddress] followed by [get_address] is a round trip:
    the reference that was returned is found again, and asking a second
    time returns it again and changes nothing. *)
Theorem getOrCreateAddress_round_trip (address : string) (self : t) :
  exists p,
    fst (getOrCreateAddress address self) = Ok p
    /\ get_address (Str address) (snd (getOrCreateAddress address self))
       = (Ok p, snd (getOrCreateAddress address self))
    /\ getOrCreateAddress address (snd (getOrCreateAddress address self))
       = (Ok p, snd (getOrCreateAddress address self)).
Proof.
  pose proof (getOrCreateAddress_eq address self) as Hfirst.
  destruct (resolve address (addresses self)) as [p|] eqn:Hr.
  - exists p. rewrite Hfirst. cbn [fst snd].
    rewrite get_address_eq, getOrCreateAddress_eq. unfold resolve_arg.
    rewrite Hr. auto.
  - exists (Obj (length (addresses self))). rewrite Hfirst. cbn [fst snd].
    rewrite get_address_eq, getOrCreateAddress_eq. unfold resolve_arg.
    assert (Hfound : resolve address
                       (addresses (set_addresses
                                     (addresses self ++ [Address.init address]) self))
                     = Some (Obj (length (addresses self)))).
    { unfold resolve in *. cbn [addresses set_addresses].
      destruct (String.eqb address "0"); [discriminate|].
      rewrite find_index_app.
      destruct (find_index address (addresses self) 0); [discriminate|].
      cbn [Address.init Address.address]. rewrite String.eqb_refl. reflexivity. }
    rewrite Hfound. auto.
Qed.

(** X2. [getOrCreateAddress] never raises and touches nothing but the
    ledger, where it keeps every wallet in place and adds at most one, of
    amount 0, for a name that no wallet had; the names stay distinct and
    ['0'] never becomes the name of a wallet. *)
Theorem getOrCreateAddress_ledger (address : string) (self : t) :
  let self' := snd (getOrCreateAddress address self) in
  (exists p, fst (getOrCreateAddress address self) = Ok p)
  /\ current_transactions self' = current_transactions self
  /\ chain self' = chain self /\ nodes self' = nodes self
  /\ (addresses self' = addresses self
      \/ (addresses self' = (addresses self ++ [Address.mk address 0])%list
          /\ address <> "0" /\ ~ In address (names (addresses self))))
  /\ (forall n, balance n (addresses self') = balance n (addresses self))
  /\ (ledger_ok (addresses self) -> ledger_ok (addresses self')).
Proof.
  cbv zeta. rewrite getOrCreateAddress_eq.
  destruct (resolve address (addresses self)) as [p|] eqn:Hr; cbn [fst snd].
  - split; [eauto|]. do 3 (split; [reflexivity|]).
    split; [left; reflexivity|]. split; [reflexivity | auto].
  - assert (Hnew : address <> "0" /\ ~ In address (names (addresses self))).
    { unfold resolve in Hr. destruct (String.eqb_spec address "0"); [discriminate|].
      destruct (find_index address (addresses self) 0) eqn:Hf; [discriminate|].
      split; [assumption|]. apply (find_index_None _ _ _ Hf). }
    destruct Hnew as [Hne Hnotin].
    split; [eauto|]. split; [reflexivity|]. split; [reflexivity|].
    split; [reflexivity|]. split.
    { right. cbn [addresses set_addresses]. auto. }
    split.
    { intros n. cbn [addresses set_addresses]. apply balance_app_init. }
    intros [Hnd H0]. cbn [addresses set_addresses]. unfold ledger_ok.
    rewrite map_app. cbn [map Address.init Address.address]. split.
    + apply List.NoDup_app; [assumption | repeat constructor; intros [] |].
      intros x Hx [<- | []]. contradiction.
    + rewrite in_app_iff. intros [? | [? | []]]; [contradiction | congruence].
Qed.

Lemma find_index_first (s : string) (l : list Address.t) : forall k i,
  find_index s l k = Some i <->
  (k <= i)%nat
  /\ (exists x, l !! (i - k)%nat = Some x /\ Address.address x = s)
  /\ (forall (j : nat) y, (j < i - k)%nat -> l !! j = Some y ->
                          Address.address y <> s).
Proof.
  induction l as [|x l IH]; intros k i; simpl.
  - split; [discriminate | intros (_ & (y & Hy & _) & _); discriminate].
  - destruct (String.eqb_spec s (Address.address x)) as [-> | Hne].
    + split.
      * intros [= <-]. split; [lia|]. rewrite Nat.sub_diag. split; [eauto|].
        intros j y Hj. lia.
      * intros (Hle & _ & Hmin).
        destruct (i - k)%nat as [|d] eqn:Hd; [f_equal; lia|].
        exfalso. apply (Hmin 0%nat x); [lia | reflexivity | reflexivity].
    + rewrite IH. split.
      * intros (Hle & (y & Hy & Hs) & Hmin). split; [lia|].
        replace (i - k)%nat with (S (i - S k)) by lia. split; [eauto|].
        intros [|j] z Hj Hz; [injection Hz as <-; congruence|].
        apply (Hmin j z); [lia | exact Hz].
      * intros (Hle & (y & Hy & Hs) & Hmin).
        destruct (i - k)%nat as [|d] eqn:Hd.
        { injection Hy as <-. congruence. }
        assert (d = (i - S k)%nat) by lia. subst d.
        split; [lia|]. split; [eauto|].
        intros j z Hj Hz. apply (Hmin (S j) z); [lia | exact Hz].
Qed.

(** X3. For a string other than ['0'], [get_address] returns the first
    wallet of that name, raises [AddressNotFound] exactly when there is
    none, and never changes the state. *)
Theorem get_address_first_match (s : string) (self : t) (Hs : s <> "0") :
  snd (get_address (Str s) self) = self
  /\ (forall i,
        fst (get_address (Str s) self) = Ok (Obj i) <->
        (exists x, addresses self !! i = Some x /\ Address.address x = s)
        /\ (forall (j : nat) y, (j < i)%nat -> addresses self !! j = Some y ->
                                Address.address y <> s))
  /\ (fst (get_address (Str s) self) = Raise AddressNotFound <->
      ~ In s (names (addresses self)))
  /\ fst (get_address (Str s) self) <> Ok Zero.
Proof.
  rewrite get_address_eq. cbn [fst snd]. unfold resolve_arg, resolve.
  destruct (String.eqb_spec s "0") as [|_]; [contradiction|].
  split; [reflexivity|].
  destruct (find_index s (addresses self) 0) as [i0|] eqn:Hf; cbn [fmap option_fmap option_map].
  - pose proof (proj1 (find_index_first _ _ _ _) Hf) as (_ & Hx & Hmin).
    rewrite Nat.sub_0_r in Hx, Hmin. split; [|split].
    + intros i. split.
      * intros [= <-]. split; assumption.
      * intros [Hxi Hmini]. do 2 f_equal. symmetry.
        assert (Hi : find_index s (addresses self) 0 = Some i).
        { apply find_index_first. rewrite Nat.sub_0_r. split; [lia | split; assumption]. }
        congruence.
    + split; [discriminate|]. intros Hnotin. exfalso. apply Hnotin.
      destruct Hx as (x & Hx & <-). apply in_map.
      apply list_elem_of_In, list_elem_of_lookup. eauto.
    + discriminate.
  - split; [|split].
    + intros i. split; [discriminate|]. intros [Hxi Hmini].
      assert (Hi : find_index s (addresses self) 0 = Some i).
      { apply find_index_first. rewrite Nat.sub_0_r. split; [lia | split; assumption]. }
      congruence.
    + split; [|reflexivity]. intros _. apply (find_index_None _ _ _ Hf).
    + discriminate.
Qed.

Lemma get_address_first_match_witness :
  fst (get_address (Str "B")
         (Blockchain.mk [] [Address.mk "A" 1; Address.mk "B" 2; Address.mk "B" 3] [] []))
  = Ok (Obj 1)
  /\ fst (get_address (Str "C") blank) = Raise AddressNotFound.
Proof.
  split.
  - apply (get_address_first_match "B"
             (Blockchain.mk [] [Address.mk "A" 1; Address.mk "B" 2; Address.mk "B" 3] [] [])
             ltac:(discriminate)).
    split.
    + exists (Address.mk "B" 2). split; reflexivity.
    + intros [|[|j]] y Hj Hy; [injection Hy as <-; discriminate | lia | lia].
  - apply (get_address_first_match "C" blank ltac:(discriminate)).
    intros [].
Defined.

(** ** Execution of a transaction *)

Lemma supply_bump (i : nat) (d : Z) (l : list Address.t) (x : Address.t) :
  l !! i = Some x -> supply (bump i d l) = supply l + d.
Proof.
  unfold bump. intros Hx. rewrite Hx. revert i Hx.
  induction l as [|y l IH]; intros [|i] Hx; try discriminate; simpl in *.
  - injection Hx as ->. lia.
  - rewrite (IH i Hx). lia.
Qed.

Lemma supply_app (l1 l2 : list Address.t) : supply (l1 ++ l2) = supply l1 + supply l2.
Proof. induction l1 as [|x l1 IH]; simpl; [reflexivity | rewrite IH; lia]. Qed.

Lemma lookup_bump (i j : nat) (d : Z) (l : list Address.t) :
  bump i d l !! j =
  (fun x => if Nat.eqb i j
            then Address.mk (Address.address x) (Address.amount x + d)
            else x) <$> l !! j.
Proof.
  unfold bump. destruct (l !! i) as [x|] eqn:Hx.
  - destruct (Nat.eqb_spec i j) as [<- | Hne].
    + rewrite list_lookup_insert_eq by (eapply lookup_lt_Some; eassumption).
      rewrite Hx. reflexivity.
    + rewrite list_lookup_insert_ne by assumption.
      destruct (l !! j); reflexivity.
  - destruct (Nat.eqb_spec i j) as [<- | Hne].
    + rewrite Hx. reflexivity.
    + destruct (l !! j); reflexivity.
Qed.

Lemma bump_back (i : nat) (d : Z) (l : list Address.t) :
  bump i d (bump i (- d) l) = l.
Proof.
  apply list_eq. intros j. rewrite !lookup_bump.
  destruct (l !! j) as [[n a]|]; [|reflexivity]. simpl.
  destruct (Nat.eqb i j); simpl; [|reflexivity].
  do 2 f_equal. lia.
Qed.

(** What a transaction that was carried out leaves behind. *)
Lemma execute_transaction_effect (tx tx' : Transaction.t) (self self' : t) :
  execute_transaction tx self = (Ok tx', self') ->
  tx' = Transaction.mk (Transaction.sender tx) (Transaction.recipient tx)
          (Transaction.amount tx) (Transaction.message tx)
          (Transaction.signature tx) true
  /\ names (addresses self') = names (addresses self)
  /\ supply (addresses self')
     = supply (addresses self)
       + (if party_eqb (Transaction.sender tx) Zero then Transaction.amount tx else 0)
  /\ current_transactions self' = current_transactions self
  /\ chain self' = chain self /\ nodes self' = nodes self.
Proof.
  intros Hdone. rewrite execute_transaction_eq in Hdone. cbv zeta in Hdone.
  destruct (Transaction.sender tx) as [|i] eqn:Hs;
    destruct (Transaction.recipient tx) as [|j] eqn:Hr.
  - discriminate.
  - destruct (addresses self !! j) as [y|] eqn:Hy; [|discriminate].
    injection Hdone as <- <-. cbn [addresses set_addresses current_transactions chain nodes party_eqb].
    rewrite names_bump, (supply_bump _ _ _ _ Hy). auto 6.
  - destruct (addresses self !! i); discriminate.
  - destruct (addresses self !! i) as [x|] eqn:Hx; [|discriminate].
    cbn [addresses set_addresses] in Hdone.
    destruct (bump i (- Transaction.amount tx) (addresses self) !! j) as [y|] eqn:Hy;
      [|discriminate].
    injection Hdone as <- <-. cbn [addresses set_addresses current_transactions chain nodes party_eqb].
    rewrite !names_bump, (supply_bump _ _ _ _ Hy), (supply_bump _ _ _ _ Hx).
    split; [reflexivity|]. split; [reflexivity|]. split; [lia|]. auto.
Qed.

(** X4. A transaction that [execute_transaction] carries out is marked as
    executed and changes the amounts only: the wallets keep their places
    and names, the sum of all amounts grows by the amount when the sender
    is ['0'] and stays the same otherwise, and a wallet that pays itself
    holds what it held. *)
Theorem execute_transaction_conserves (tx tx' : Transaction.t) (self self' : t)
    (Hdone : execute_transaction tx self = (Ok tx', self')) :
  Transaction.executed tx' = true
  /\ names (addresses self') = names (addresses self)
  /\ length (addresses self') = length (addresses self)
  /\ supply (addresses self')
     = supply (addresses self)
       + (if party_eqb (Transaction.sender tx) Zero then Transaction.amount tx else 0)
  /\ (Transaction.sender tx = Transaction.recipient tx ->
      addresses self' = addresses self).
Proof.
  destruct (execute_transaction_effect _ _ _ _ Hdone) as (-> & Hnames & Hsupply & _).
  split; [reflexivity|]. split; [exact Hnames|].
  split; [rewrite <- (length_map Address.address), Hnames; apply length_map|].
  split; [exact Hsupply|].
  intros Hsame. rewrite execute_transaction_eq in Hdone. cbv zeta in Hdone.
  rewrite <- Hsame in Hdone.
  destruct (Transaction.sender tx) as [|i]; [discriminate|].
  destruct (addresses self !! i); [|discriminate].
  cbn [addresses set_addresses] in Hdone.
  destruct (bump i (- Transaction.amount tx) (addresses self) !! i); [|discriminate].
  injection Hdone as <-. cbn [addresses set_addresses]. apply bump_back.
Qed.

Lemma execute_transaction_conserves_witness :
  supply [Address.mk "A" 3; Address.mk "B" 4]
  = supply [Address.mk "A" 5; Address.mk "B" 2] + 0.
Proof.
  refine (proj1 (proj2 (proj2 (proj2 (execute_transaction_conserves
           (Transaction.mk (Obj 0) (Obj 1) 2 None None false)
           (Transaction.mk (Obj 0) (Obj 1) 2 None None true)
           (Blockchain.mk [] [Address.mk "A" 5; Address.mk "B" 2] [] [])
           (Blockchain.mk [] [Address.mk "A" 3; Address.mk "B" 4] [] []) _))))).
  reflexivity.
Defined.

(** X5. A transaction whose recipient is ['0'] is not carried out:
    [execute_transaction] raises [TypeError]. When its sender is a wallet
    the error comes after the debit: the sender has paid, nobody was
    paid, and the sum of all amounts has shrunk by the amount. *)
Theorem execute_transaction_recipient_zero (tx : Transaction.t) (self : t)
    (Hr : Transaction.recipient tx = Zero) :
  (forall tx', fst (execute_transaction tx self) <> Ok tx')
  /\ (Transaction.sender tx = Zero ->
      execute_transaction tx self = (Raise TypeError, self))
  /\ (forall i x,
        Transaction.sender tx = Obj i -> addresses self !! i = Some x ->
        fst (execute_transaction tx self) = Raise TypeError
        /\ addresses (snd (execute_transaction tx self)) !! i
           = Some (Address.mk (Address.address x)
                     (Address.amount x - Transaction.amount tx))
        /\ supply (addresses (snd (execute_transaction tx self)))
           = supply (addresses self) - Transaction.amount tx).
Proof.
  rewrite execute_transaction_eq. cbv zeta. rewrite Hr.
  destruct (Transaction.sender tx) as [|i] eqn:Hs.
  - split; [discriminate|]. split; [reflexivity | discriminate].
  - split; [intros tx'; destruct (addresses self !! i); discriminate|].
    split; [discriminate|]. intros i' x [= <-] Hx. rewrite Hx.
    cbn [fst snd addresses set_addresses].
    split; [reflexivity|]. split.
    + rewrite lookup_bump, Hx, Nat.eqb_refl. reflexivity.
    + rewrite (supply_bump _ _ _ _ Hx). lia.
Qed.

Lemma execute_transaction_recipient_zero_witness :
  execute_transaction (Transaction.mk Zero Zero 1 None None false) blank
  = (Raise TypeError, blank)
  /\ addresses (snd (execute_transaction
                       (Transaction.mk (Obj 0) Zero 2 None None false)
                       (Blockchain.mk [] [Address.mk "A" 5] [] []))) !! 0%nat
     = Some (Address.mk "A" 3).
Proof.
  split.
  - destruct (execute_transaction_recipient_zero
                (Transaction.mk Zero Zero 1 None None false) blank eq_refl)
      as (_ & Hzero & _).
    apply Hzero. reflexivity.
  - destruct (execute_transaction_recipient_zero
                (Transaction.mk (Obj 0) Zero 2 None None false)
                (Blockchain.mk [] [Address.mk "A" 5] [] []) eq_refl)
      as (_ & _ & Hwallet).
    destruct (Hwallet 0%nat (Address.mk "A" 5) eq_refl eq_refl) as (_ & Hpaid & _).
    exact Hpaid.
Defined.

(** ** Admission, seen from outside *)

(** What a call of [new_transaction] leaves behind: when it is not
    admitted, the state of the call or that state with an empty wallet
    for the recipient; when it is admitted, the state in which the
    transaction was carried out, with the transaction at the end of the
    pool. *)
Lemma new_transaction_outcome `{Ecdsa} (s r : string) (a : Z)
    (sig msg : option string) (self : t) :
  let res := fst (new_transaction s r a sig msg self) in
  let self' := snd (new_transaction s r a sig msg self) in
  (admitted res = false ->
   (resolve s (addresses self) = None /\ res = Ok None /\ self' = self)
   \/ (resolve s (addresses self) <> None /\ self' = with_recipient r self))
  /\ (admitted res = true ->
      exists sp j tx' self2,
        resolve s (addresses self) = Some sp
        /\ recipient_party r self = Obj j /\ r <> "0"
        /\ (sp = Zero <-> s = "0")
        /\ a <> 0
        /\ execute_transaction (Transaction.init sp (Obj j) a sig msg)
             (with_recipient r self) = (Ok tx', self2)
        /\ self' = set_current_transactions
                     (current_transactions self ++ [tx']) self2).
Proof.
  cbv zeta. rewrite new_transaction_eq.
  destruct (resolve s (addresses self)) as [sp|] eqn:Hs.
  2:{ cbn [fst snd admitted]. split; [auto | discriminate]. }
  destruct (with_recipient_ledger s r sp self Hs) as (_ & _ & Hsp & Hrp).
  destruct (with_recipient_frame r self) as (_ & _ & Hcur).
  cbv zeta.
  assert (Hrejected : forall res : result (option Z), admitted res = false ->
    (admitted (fst (res, with_recipient r self)) = false ->
     (Some sp = None /\ fst (res, with_recipient r self) = Ok None
      /\ snd (res, with_recipient r self) = self)
     \/ (Some sp <> None
         /\ snd (res, with_recipient r self) = with_recipient r self))
    /\ (admitted (fst (res, with_recipient r self)) = true ->
        exists sp0 j tx' self2,
          Some sp = Some sp0
          /\ recipient_party r self = Obj j /\ r <> "0"
          /\ (sp0 = Zero <-> s = "0")
          /\ a <> 0
          /\ execute_transaction (Transaction.init sp0 (Obj j) a sig msg)
               (with_recipient r self) = (Ok tx', self2)
          /\ snd (res, with_recipient r self)
             = set_current_transactions (current_transactions self ++ [tx']) self2)).
  { intros res Hres. cbn [fst snd]. rewrite Hres. split; [|discriminate].
    intros _. right. split; [discriminate | reflexivity]. }
  destruct (fst (getTransactionsByAddress (arg_of_party sp) (with_recipient r self)))
    as [txs|e]; [|apply Hrejected; reflexivity].
  destruct (Transaction.is_valid _ _) as [[|]|e] eqn:Hvalid;
    try (apply Hrejected; reflexivity).
  destruct (Transaction.is_signature_valid _ _ _) as [[|]|e] eqn:Hsigned;
    try (apply Hrejected; reflexivity).
  apply is_valid_true in Hvalid. destruct Hvalid as [Ha _].
  cbn [Transaction.init Transaction.amount] in Ha.
  assert (Hzero : sp = Zero <-> s = "0").
  { destruct Hsp as [[-> ->] | (i & -> & Hs0 & _)]; split; auto; try discriminate.
    intros; contradiction. }
  destruct Hrp as [[Hrp ->] | (j & Hrp & Hr0 & Hj)].
  - (* the recipient is '0': nothing is carried out *)
    destruct Hsp as [[-> _] | (i & -> & _ & _)].
    + assert (Hex : execute_transaction
                      (Transaction.init Zero (recipient_party "0" self) a sig msg)
                      (with_recipient "0" self)
                    = (Raise TypeError, with_recipient "0" self)).
      { rewrite Hrp, execute_transaction_eq. reflexivity. }
      rewrite Hex. apply Hrejected. reflexivity.
    + rewrite Hrp in Hsigned.
      eapply is_signature_valid_recipient in Hsigned; [|reflexivity].
      destruct Hsigned as (j & Hj). discriminate.
  - destruct (execute_transaction
                (Transaction.init sp (recipient_party r self) a sig msg)
                (with_recipient r self)) as [[tx'|e] self2] eqn:Hex.
    + destruct (execute_transaction_frame
                  (Transaction.init sp (recipient_party r self) a sig msg)
                  (with_recipient r self)) as (_ & _ & Hcur2).
      rewrite Hex in Hcur2. cbn [snd] in Hcur2.
      cbn [fst snd admitted]. split; [discriminate|]. intros _.
      exists sp, j, tx', self2. rewrite Hcur2, Hcur. rewrite Hrp in Hex.
      repeat split; auto; apply Hzero.
    + (* the indices are those of wallets: no error *)
      exfalso. rewrite Hrp, execute_transaction_eq in Hex. cbv zeta in Hex.
      cbn [Transaction.init Transaction.sender Transaction.recipient
           Transaction.amount] in Hex.
      destruct (find_index_Some _ _ _ _ Hj) as (_ & y & Hy & _ & _).
      rewrite Nat.sub_0_r in Hy.
      destruct Hsp as [[-> _] | (i & -> & _ & Hi)].
      * rewrite Hy in Hex. discriminate.
      * destruct (find_index_Some _ _ _ _ Hi) as (_ & x & Hx & _ & _).
        rewrite Nat.sub_0_r in Hx. rewrite Hx in Hex.
        cbn [addresses set_addresses] in Hex.
        rewrite lookup_bump, Hy in Hex. discriminate.
Qed.

Lemma supply_with_recipient (r : string) (self : t) :
  supply (addresses (with_recipient r self)) = supply (addresses self).
Proof.
  unfold with_recipient. destruct (resolve r (addresses self)); [reflexivity|].
  cbn [addresses set_addresses]. rewrite supply_app. simpl. lia.
Qed.

(** One call of [new_transaction], seen from the sum of all amounts. *)
Lemma new_transaction_supply `{Ecdsa} (s r : string) (a : Z)
    (sig msg : option string) (self : t) :
  supply (addresses (snd (new_transaction s r a sig msg self)))
  = supply (addresses self)
    + (if admitted (fst (new_transaction s r a sig msg self)) && String.eqb s "0"
       then a else 0).
Proof.
  destruct (new_transaction_outcome s r a sig msg self) as [Hno Hyes].
  cbv zeta in Hno, Hyes.
  destruct (admitted (fst (new_transaction s r a sig msg self))) eqn:Hadm.
  - destruct (Hyes eq_refl) as (sp & j & tx' & self2 & _ & _ & _ & Hzero & _ & Hex & ->).
    cbn [addresses set_current_transactions andb].
    destruct (execute_transaction_effect _ _ _ _ Hex) as (_ & _ & Hsupply & _).
    rewrite Hsupply, supply_with_recipient.
    cbn [Transaction.init Transaction.sender Transaction.amount].
    destruct (String.eqb_spec s "0") as [Hs | Hs].
    + apply Hzero in Hs. subst sp. reflexivity.
    + destruct sp; [exfalso; apply Hs, Hzero; reflexivity | reflexivity].
  - cbn [andb].
    destruct (Hno eq_refl) as [(_ & _ & ->) | (_ & ->)];
      [|rewrite supply_with_recipient]; lia.
Qed.

(** X6. Money is made by ['0'] only: after any sequence of calls of
    [new_transaction] the sum of all amounts has grown by what the admitted
    calls sent from ['0'], and by nothing else; transfers between wallets
    leave the sum as it is. *)
Theorem supply_grows_by_minting `{Ecdsa} (calls : list Call) (self : t) :
  supply (addresses (run calls self))
  = supply (addresses self) + sent "0" calls self.
Proof.
  revert self. induction calls as [|c calls IH]; intros self; cbn [run sent].
  - lia.
  - rewrite IH. unfold call at 1. rewrite new_transaction_supply.
    unfold call. lia.
Qed.

(** A call whose sender is ['0'] is admitted without any look at its
    signature. *)
Lemma sentinel_sender_is_admitted `{Ecdsa} (r : string) (a : Z)
    (sig msg : option string) (self : t) :
  r <> "0" -> a <> 0 -> forged_here (chain self) ->
  exists idx, fst (new_transaction "0" r a sig msg self) = Ok (Some idx).
Proof.
  intros Hr Ha Hchain.
  rewrite new_transaction_eq. unfold resolve at 1. cbn [String.eqb Ascii.eqb Bool.eqb]. cbv zeta.
    destruct (with_recipient_frame r self) as (Hc & _ & _).
    destruct (getTransactionsByAddress_forged Zero (with_recipient r self))
      as [txs Htxs]; [rewrite Hc; exact Hchain|].
    rewrite Htxs.
    assert (Hvalid : Transaction.is_valid (addresses (with_recipient r self))
                       (Transaction.init Zero (recipient_party r self) a sig msg)
                     = Ok true).
    { unfold Transaction.is_valid. cbn.
      destruct (Z.eqb_spec a 0); [contradiction | reflexivity]. }
    rewrite Hvalid. cbn [Transaction.is_signature_valid Transaction.init Transaction.sender].
    destruct (with_recipient_ledger "0" r Zero self eq_refl) as (_ & _ & _ & Hrp).
    destruct Hrp as [[_ ?] | (j & Hrp & _ & Hj)]; [contradiction|].
    rewrite Hrp, execute_transaction_eq. cbv zeta.
    cbn [Transaction.init Transaction.sender Transaction.recipient].
    destruct (find_index_Some _ _ _ _ Hj) as (_ & y & Hy & _ & _).
    rewrite Nat.sub_0_r in Hy. rewrite Hy. cbn [fst]. eauto.
Qed.

(** X7. Anybody mints: a call whose sender is ['0'] is admitted whatever
    its signature, as long as the amount is not zero and the recipient is
    not ['0'] (on a chain that holds no block of a peer). The recipient
    gains the amount, no other balance moves, and the sum of all amounts
    grows by it. *)
Theorem sentinel_sender_needs_no_signature `{Ecdsa} (r : string) (a : Z)
    (sig msg : option string) (self : t)
    (Hr : r <> "0") (Ha : a <> 0) (Hchain : forged_here (chain self)) :
  let self' := snd (new_transaction "0" r a sig msg self) in
  (exists idx, fst (new_transaction "0" r a sig msg self) = Ok (Some idx))
  /\ (forall n, n <> "0" ->
        balance n (addresses self')
        = balance n (addresses self) + (if String.eqb r n then a else 0))
  /\ supply (addresses self') = supply (addresses self) + a
  /\ length (current_transactions self') = S (length (current_transactions self)).
Proof.
  cbv zeta.
  assert (Hadm : exists idx, fst (new_transaction "0" r a sig msg self) = Ok (Some idx))
    by (apply sentinel_sender_is_admitted; assumption).
  split; [exact Hadm|]. destruct Hadm as [idx Hidx].
  destruct (new_transaction_ledger "0" r a sig msg self) as (Hbal & _).
  cbv zeta in Hbal. rewrite Hidx in Hbal. cbn [admitted andb] in Hbal.
  split.
  { intros n Hn. rewrite (Hbal n Hn).
    destruct (String.eqb_spec "0" n); [congruence | lia]. }
  split.
  { rewrite new_transaction_supply, Hidx. reflexivity. }
  destruct (new_transaction_pending _ _ _ _ _ _ _ Hidx) as (tx & -> & _).
  rewrite length_app. simpl. lia.
Qed.

Lemma sentinel_sender_needs_no_signature_witness :
  exists idx,
    fst (@new_transaction (accepts_only "") "0" "B" 1000 (Some "no signature") None
           (@started (accepts_only ""))) = Ok (Some idx).
Proof.
  apply (@sentinel_sender_needs_no_signature (accepts_only "")
           "B" 1000 (Some "no signature") None (@started (accepts_only ""))).
  - discriminate.
  - discriminate.
  - repeat constructor. eexists. reflexivity.
Defined.

(** X8. A transfer is admitted when the sender is a wallet that holds the
    amount, the amount is not zero, the recipient is not ['0'], the
    signature and the name of the sender are two integers each, and the
    verifier accepts the signature for the text made of the two names,
    the message, the amount and the number 2 (on a chain that holds no
    block of a peer). The sender then holds the amount less, the
    recipient the amount more, and the sum of all amounts is the same. *)
Theorem signed_transfer_is_admitted `{Ecdsa} (s r sg : string) (a : Z)
    (msg : option string) (self : t) (sig key : Z * Z)
    (Hs : s <> "0") (Hr : r <> "0")
    (Hknown : In s (names (addresses self)))
    (Ha : a <> 0) (Hfunds : a <= balance s (addresses self))
    (Hsig : two_ints sg = Ok sig) (Hkey : two_ints s = Ok key)
    (Hverify : ecdsa_verify sig (Transaction.msg_signed s r msg a 2) key = Ok true)
    (Hchain : forged_here (chain self)) :
  let self' := snd (new_transaction s r a (Some sg) msg self) in
  (exists idx, fst (new_transaction s r a (Some sg) msg self) = Ok (Some idx))
  /\ (forall n, n <> "0" ->
        balance n (addresses self')
        = balance n (addresses self)
          + (if String.eqb r n then a else 0) - (if String.eqb s n then a else 0))
  /\ supply (addresses self') = supply (addresses self).
Proof.
  cbv zeta.
  assert (Hres : exists i, resolve s (addresses self) = Some (Obj i)).
  { unfold resolve. destruct (String.eqb_spec s "0"); [contradiction|].
    destruct (find_index s (addresses self) 0) as [i|] eqn:Hf; [eauto|].
    destruct (find_index_None _ _ _ Hf) as [_ Hnot]. contradiction. }
  destruct Hres as [i Hres].
  assert (Hadm : exists idx,
             fst (new_transaction s r a (Some sg) msg self) = Ok (Some idx)).
  { rewrite new_transaction_eq, Hres. cbv zeta.
    destruct (with_recipient_frame r self) as (Hc & _ & _).
    destruct (with_recipient_ledger s r (Obj i) self Hres) as (Hbal & _ & Hsp & Hrp).
    destruct Hsp as [[? _] | (i' & [= <-] & _ & Hi)]; [discriminate|].
    destruct Hrp as [[_ ?] | (j & Hrp & _ & Hj)]; [contradiction|].
    destruct (find_index_Some _ _ _ _ Hi) as (_ & x & Hx & Hxs & Hbx).
    destruct (find_index_Some _ _ _ _ Hj) as (_ & y & Hy & Hyr & _).
    rewrite Nat.sub_0_r in Hx, Hy.
    destruct (getTransactionsByAddress_forged (Obj i) (with_recipient r self))
      as [txs Htxs]; [rewrite Hc; exact Hchain|].
    rewrite Htxs, Hrp.
    assert (Hvalid : Transaction.is_valid (addresses (with_recipient r self))
                       (Transaction.init (Obj i) (Obj j) a (Some sg) msg) = Ok true).
    { unfold Transaction.is_valid, deref.
      cbn [Transaction.init Transaction.sender Transaction.amount].
      rewrite Hx. cbn. rewrite Hbal in Hbx.
      destruct (Z.ltb_spec (Address.amount x) a); [lia|].
      destruct (Z.eqb_spec a 0); [contradiction | reflexivity]. }
    rewrite Hvalid.
    rewrite (is_signature_valid_message (addresses (with_recipient r self))
               (Transaction.init (Obj i) (Obj j) a (Some sg) msg) txs
               i j x y sg sig key eq_refl eq_refl Hx Hy eq_refl Hsig
               ltac:(rewrite Hxs; exact Hkey)).
    cbn [Transaction.init Transaction.message Transaction.amount].
    rewrite Hxs, Hyr, Hverify.
    rewrite execute_transaction_eq. cbv zeta.
    cbn [Transaction.init Transaction.sender Transaction.recipient
         Transaction.amount].
    rewrite Hx. cbn [addresses set_addresses]. rewrite lookup_bump, Hy.
    cbn [fmap option_fmap option_map fst]. eauto. }
  split; [exact Hadm|]. destruct Hadm as [idx Hidx].
  destruct (new_transaction_ledger s r a (Some sg) msg self) as (Hbal & _).
  cbv zeta in Hbal. rewrite Hidx in Hbal. cbn [admitted andb] in Hbal.
  split; [exact Hbal|].
  rewrite new_transaction_supply, Hidx. cbn [admitted andb].
  destruct (String.eqb_spec s "0"); [contradiction | lia].
Qed.

Lemma signed_transfer_is_admitted_witness :
  exists idx,
    fst (@new_transaction (accepts_only "1 2 B None 1 2")
           alice "B" 1 (Some "3 4") None (@started (accepts_only ""))) = Ok (Some idx).
Proof.
  apply (@signed_transfer_is_admitted (accepts_only "1 2 B None 1 2")
           alice "B" "3 4" 1 None (@started (accepts_only "")) (3, 4) (1, 2)).
  - discriminate.
  - discriminate.
  - left. reflexivity.
  - discriminate.
  - vm_compute. discriminate.
  - reflexivity.
  - reflexivity.
  - reflexivity.
  - repeat constructor. eexists. reflexivity.
Defined.

(** X9. A sender that is neither ['0'] nor the name of a wallet is turned
    away before anything happens: the call returns [None] and the state
    is the one of the call, without a wallet for the recipient. *)
Theorem unknown_sender_changes_nothing `{Ecdsa} (s r : string) (a : Z)
    (sig msg : option string) (self : t)
    (Hs : s <> "0") (Hunknown : ~ In s (names (addresses self))) :
  new_transaction s r a sig msg self = (Ok None, self).
Proof.
  rewrite new_transaction_eq.
  assert (Hres : resolve s (addresses self) = None).
  { unfold resolve. destruct (String.eqb_spec s "0"); [contradiction|].
    destruct (find_index s (addresses self) 0) as [i|] eqn:Hf; [|reflexivity].
    exfalso. apply Hunknown.
    destruct (find_index_Some _ _ _ _ Hf) as (_ & x & Hx & <- & _).
    apply in_map, list_elem_of_In, list_elem_of_lookup. eauto. }
  rewrite Hres. reflexivity.
Qed.

Lemma unknown_sender_changes_nothing_witness :
  @new_transaction (accepts_only "") "7 8" "B" 1 (Some "3 4") None
    (@started (accepts_only ""))
  = (Ok None, @started (accepts_only "")).
Proof.
  apply (@unknown_sender_changes_nothing (accepts_only "")).
  - discriminate.
  - intros [Heq | []]. discriminate.
Defined.

(** X10. A call that is turned away for its amount or for lack of funds
    has already registered its recipient: a recipient that no wallet was
    named after has a wallet of amount 0 afterwards, at the end of the
    ledger, and nothing else has changed. *)
Theorem rejection_registers_recipient `{Ecdsa} (s r : string) (a : Z)
    (sig msg : option string) (self : t)
    (Hsender : s = "0" \/ In s (names (addresses self)))
    (Hbad : a = 0 \/ (s <> "0" /\ balance s (addresses self) < a))
    (Hr : r <> "0") (Hnew : ~ In r (names (addresses self)))
    (Hchain : forged_here (chain self)) :
  new_transaction s r a sig msg self
  = (Ok None,
     Blockchain.mk (current_transactions self)
       (addresses self ++ [Address.mk r 0]) (chain self) (nodes self)).
Proof.
  assert (Hres : exists sp, resolve s (addresses self) = Some sp).
  { unfold resolve. destruct (String.eqb_spec s "0"); [eauto|].
    destruct Hsender as [? | Hin]; [contradiction|].
    destruct (find_index s (addresses self) 0) as [i|] eqn:Hf; [eauto|].
    destruct (find_index_None _ _ _ Hf) as [_ Hnot]. contradiction. }
  destruct Hres as [sp Hres].
  destruct (new_transaction_rejects s r a sig msg self sp Hres Hbad)
    as (Hstate & _ & _ & _ & Hnone).
  cbv zeta in Hstate, Hnone.
  rewrite (surjective_pairing (new_transaction s r a sig msg self)).
  rewrite (Hnone Hchain), Hstate. f_equal.
  unfold with_recipient, resolve.
  destruct (String.eqb_spec r "0"); [contradiction|].
  destruct (find_index r (addresses self) 0) as [j|] eqn:Hf; [|reflexivity].
  exfalso. apply Hnew.
  destruct (find_index_Some _ _ _ _ Hf) as (_ & x & Hx & <- & _).
  apply in_map, list_elem_of_In, list_elem_of_lookup. eauto.
Qed.

Lemma rejection_registers_recipient_witness :
  addresses (snd (@new_transaction (accepts_only "") alice "B" 0 None None
                    (@started (accepts_only ""))))
  = [Address.mk alice 1; Address.mk "B" 0].
Proof.
  rewrite (@rejection_registers_recipient (accepts_only "")
             alice "B" 0 None None (@started (accepts_only ""))).
  - reflexivity.
  - right. left. reflexivity.
  - left. reflexivity.
  - discriminate.
  - intros [Heq | []]. discriminate.
  - repeat constructor. eexists. reflexivity.
Defined.

(** ** The transactions of an address *)

Lemma getTransactionsByAddress_eq (a : arg) (self : t) :
  fst (getTransactionsByAddress a self) =
  match scanned a (addresses self) with
  | None => Ok (None, None)
  | Some p =>
      transactions ← select (involves p) (flat_map Block.transactions (chain self));
      future_transactions ←
        select (fun t => involves p (TxObj t)) (current_transactions self);
      Ok (Some transactions, Some future_transactions)
  end.
Proof.
  unfold getTransactionsByAddress. rewrite bind_eq. unfold try_except.
  rewrite get_address_eq.
  assert (Hscan : forall p,
    fst ((c ← read chain;
          transactions ← lift (select (involves p) (flat_map Block.transactions c));
          pending ← read current_transactions;
          future_transactions ← lift (select (fun t => involves p (TxObj t)) pending);
          mret (Some transactions, Some future_transactions)) self)
    = (transactions ← select (involves p) (flat_map Block.transactions (chain self));
       future_transactions ←
         select (fun t => involves p (TxObj t)) (current_transactions self);
       Ok (Some transactions, Some future_transactions))).
  { intros p. run_M.
    destruct (select (involves p) _); [|reflexivity]. cbn.
    destruct (select _ (current_transactions self)); reflexivity. }
  destruct a as [s|i]; cbn [resolve_arg scanned].
  - destruct (resolve s (addresses self)) as [p|]; cbn [is_AddressNotFound].
    + run_M. apply (Hscan p).
    + reflexivity.
  - cbn [is_AddressNotFound]. run_M. apply (Hscan (Obj i)).
Qed.

Lemma resolve_unknown (s : string) (l : list Address.t) :
  resolve s l = None <-> s <> "0" /\ ~ In s (names l).
Proof.
  unfold resolve. destruct (String.eqb_spec s "0") as [-> | Hne].
  - split; [discriminate | intros [? _]; contradiction].
  - destruct (find_index s l 0) as [i|] eqn:Hf.
    + split; [discriminate|]. intros [_ Hnot]. exfalso. apply Hnot.
      destruct (find_index_Some _ _ _ _ Hf) as (_ & x & Hx & <- & _).
      apply in_map, list_elem_of_In, list_elem_of_lookup. eauto.
    + split; [|reflexivity]. intros _. split; [assumption|].
      apply (find_index_None _ _ _ Hf).
Qed.

(** X11. [getTransactionsByAddress] never changes the state, and for a
    string it answers with the pair of two [None] exactly when the string
    is neither ['0'] nor the name of a wallet. *)
Theorem getTransactionsByAddress_unknown (s : string) (self : t) :
  snd (getTransactionsByAddress (Str s) self) = self
  /\ (fst (getTransactionsByAddress (Str s) self) = Ok (None, None) <->
      s <> "0" /\ ~ In s (names (addresses self))).
Proof.
  split; [apply getTransactionsByAddress_state|].
  rewrite getTransactionsByAddress_eq, <- resolve_unknown. cbn [scanned].
  destruct (resolve s (addresses self)) as [p|]; [|split; reflexivity].
  split; [|discriminate].
  destruct (select (involves p) _); cbn; [|discriminate].
  destruct (select _ (current_transactions self)); cbn; discriminate.
Qed.

Lemma select_app {A : Type} (p : A -> result bool) (l1 l2 : list A) :
  select p (l1 ++ l2) =
  (r1 ← select p l1; r2 ← select p l2; Ok (r1 ++ r2)%list).
Proof.
  induction l1 as [|x l1 IH]; cbn [select app].
  - cbn. destruct (select p l2); reflexivity.
  - rewrite IH. destruct (p x) as [b|]; [|reflexivity]. cbn.
    destruct (select p l1) as [r1|]; [|reflexivity]. cbn.
    destruct (select p l2) as [r2|]; [|reflexivity]. cbn.
    destruct b; reflexivity.
Qed.

Lemma select_map_TxObj (p : party) (l : list Transaction.t) :
  select (involves p) (map TxObj l)
  = (map TxObj <$> select (fun t => involves p (TxObj t)) l).
Proof.
  induction l as [|t l IH]; cbn [select map]; [reflexivity|].
  rewrite IH. destruct (involves p (TxObj t)) as [b|]; [|reflexivity]. cbn.
  destruct (select _ l); [|reflexivity]. cbn. destruct b; reflexivity.
Qed.

(** Writing the chain file changes nothing in the blockchain. *)
Lemma new_block_saved_state (now proof : Z) (previous_hash : option json) (self : t) :
  snd (new_block_saved now proof previous_hash self)
  = snd (new_block now proof previous_hash self).
Proof.
  unfold new_block_saved. rewrite bind_eq.
  destruct (new_block now proof previous_hash self) as [[block|e] self1];
    [|reflexivity].
  unfold update_chainFile. run_M.
  destruct (chain_to_jsonSerializable (addresses self1) (chain self1)); reflexivity.
Qed.

(** X12. Forging a block moves the pending transactions of an address to
    its history: once [new_block] has forged its block, whether or not the
    chain file could then be written, what [getTransactionsByAddress]
    listed as future transactions before is listed at the end of the
    transactions, in the same order, and no future transaction is left. *)
Theorem new_block_moves_pending_to_history (a : arg) (self : t)
    (now proof : Z) (previous_hash : option json) (block : Block.t)
    (hist : list tx_entry) (fut : list Transaction.t)
    (Hbefore : fst (getTransactionsByAddress a self) = Ok (Some hist, Some fut))
    (Hforge : fst (new_block now proof previous_hash self) = Ok block) :
  fst (getTransactionsByAddress a
         (snd (new_block_saved now proof previous_hash self)))
  = Ok (Some (hist ++ map TxObj fut)%list, Some []).
Proof.
  rewrite new_block_saved_state.
  destruct (new_block now proof previous_hash self) as [res self'] eqn:Hnew.
  cbn [fst snd] in *. subst res.
  assert (Hledger : addresses self' = addresses self).
  { revert Hnew. unfold new_block. run_M.
    destruct previous_hash as [v|]; [destruct (truthy v)|];
      try (destruct (last (chain self)); [destruct (hash_block _)|]);
      cbn; intros [= <- <-]; reflexivity. }
  apply new_block_forged in Hnew. destruct Hnew as (_ & Htx & Hchain & Hpool).
  rewrite getTransactionsByAddress_eq in *. rewrite Hledger, Hchain, Hpool.
  destruct (scanned a (addresses self)) as [p|]; [|discriminate].
  rewrite flat_map_app. cbn [flat_map]. rewrite app_nil_r, Htx.
  rewrite select_app, select_map_TxObj.
  destruct (select (involves p) (flat_map Block.transactions (chain self)))
    as [h|]; [|discriminate]. cbn in *.
  destruct (select _ (current_transactions self)) as [f|]; [|discriminate].
  cbn in *. injection Hbefore as <- <-. reflexivity.
Qed.

Lemma new_block_moves_pending_to_history_witness :
  fst (getTransactionsByAddress (Str alice)
         (snd (new_block_saved 11 7 (Some (JStr "h"))
                 (snd (@new_transaction (accepts_only "") "0" alice 1 None None
                         (@started (accepts_only "")))))))
  = Ok (Some [TxObj (Transaction.mk Zero (Obj 0) 1 None None true);
              TxObj (Transaction.mk Zero (Obj 0) 1 None None true)],
        Some []).
Proof.
  apply (new_block_moves_pending_to_history (Str alice)
           (snd (@new_transaction (accepts_only "") "0" alice 1 None None
                   (@started (accepts_only ""))))
           11 7 (Some (JStr "h"))
           (Block.mk 1 11 [TxObj (Transaction.mk Zero (Obj 0) 1 None None true)]
              7 (JStr "h"))
           [TxObj (Transaction.mk Zero (Obj 0) 1 None None true)]
           [Transaction.mk Zero (Obj 0) 1 None None true]).
  - reflexivity.
  - reflexivity.
Defined.

Lemma resolve_names (s : string) (l l' : list Address.t) :
  names l = names l' -> resolve s l = resolve s l'.
Proof.
  intros Hn. unfold resolve. rewrite (find_index_names s l l' Hn). reflexivity.
Qed.

Lemma party_eqb_refl (p : party) : party_eqb p p = true.
Proof. destruct p; [reflexivity | apply Nat.eqb_refl]. Qed.

(** X13. An admitted transaction is pending for both of its parties:
    right after the call it is the last of the pool, marked as executed,
    and the last of the future transactions that
    [getTransactionsByAddress] lists for the sender and for the recipient
    (on a chain that holds no block of a peer). *)
Theorem admitted_transaction_is_pending `{Ecdsa} (s r : string) (a : Z)
    (sig msg : option string) (self : t) (idx : Z)
    (Hadmitted : fst (new_transaction s r a sig msg self) = Ok (Some idx))
    (Hchain : forged_here (chain self)) :
  let self' := snd (new_transaction s r a sig msg self) in
  exists tx,
    last (current_transactions self') = Some tx
    /\ Transaction.amount tx = a /\ Transaction.executed tx = true
    /\ (exists hist fut,
          fst (getTransactionsByAddress (Str s) self')
          = Ok (Some hist, Some (fut ++ [tx])%list))
    /\ (exists hist fut,
          fst (getTransactionsByAddress (Str r) self')
          = Ok (Some hist, Some (fut ++ [tx])%list)).
Proof.
  cbv zeta.
  destruct (new_transaction_outcome s r a sig msg self) as [_ Hyes].
  cbv zeta in Hyes. rewrite Hadmitted in Hyes.
  destruct (Hyes eq_refl)
    as (sp & j & tx' & self2 & Hres & Hrp & Hr0 & Hzero & _ & Hex & Hself').
  destruct (execute_transaction_effect _ _ _ _ Hex)
    as (Htx' & Hnames & _ & _ & Hc2 & _).
  destruct (with_recipient_frame r self) as (Hc1 & _ & _).
  destruct (with_recipient_ledger s r sp self Hres) as (_ & _ & Hsp & Hrp').
  cbn [Transaction.init Transaction.sender Transaction.recipient
       Transaction.amount Transaction.message Transaction.signature] in Htx'.
  assert (Hs2 : resolve s (addresses self2) = Some sp).
  { rewrite (resolve_names s _ _ Hnames).
    destruct Hsp as [[-> ->] | (i & -> & Hs0 & Hi)]; [reflexivity|].
    unfold resolve. destruct (String.eqb_spec s "0"); [contradiction|].
    rewrite Hi. reflexivity. }
  assert (Hr2 : resolve r (addresses self2) = Some (Obj j)).
  { rewrite (resolve_names r _ _ Hnames).
    destruct Hrp' as [[Hz _] | (j' & Hj' & _ & Hj)]; [congruence|].
    assert (j' = j) by congruence. subst j'.
    unfold resolve. destruct (String.eqb_spec r "0"); [contradiction|].
    rewrite Hj. reflexivity. }
  exists tx'. rewrite Hself'. cbn [current_transactions set_current_transactions].
  split; [apply last_snoc|]. split; [rewrite Htx'; reflexivity|].
  split; [rewrite Htx'; reflexivity|].
  assert (Hlist : forall p,
    involves p (TxObj tx') = Ok true ->
    exists hist fut,
      (transactions ← select (involves p) (flat_map Block.transactions (chain self));
       future_transactions ←
         select (fun t => involves p (TxObj t)) (current_transactions self ++ [tx']);
       Ok (Some transactions, Some future_transactions))
      = Ok (Some hist, Some (fut ++ [tx'])%list)).
  { intros p Hp.
    destruct (select_involves_forged p _ Hchain) as [hist ->].
    destruct (select_involves_pending p (current_transactions self)) as [fut Hfut].
    rewrite select_app, Hfut. cbn [select]. rewrite Hp. cbn. eauto. }
  split.
  - rewrite getTransactionsByAddress_eq.
    cbn [scanned addresses chain current_transactions set_current_transactions].
    rewrite Hs2, Hc2, Hc1. apply Hlist.
    rewrite Htx'. cbn [involves Transaction.sender]. rewrite party_eqb_refl.
    reflexivity.
  - rewrite getTransactionsByAddress_eq.
    cbn [scanned addresses chain current_transactions set_current_transactions].
    rewrite Hr2, Hc2, Hc1. apply Hlist.
    rewrite Htx'. cbn [involves Transaction.sender Transaction.recipient].
    rewrite (party_eqb_refl (Obj j)), orb_true_r. reflexivity.
Qed.

Lemma admitted_transaction_is_pending_witness :
  exists tx,
    last (current_transactions
            (snd (@new_transaction (accepts_only "") "0" "B" 4 None None
                    (@started (accepts_only ""))))) = Some tx
    /\ Transaction.amount tx = 4.
Proof.
  destruct (@admitted_transaction_is_pending (accepts_only "")
              "0" "B" 4 None None (@started (accepts_only "")) 1)
    as (tx & Hlast & Hamount & _).
  - reflexivity.
  - repeat constructor. eexists. reflexivity.
  - exists tx. split; assumption.
Defined.

(** ** What the node serves *)

Lemma mapM_Ok_length {A B : Type} (f : A -> result B) (l : list A) : forall ys,
  mapM f l = Ok ys -> length ys = length l.
Proof.
  induction l as [|x l IH]; intros ys; cbn.
  - intros [= <-]. reflexivity.
  - destruct (f x) as [y|]; [|discriminate]. cbn.
    destruct (mapM f l) as [ys'|]; [|discriminate]. cbn.
    intros [= <-]. cbn. f_equal. apply IH. reflexivity.
Qed.

Lemma mapM_Ok_Forall {A B : Type} (f : A -> result B) (l : list A) : forall ys,
  mapM f l = Ok ys -> Forall (fun x => exists y, f x = Ok y) l.
Proof.
  induction l as [|x l IH]; intros ys; cbn; [constructor|].
  destruct (f x) as [y|] eqn:Hy; [|discriminate]. cbn.
  destruct (mapM f l) as [ys'|]; [|discriminate]. cbn. intros _.
  constructor; [eauto | eapply IH; reflexivity].
Qed.

Lemma mapM_ext_Ok {A B : Type} (f g : A -> result B) (l : list A) : forall ys,
  (forall x y, f x = Ok y -> g x = Ok y) ->
  mapM f l = Ok ys -> mapM g l = Ok ys.
Proof.
  induction l as [|x l IH]; intros ys Hfg; cbn; [auto|].
  destruct (f x) as [y|] eqn:Hy; [|discriminate]. cbn.
  destruct (mapM f l) as [ys'|] eqn:Hl; [|discriminate]. cbn.
  intros [= <-]. rewrite (Hfg _ _ Hy). cbn.
  rewrite (IH ys' Hfg eq_refl). reflexivity.
Qed.

(** Only [Transaction] objects can be served. *)
Lemma transactions_served_are_objects (l : list Address.t) (txs : list tx_entry)
    (served : list (list (string * json))) :
  transactions_to_jsonSerializable l txs = Ok served ->
  Forall (fun e => exists t, e = TxObj t) txs.
Proof.
  intros Hs. apply mapM_Ok_Forall in Hs.
  eapply Forall_impl; [exact Hs|]. intros [t|j] [y Hy]; [eauto | discriminate].
Qed.

(** A block that holds dictionaries is served exactly when it holds no
    transaction at all. *)
Lemma block_of_dicts_served (l : list Address.t) (b : Block.t) :
  Forall (fun e => exists j, e = TxDict j) (Block.transactions b) ->
  block_to_jsonSerializable l b
  = match Block.transactions b with
    | [] => Ok [ ("index", JInt (Block.index b));
                 ("timestamp", number_json (Block.timestamp b));
                 ("proof", JInt (Block.proof b));
                 ("previous_hash", Block.previous_hash b);
                 ("transactions", JList []) ]
    | _ :: _ => Raise AttributeError
    end.
Proof.
  unfold block_to_jsonSerializable, transactions_to_jsonSerializable.
  destruct (Block.transactions b) as [|e txs]; [reflexivity|].
  intros Hd. inversion Hd as [|? ? [j ->] _]. reflexivity.
Qed.

Lemma chain_of_dicts_served (l : list Address.t) (c : list Block.t) :
  dictionaries_only c -> flat_map Block.transactions c <> [] ->
  chain_to_jsonSerializable l c = Raise AttributeError.
Proof.
  unfold dictionaries_only, chain_to_jsonSerializable.
  induction c as [|b c IH]; [intros _ Hne; contradiction|].
  cbn [flat_map]. intros Hd Hne. apply Forall_app in Hd. destruct Hd as [Hb Hc].
  cbn. rewrite (block_of_dicts_served l b Hb).
  destruct (Block.transactions b) as [|e txs]; [|reflexivity]. cbn.
  rewrite (IH Hc Hne). reflexivity.
Qed.

(** X14. A node cannot serve what it has adopted. On a chain taken from a
    peer, whose blocks hold dictionaries, [full_chain] raises
    [AttributeError] as soon as one block holds a transaction. *)
Theorem full_chain_fails_on_received_chain (self : t)
    (Hdicts : dictionaries_only (chain self))
    (Hsome : flat_map Block.transactions (chain self) <> []) :
  full_chain self = (Raise AttributeError, self).
Proof.
  unfold full_chain. run_M.
  rewrite (chain_of_dicts_served _ _ Hdicts Hsome). reflexivity.
Qed.

(** X15. The endpoint [consensus] fails where it succeeds: when the
    neighbour met first answers 200 with a valid chain of dictionaries
    that holds a transaction, and reports a larger length than the local
    one, the chain of the node is replaced and the endpoint then raises
    [AttributeError] instead of answering. *)
Theorem consensus_fails_after_adoption (requests_get : string -> Response)
    (self : t) (node : string) (others : list string)
    (Hnodes : nodes self = node :: others)
    (Hstatus : status_code (requests_get node) = 200)
    (Hlonger : Z.of_nat (length (chain self)) < json_length (requests_get node))
    (Hvalid : valid_chain (json_chain (requests_get node)) = Ok true)
    (Hdicts : dictionaries_only (json_chain (requests_get node)))
    (Hsome : flat_map Block.transactions (json_chain (requests_get node)) <> []) :
  consensus requests_get self
  = (Raise AttributeError,
     Blockchain.mk (current_transactions self) (addresses self)
       (json_chain (requests_get node)) (nodes self)).
Proof.
  unfold consensus.
  assert (Hadopt : resolve_conflicts requests_get self
                   = (Ok (true, []),
                      Blockchain.mk (current_transactions self) (addresses self)
                        (json_chain (requests_get node)) (nodes self))).
  { unfold resolve_conflicts. run_M. rewrite Hnodes, Hstatus, Hvalid.
    change (200 =? 200) with true. cbv iota.
    destruct (Z.ltb_spec (Z.of_nat (length (chain self)))
                (json_length (requests_get node))); [|lia].
    destruct (json_chain (requests_get node)) as [|b c]; [discriminate|].
    unfold set_chain. rewrite Hnodes. reflexivity. }
  rewrite bind_eq, Hadopt. cbn [fst snd]. run_M. cbn [chain addresses].
  rewrite (chain_of_dicts_served _ _ Hdicts Hsome). reflexivity.
Qed.

Lemma full_chain_fails_on_received_chain_witness :
  full_chain (Blockchain.mk [] [] [Block.mk 0 10 [TxDict (JDict [])] 100 (JInt 1)] [])
  = (Raise AttributeError,
     Blockchain.mk [] [] [Block.mk 0 10 [TxDict (JDict [])] 100 (JInt 1)] []).
Proof.
  apply (full_chain_fails_on_received_chain
           (Blockchain.mk [] [] [Block.mk 0 10 [TxDict (JDict [])] 100 (JInt 1)] [])).
  - repeat constructor. eexists. reflexivity.
  - discriminate.
Defined.

Lemma consensus_fails_after_adoption_witness :
  fst (consensus
         (fun _ => {| status_code := 200; json_length := 1;
                      json_chain := [Block.mk 0 10 [TxDict (JDict [])] 100 (JInt 1)] |})
         (Blockchain.mk [] [] [] ["c:5000"]))
  = Raise AttributeError.
Proof.
  rewrite (consensus_fails_after_adoption
             (fun _ => {| status_code := 200; json_length := 1;
                          json_chain := [Block.mk 0 10 [TxDict (JDict [])] 100 (JInt 1)] |})
             (Blockchain.mk [] [] [] ["c:5000"]) "c:5000" [] eq_refl eq_refl).
  - reflexivity.
  - simpl. lia.
  - reflexivity.
  - repeat constructor. eexists. reflexivity.
  - discriminate.
Defined.

(** X16. [full_chain] only reads, and what it reports as length is the
    number of blocks that it serves. *)
Theorem full_chain_reports_served_length (self self' : t)
    (served : list (list (string * json))) (n : Z)
    (Hserved : full_chain self = (Ok (served, n), self')) :
  self' = self /\ n = Z.of_nat (length served)
  /\ length served = length (chain self).
Proof.
  revert Hserved. unfold full_chain. run_M.
  destruct (chain_to_jsonSerializable (addresses self) (chain self)) as [out|] eqn:Hout;
    [|discriminate].
  intros [= <- <- <-]. apply mapM_Ok_length in Hout. rewrite Hout. auto.
Qed.

Lemma full_chain_reports_served_length_witness :
  @started (accepts_only "") = @started (accepts_only "")
  /\ 1 = Z.of_nat (length [served_genesis])
  /\ length [served_genesis] = length (chain (@started (accepts_only ""))).
Proof.
  apply (full_chain_reports_served_length (@started (accepts_only ""))
           (@started (accepts_only "")) [served_genesis] 1).
  reflexivity.
Defined.

Lemma name_of_reference (l : list Address.t) (i : nat) :
  Address.address <$> deref l i
  = match names l !! i with
    | Some n => Ok n
    | None => Raise Dangling
    end.
Proof.
  unfold deref. rewrite list_lookup_fmap. destruct (l !! i); reflexivity.
Qed.

(** What is served of a transaction depends on the names of the wallets
    only, and stays what it is when wallets are added. *)
Lemma transaction_served_names (l l' : list Address.t) (sfx : list string)
    (e : tx_entry) (d : list (string * json)) :
  names l' = (names l ++ sfx)%list ->
  transaction_to_jsonSerializable l e = Ok d ->
  transaction_to_jsonSerializable l' e = Ok d.
Proof.
  intros Hnames. destruct e as [t|j]; [|discriminate].
  unfold transaction_to_jsonSerializable, party_address.
  assert (Hkeep : forall i n,
             Address.address <$> deref l i = Ok n ->
             Address.address <$> deref l' i = Ok n).
  { intros i n. rewrite !name_of_reference, Hnames.
    destruct (names l !! i) as [m|] eqn:Hm; [|discriminate].
    rewrite (lookup_app_l_Some _ _ _ _ Hm). auto. }
  destruct (Transaction.sender t) as [|i], (Transaction.recipient t) as [|j];
    try discriminate.
  - destruct (Address.address <$> deref l j) as [n|] eqn:Hn; [|discriminate].
    rewrite (Hkeep _ _ Hn). auto.
  - destruct (Address.address <$> deref l i) as [n|] eqn:Hn; [|discriminate].
    rewrite (Hkeep _ _ Hn). discriminate.
  - destruct (Address.address <$> deref l i) as [n|] eqn:Hn; [|discriminate].
    rewrite (Hkeep _ _ Hn). cbn.
    destruct (Address.address <$> deref l j) as [m|] eqn:Hm; [|discriminate].
    rewrite (Hkeep _ _ Hm). auto.
Qed.

Lemma chain_served_names (l l' : list Address.t) (sfx : list string)
    (c : list Block.t) (served : list (list (string * json))) :
  names l' = (names l ++ sfx)%list ->
  chain_to_jsonSerializable l c = Ok served ->
  chain_to_jsonSerializable l' c = Ok served.
Proof.
  intros Hnames. unfold chain_to_jsonSerializable. apply mapM_ext_Ok.
  intros b d. unfold block_to_jsonSerializable, transactions_to_jsonSerializable.
  destruct (mapM (transaction_to_jsonSerializable l) (Block.transactions b))
    as [txs|] eqn:Htxs; [|discriminate].
  rewrite (mapM_ext_Ok _ (transaction_to_jsonSerializable l') _ txs
             (fun e y => transaction_served_names l l' sfx e y Hnames) Htxs).
  auto.
Qed.

(** [new_transaction] keeps the wallets where they are: it may add one at
    the end of the ledger. *)
Lemma new_transaction_names `{Ecdsa} (s r : string) (a : Z)
    (sig msg : option string) (self : t) :
  exists sfx,
    names (addresses (snd (new_transaction s r a sig msg self)))
    = (names (addresses self) ++ sfx)%list.
Proof.
  assert (Hwith : exists sfx, names (addresses (with_recipient r self))
                              = (names (addresses self) ++ sfx)%list).
  { unfold with_recipient. destruct (resolve r (addresses self)).
    - exists []. rewrite app_nil_r. reflexivity.
    - exists [r]. cbn [addresses set_addresses]. rewrite map_app. reflexivity. }
  destruct (new_transaction_outcome s r a sig msg self) as [Hno Hyes].
  cbv zeta in Hno, Hyes.
  destruct (admitted (fst (new_transaction s r a sig msg self))).
  - destruct (Hyes eq_refl) as (sp & j & tx' & self2 & _ & _ & _ & _ & _ & Hex & ->).
    destruct (execute_transaction_effect _ _ _ _ Hex) as (_ & Hnames & _).
    cbn [addresses set_current_transactions]. rewrite Hnames. exact Hwith.
  - destruct (Hno eq_refl) as [(_ & _ & ->) | (_ & ->)]; [|exact Hwith].
    exists []. rewrite app_nil_r. reflexivity.
Qed.

(** X17. No call of [new_transaction] changes what the node serves as its
    chain: whatever [full_chain] answers, it answers the same after any
    sequence of calls, admitted or not. *)
Theorem served_chain_survives_transactions `{Ecdsa} (calls : list Call) (self : t)
    (out : list (list (string * json)) * Z)
    (Hserved : fst (full_chain self) = Ok out) :
  fst (full_chain (run calls self)) = Ok out.
Proof.
  revert self Hserved. induction calls as [|c calls IH]; intros self Hserved;
    cbn [run]; [exact Hserved|].
  apply IH. unfold call.
  destruct (new_transaction_names (call_sender c) (call_recipient c) (call_amount c)
              (call_signature c) (call_message c) self) as [sfx Hnames].
  destruct (new_transaction_frame (call_sender c) (call_recipient c) (call_amount c)
              (call_signature c) (call_message c) self) as [Hchain _].
  revert Hserved. unfold full_chain. run_M. rewrite Hchain.
  destruct (chain_to_jsonSerializable (addresses self) (chain self))
    as [served|] eqn:Hs; [|discriminate].
  rewrite (chain_served_names _ _ sfx _ _ Hnames Hs). auto.
Qed.

Lemma served_chain_survives_transactions_witness :
  fst (full_chain (@run (accepts_only "")
                     [coinbase "B" 5; coinbase alice 2]
                     (@started (accepts_only ""))))
  = Ok ([served_genesis], 1).
Proof.
  apply (@served_chain_survives_transactions (accepts_only "")
           [coinbase "B" 5; coinbase alice 2] (@started (accepts_only ""))).
  reflexivity.
Defined.

(** X18. The endpoint [get_transactions] answers with lists and a balance
    for the wallets of the ledger only, and the balance is the amount of
    the first wallet of that name. For ['0'], whose transactions
    [getTransactionsByAddress] does list, it never answers: the balance
    of a string cannot be read. Nothing is changed. *)
Theorem get_transactions_answers_for_wallets (address : string) (self self' : t)
    (transactions future_transactions : list (list (string * json)))
    (actual_balance : option Z)
    (Hanswer : get_transactions address self
               = (Ok (Some (transactions, future_transactions, actual_balance)),
                  self')) :
  self' = self
  /\ address <> "0"
  /\ In address (names (addresses self))
  /\ actual_balance = Some (balance address (addresses self)).
Proof.
  revert Hanswer. unfold get_transactions. rewrite bind_eq.
  pose proof (getTransactionsByAddress_state (Str address) self) as Hstate.
  pose proof (getTransactionsByAddress_eq (Str address) self) as Hfound.
  destruct (getTransactionsByAddress (Str address) self) as [res st].
  cbn [fst snd scanned] in Hstate, Hfound. subst st res.
  destruct (resolve address (addresses self)) as [p|] eqn:Hp.
  2:{ cbn. discriminate. }
  destruct (select (involves p) _) as [txs|]; [|discriminate]. cbn [mbind result_bind].
  destruct (select _ (current_transactions self)) as [fut|]; [|discriminate].
  cbn [mbind result_bind]. run_M.
  destruct (transactions_to_jsonSerializable (addresses self) txs); [|discriminate].
  destruct (transactions_to_jsonSerializable (addresses self) (map TxObj fut));
    [|discriminate].
  unfold get_balance. run_M. fold (get_address (Str address) self).
  rewrite get_address_eq. cbn [resolve_arg]. rewrite Hp.
  destruct p as [|i]; [discriminate|].
  unfold resolve in Hp. destruct (String.eqb_spec address "0") as [|Hne]; [discriminate|].
  destruct (find_index address (addresses self) 0) as [i'|] eqn:Hi; [|discriminate].
  injection Hp as ->.
  destruct (find_index_Some _ _ _ _ Hi) as (_ & x & Hx & Hname & Hbal).
  rewrite Nat.sub_0_r in Hx. unfold deref. rewrite Hx.
  intros [= _ _ <- <-]. split; [reflexivity|]. split; [exact Hne|].
  split; [|rewrite Hbal; reflexivity].
  rewrite <- Hname. apply in_map, list_elem_of_In, list_elem_of_lookup. eauto.
Qed.

Lemma get_transactions_answers_for_wallets_witness :
  @started (accepts_only "") = @started (accepts_only "")
  /\ alice <> "0"
  /\ In alice (names (addresses (@started (accepts_only ""))))
  /\ Some 1 = Some (balance alice (addresses (@started (accepts_only "")))).
Proof.
  apply (get_transactions_answers_for_wallets alice
           (@started (accepts_only "")) (@started (accepts_only ""))
           [[ ("sender", JStr "0"); ("recipient", JStr alice); ("amount", JInt 1);
              ("message", JNull); ("signature", JNull) ]]
           [] (Some 1)).
  reflexivity.
Defined.

(** ** Forging and validating *)

Lemma mapM_entry_json_object (l : list tx_entry) :
  Exists (fun e => exists t, e = TxObj t) l ->
  mapM Block.entry_json l = Raise TypeError.
Proof.
  induction 1 as [e l [t ->] | e l _ IH]; cbn; [reflexivity|].
  rewrite IH. destruct e; reflexivity.
Qed.

(** A chain that is served holds [Transaction] objects only. *)
Lemma chain_served_is_forged (l : list Address.t) (c : list Block.t)
    (served : list (list (string * json))) :
  chain_to_jsonSerializable l c = Ok served -> forged_here c.
Proof.
  unfold forged_here, chain_to_jsonSerializable. intros Hs.
  apply mapM_Ok_Forall in Hs. induction Hs as [|b c [y Hy] _ IH]; [constructor|].
  cbn [flat_map]. apply Forall_app. split; [|exact IH].
  unfold block_to_jsonSerializable in Hy.
  destruct (transactions_to_jsonSerializable l (Block.transactions b)) as [txs|] eqn:Htxs;
    [|discriminate].
  eapply transactions_served_are_objects, Htxs.
Qed.

(** X19. Without a [previous_hash] that counts as true, [new_block] falls
    back on the hash of the last block, and this never works on a chain
    whose blocks hold transactions: on an empty chain it raises
    [IndexError], behind a block that holds a [Transaction] object it
    raises [TypeError], in both cases with nothing forged and nothing
    changed; and a block of dictionaries, which can be hashed, cannot be
    written to the chain file. A block is returned only behind a block
    that holds no transaction at all. *)
Theorem new_block_without_previous_hash (now proof : Z)
    (previous_hash : option json) (self : t) (Hfalsy : falsy previous_hash) :
  (chain self = [] ->
   new_block_saved now proof previous_hash self = (Raise IndexError, self))
  /\ (forall b,
        last (chain self) = Some b ->
        Exists (fun e => exists t, e = TxObj t) (Block.transactions b) ->
        new_block_saved now proof previous_hash self = (Raise TypeError, self))
  /\ (forall block,
        fst (new_block_saved now proof previous_hash self) = Ok block ->
        exists b items,
          last (chain self) = Some b /\ Block.transactions b = []
          /\ Block.items b = Ok items
          /\ block = Block.mk (Z.of_nat (length (chain self))) now
                       (map TxObj (current_transactions self)) proof
                       (JStr (hash items))).
Proof.
  assert (Hfall : new_block now proof previous_hash self = new_block now proof None self).
  { destruct previous_hash as [v|]; [|reflexivity]. cbn in Hfalsy.
    unfold new_block. run_M. rewrite Hfalsy. reflexivity. }
  unfold new_block_saved. rewrite bind_eq, Hfall. split; [|split].
  - intros Hempty. unfold new_block. run_M. rewrite Hempty. reflexivity.
  - intros b Hlast Hobj. unfold new_block. run_M. rewrite Hlast.
    unfold hash_block, Block.items.
    rewrite (mapM_entry_json_object _ Hobj). reflexivity.
  - intros block.
    destruct (new_block now proof None self) as [[block'|e] self1] eqn:Hforge;
      [|discriminate].
    pose proof (new_block_forged _ _ _ _ _ _ Hforge) as (_ & _ & Hchain & _).
    unfold update_chainFile. run_M. rewrite Hchain.
    destruct (chain_to_jsonSerializable (addresses self1) (chain self ++ [block']))
      as [served|] eqn:Hserved; [|discriminate].
    cbn [fst]. intros [= ->].
    apply chain_served_is_forged in Hserved. unfold forged_here in Hserved.
    revert Hforge. unfold new_block. run_M.
    destruct (last (chain self)) as [b|] eqn:Hlast; [|discriminate].
    unfold hash_block.
    destruct (Block.items b) as [items|] eqn:Hitems; [|discriminate].
    cbn [fmap result_fmap]. intros [= <- _]. exists b, items.
    split; [reflexivity|]. split; [|split; [exact Hitems|]].
    + apply last_Some in Hlast. destruct Hlast as [c' Hc']. rewrite Hc' in Hserved.
      rewrite !flat_map_app in Hserved. cbn [flat_map] in Hserved.
      apply Forall_app in Hserved. destruct Hserved as [Hserved _].
      apply Forall_app in Hserved. destruct Hserved as [_ Hb].
      rewrite app_nil_r in Hb.
      unfold Block.items in Hitems.
      destruct (mapM Block.entry_json (Block.transactions b)) as [js|] eqn:Hjs;
        [|discriminate].
      apply mapM_Ok_Forall in Hjs.
      destruct (Block.transactions b) as [|e txs]; [reflexivity|].
      inversion Hb as [|? ? [t ->] _]. inversion Hjs as [|? ? [y Hy] _].
      discriminate.
    + destruct (chain self) as [|b0 c]; [discriminate | reflexivity].
Qed.

Lemma new_block_without_previous_hash_witness :
  new_block_saved 12 7 None blank = (Raise IndexError, blank)
  /\ new_block_saved 12 7 (Some (JStr "")) (@started (accepts_only ""))
     = (Raise TypeError, @started (accepts_only "")).
Proof.
  split.
  - apply (new_block_without_previous_hash 12 7 None blank I). reflexivity.
  - destruct (new_block_without_previous_hash 12 7 (Some (JStr ""))
                (@started (accepts_only "")) eq_refl) as (_ & Hobject & _).
    apply (Hobject (Block.mk 0 10 [TxObj (Transaction.mk Zero (Obj 0) 1 None None true)]
                      100 (JInt 1))).
    + reflexivity.
    + left. eexists. reflexivity.
Defined.

Lemma valid_chain_from_app (c1 : list Block.t) : forall first b c2,
  valid_chain_from first (c1 ++ b :: c2) = Ok true <->
  valid_chain_from first c1 = Ok true
  /\ (forall a, last (first :: c1) = Some a -> pair_ok a b)
  /\ valid_chain_from b c2 = Ok true.
Proof.
  induction c1 as [|x c1 IH]; intros first b c2.
  - cbn [app]. rewrite valid_chain_from_step. cbn [valid_chain_from last].
    split.
    + intros [Hp Hv]. split; [reflexivity|]. split; [|exact Hv].
      intros a [= <-]. exact Hp.
    + intros (_ & Hp & Hv). split; [apply Hp; reflexivity | exact Hv].
  - cbn [app]. rewrite !valid_chain_from_step, IH.
    assert (Hlast : last (first :: x :: c1) = last (x :: c1)) by reflexivity.
    rewrite Hlast. tauto.
Qed.

(** X21. Validity of a chain is validity of its parts: a chain cut in
    two non-empty pieces is valid exactly when both pieces are valid and
    the first block of the second piece follows the last block of the
    first one. *)
Theorem valid_chain_app (c1 c2 : list Block.t) (a b : Block.t)
    (Hlast : last c1 = Some a) (Hhead : head c2 = Some b) :
  valid_chain (c1 ++ c2) = Ok true <->
  valid_chain c1 = Ok true /\ pair_ok a b /\ valid_chain c2 = Ok true.
Proof.
  destruct c1 as [|first c1]; [discriminate|].
  destruct c2 as [|b' c2]; [discriminate|]. injection Hhead as ->.
  cbn [app valid_chain]. rewrite valid_chain_from_app. split.
  - intros (H1 & Hp & H2). split; [exact H1|]. split; [apply Hp, Hlast | exact H2].
  - intros (H1 & Hp & H2). split; [exact H1|]. split; [|exact H2].
    intros a' Ha'. rewrite Hlast in Ha'. injection Ha' as <-. exact Hp.
Qed.

Lemma valid_chain_app_witness :
  valid_chain [genesis] = Ok true /\ pair_ok genesis second
  /\ valid_chain [second] = Ok true.
Proof.
  apply (valid_chain_app [genesis] [second] genesis second eq_refl eq_refl).
  vm_compute. reflexivity.
Defined.

(** ** Consensus *)

(** X22. What [resolve_conflicts] does with the answer of the neighbour it
    meets first, whenever [valid_chain] answers [v] on the chain of that
    neighbour. The chain is adopted exactly when the status is 200, the
    length that the neighbour reports is larger than the length of the
    local chain and the chain is valid; the neighbour is reported exactly
    when the status is 200, its chain was not adopted and it is not a
    valid chain with a smaller reported length. The pool, the ledger and
    the set of neighbours are never touched. *)
Theorem resolve_conflicts_first_answer (requests_get : string -> Response)
    (self : t) (node : string) (others : list string) (v : bool)
    (Hnodes : nodes self = node :: others)
    (Hvalid : valid_chain (json_chain (requests_get node)) = Ok v) :
  let response := requests_get node in
  let own := Z.of_nat (length (chain self)) in
  let adopted :=
    (status_code response =? 200) && (own <? json_length response) && v in
  let reported :=
    (status_code response =? 200) && negb adopted
    && negb ((json_length response <? own) && v) in
  resolve_conflicts requests_get self
  = (Ok (adopted, if reported then [node] else []),
     if adopted
     then Blockchain.mk (current_transactions self) (addresses self)
            (json_chain response) (nodes self)
     else self).
Proof.
  cbv zeta. unfold resolve_conflicts. run_M. rewrite Hnodes.
  assert (Hne : json_chain (requests_get node) <> []).
  { intros Hempty. rewrite Hempty in Hvalid. discriminate. }
  destruct (status_code (requests_get node) =? 200); [|reflexivity].
  cbn [andb].
  destruct (Z.of_nat (length (chain self)) <? json_length (requests_get node)).
  - rewrite Hvalid. cbn [andb]. destruct v.
    + destruct (json_chain (requests_get node)) as [|b c]; [contradiction|].
      cbn [negb andb]. unfold set_chain. rewrite Hnodes. reflexivity.
    + cbn [negb andb].
      destruct (json_length (requests_get node) <? Z.of_nat (length (chain self)));
        reflexivity.
  - cbn [andb negb].
    destruct (json_length (requests_get node) <? Z.of_nat (length (chain self))).
    + rewrite Hvalid. destruct v; reflexivity.
    + reflexivity.
Qed.

Lemma resolve_conflicts_first_answer_witness :
  resolve_conflicts peers (node_with ["b:5000"; "a:5000"])
  = (Ok (true, []),
     Blockchain.mk [] [] [genesis; second] ["b:5000"; "a:5000"]).
Proof.
  apply (resolve_conflicts_first_answer peers (node_with ["b:5000"; "a:5000"])
           "b:5000" ["a:5000"] true eq_refl).
  vm_compute. reflexivity.
Defined.

(** X23. The length that a neighbour reports is taken on trust. A
    neighbour that answers with one block and reports a length above the
    local one has its block adopted as the whole chain, however long the
    local chain is: the node forgets its own blocks, and keeps its ledger
    and its pool. *)
Theorem resolve_conflicts_trusts_reported_length
    (requests_get : string -> Response) (self : t) (node : string)
    (others : list string) (b : Block.t)
    (Hnodes : nodes self = node :: others)
    (Hstatus : status_code (requests_get node) = 200)
    (Hchain : json_chain (requests_get node) = [b])
    (Hreported : Z.of_nat (length (chain self)) < json_length (requests_get node)) :
  resolve_conflicts requests_get self
  = (Ok (true, []),
     Blockchain.mk (current_transactions self) (addresses self) [b] (nodes self)).
Proof.
  unfold resolve_conflicts. run_M. rewrite Hnodes, Hstatus, Hchain.
  change (200 =? 200) with true. cbv iota.
  destruct (Z.ltb_spec (Z.of_nat (length (chain self)))
              (json_length (requests_get node))); [|lia].
  cbn [valid_chain valid_chain_from lift]. unfold set_chain.
  rewrite Hnodes. reflexivity.
Qed.

Lemma resolve_conflicts_trusts_reported_length_witness :
  chain (snd (resolve_conflicts
                (fun _ => {| status_code := 200; json_length := 9;
                             json_chain := [unlinked] |})
                (Blockchain.mk [] [] [genesis; second] ["c:5000"])))
  = [unlinked].
Proof.
  rewrite (resolve_conflicts_trusts_reported_length
             (fun _ => {| status_code := 200; json_length := 9;
                          json_chain := [unlinked] |})
             (Blockchain.mk [] [] [genesis; second] ["c:5000"])
             "c:5000" [] unlinked eq_refl eq_refl eq_refl).
  - reflexivity.
  - simpl. lia.
Defined.

(** ** Hashes and what a peer makes of the served chain *)

Lemma length_string_append (s1 s2 : string) :
  String.length (String.append s1 s2) = (String.length s1 + String.length s2)%nat.
Proof. induction s1 as [|c s1 IH]; cbn; [reflexivity | rewrite IH; reflexivity]. Qed.

Lemma compress_length (h chunk : list Z) :
  length h = 8%nat -> length (hashlib.compress h chunk) = 8%nat.
Proof.
  intros Hh. unfold hashlib.compress. cbv zeta.
  rewrite length_map, length_combine, Hh. reflexivity.
Qed.

Lemma digest_length (msg : list Z) : length (hashlib.digest msg) = 8%nat.
Proof.
  unfold hashlib.digest. cbv zeta.
  generalize (hashlib.chunks (length (hashlib.pad msg)) (hashlib.pad msg)).
  assert (H0 : length hashlib.H0 = 8%nat) by reflexivity.
  revert H0. generalize hashlib.H0.
  intros h Hh cs. revert h Hh. induction cs as [|c cs IH]; intros h Hh; cbn.
  - exact Hh.
  - apply IH, compress_length, Hh.
Qed.

Lemma hex_word_length (n : nat) (w : Z) : String.length (hashlib.hex_word n w) = n.
Proof. induction n as [|n IH]; cbn; [reflexivity | rewrite IH; reflexivity]. Qed.

Lemma sha256_hexdigest_length (s : string) :
  String.length (hashlib.sha256_hexdigest s) = 64%nat.
Proof.
  unfold hashlib.sha256_hexdigest.
  pose proof (digest_length (hashlib.bytes_of_string s)) as Hd.
  assert (Hall : forall ws,
             String.length
               (fold_right (fun w acc => String.append (hashlib.hex_word 8 w) acc)
                  EmptyString ws)
             = (8 * length ws)%nat).
  { induction ws as [|w ws IH]; [reflexivity|].
    cbn [fold_right]. rewrite length_string_append, hex_word_length, IH.
    cbn [length]. lia. }
  rewrite Hall, Hd. reflexivity.
Qed.

Lemma hash_truthy (block : list (string * json)) :
  truthy (JStr (hash block)) = true.
Proof.
  pose proof (sha256_hexdigest_length (dumps (JDict block))) as Hlen.
  unfold truthy, hash.
  destruct (hashlib.sha256_hexdigest (dumps (JDict block))); [discriminate | reflexivity].
Qed.

(** X24. The hash of a block is a text of 64 characters, whatever the
    block holds: it is never the empty text, in whose place [new_block]
    would put the hash of the last block. *)
Theorem hash_has_64_characters (block : list (string * json)) :
  String.length (hash block) = 64%nat /\ hash block <> "".
Proof.
  pose proof (sha256_hexdigest_length (dumps (JDict block))) as Hlen.
  split; [exact Hlen|]. unfold hash. intros Hempty. rewrite Hempty in Hlen.
  discriminate.
Qed.

(** The digest looks at the bindings, not at their order. *)
Lemma hash_permutation (d1 d2 : list (string * json)) :
  Permutation d1 d2 -> List.NoDup (map fst d1) -> hash d1 = hash d2.
Proof.
  intros Hp Hnd. unfold hash. f_equal. cbn [dumps].
  rewrite (sorted_permutation
             (map (fun kv => (fst kv, dumps (snd kv))) d1)
             (map (fun kv => (fst kv, dumps (snd kv))) d2)).
  - reflexivity.
  - apply Permutation.Permutation_map, Hp.
  - rewrite List.map_map. exact Hnd.
Qed.

Lemma mapM_entry_json_TxDict (js : list json) :
  mapM Block.entry_json (map TxDict js) = Ok js.
Proof.
  induction js as [|j js IH]; [reflexivity|]. cbn. rewrite IH. reflexivity.
Qed.

(** The hash that [valid_chain] computes of a received block is the hash
    of the dictionary that was served. *)
Lemma hash_block_received (index proof : Z) (timestamp : number)
    (previous_hash : json) (transactions : list json) :
  hash_block (Block.mk index timestamp (map TxDict transactions) proof previous_hash)
  = Ok (hash [ ("index", JInt index); ("timestamp", number_json timestamp);
               ("proof", JInt proof); ("previous_hash", previous_hash);
               ("transactions", JList transactions) ]).
Proof.
  unfold hash_block, Block.items.
  cbn [Block.transactions Block.index Block.timestamp Block.proof Block.previous_hash].
  rewrite mapM_entry_json_TxDict. cbn [mbind result_bind fmap result_fmap].
  apply (f_equal Ok). apply hash_permutation.
  - do 2 apply perm_skip.
    apply (Permutation.Permutation_cons_append
             [("proof", JInt proof); ("previous_hash", previous_hash)]).
  - cbn. repeat constructor; cbn; intuition discriminate.
Qed.

(** What a peer receives of a block that is served. *)
Lemma block_served_received (l : list Address.t) (b : Block.t)
    (served : list (string * json)) :
  block_to_jsonSerializable l b = Ok served ->
  exists transactions,
    served = [ ("index", JInt (Block.index b));
               ("timestamp", number_json (Block.timestamp b));
               ("proof", JInt (Block.proof b));
               ("previous_hash", Block.previous_hash b);
               ("transactions", JList transactions) ]
    /\ as_received served
       = Some (Block.mk (Block.index b) (Block.timestamp b)
                 (map TxDict transactions) (Block.proof b) (Block.previous_hash b)).
Proof.
  unfold block_to_jsonSerializable.
  destruct (transactions_to_jsonSerializable l (Block.transactions b)) as [txs|];
    [|discriminate].
  cbn [mbind result_bind]. intros [= <-]. exists (map JDict txs).
  split; [reflexivity|]. destruct (Block.timestamp b); reflexivity.
Qed.

(** X25. A block that is served and the block that the peer makes of it
    have the same hash: what [valid_chain] of the peer computes for the
    received block is the hash of the served dictionary, the value that
    [mine] puts into the next block. The peer finds the index, the time
    stamp, the proof and the previous hash of the block as they are. *)
Theorem served_block_keeps_its_hash (l : list Address.t) (b : Block.t)
    (served : list (string * json))
    (Hserved : block_to_jsonSerializable l b = Ok served) :
  exists b',
    as_received served = Some b'
    /\ hash_block b' = Ok (hash served)
    /\ Block.index b' = Block.index b
    /\ Block.timestamp b' = Block.timestamp b
    /\ Block.proof b' = Block.proof b
    /\ Block.previous_hash b' = Block.previous_hash b
    /\ length (Block.transactions b') = length (Block.transactions b).
Proof.
  pose proof Hserved as Hcopy.
  apply block_served_received in Hcopy. destruct Hcopy as (txs & -> & Hreceived).
  eexists. split; [exact Hreceived|]. rewrite hash_block_received.
  do 5 (split; [reflexivity|]).
  cbn [Block.transactions]. rewrite length_map.
  revert Hserved. unfold block_to_jsonSerializable.
  destruct (transactions_to_jsonSerializable l (Block.transactions b)) as [out|] eqn:Hout;
    [|discriminate].
  cbn [mbind result_bind]. intros [= <-]. rewrite length_map.
  eapply mapM_Ok_length, Hout.
Qed.

Lemma served_block_keeps_its_hash_witness :
  exists b',
    as_received served_genesis = Some b'
    /\ hash_block b' = Ok (hash served_genesis)
    /\ Block.index b' = 0
    /\ Block.timestamp b' = 10
    /\ Block.proof b' = 100
    /\ Block.previous_hash b' = JInt 1
    /\ length (Block.transactions b') = 1%nat.
Proof.
  apply (served_block_keeps_its_hash [Address.mk alice 1]
           (Block.mk 0 10 [TxObj (Transaction.mk Zero (Obj 0) 1 None None true)]
              100 (JInt 1))
           served_genesis).
  reflexivity.
Defined.

(** ** Mining *)

(** A call of [mine] that answers, step by step. *)
Lemma mine_success `{Ecdsa} (public_key : string) (now : Z) (fuel : nat)
    (self self' : t) (response : list (string * json)) :
  mine public_key now fuel self = (Ok (Some response), self') ->
  let self1 := snd (new_transaction "0" public_key 1 None None self) in
  exists tip last_json proof served transactions,
    let block :=
      Block.mk (Z.of_nat (length (chain self))) now
        (map TxObj (current_transactions self1)) proof (JStr (hash last_json)) in
    last (chain self) = Some tip
    /\ block_to_jsonSerializable (addresses self) tip = Ok last_json
    /\ proof_of_work fuel (Block.proof tip) = Some proof
    /\ (exists index, fst (new_transaction "0" public_key 1 None None self) = Ok index)
    /\ self' = Blockchain.mk [] (addresses self1) (chain self ++ [block]) (nodes self)
    /\ chain_to_jsonSerializable (addresses self1) (chain self ++ [block]) = Ok served
    /\ transactions_to_jsonSerializable (addresses self1)
         (map TxObj (current_transactions self1)) = Ok transactions
    /\ response = [ ("message", JStr "New block forged");
                    ("index", JInt (Z.of_nat (length (chain self))));
                    ("transactions", JList (map JDict transactions));
                    ("proof", JInt proof);
                    ("previous_hash", JStr (hash last_json)) ].
Proof.
  cbv zeta. unfold mine, last_block. rewrite !bind_eq. unfold read at 1.
  destruct (last (chain self)) as [last_|] eqn:Hlast; [|discriminate].
  cbn [mret M_ret]. rewrite bind_eq. unfold read at 1. rewrite bind_eq.
  unfold lift at 1.
  destruct (block_to_jsonSerializable (addresses self) last_) as [last_json|] eqn:Hjson;
    [|discriminate].
  destruct (proof_of_work fuel (Block.proof last_)) as [proof|] eqn:Hproof;
    [|discriminate].
  rewrite bind_eq.
  destruct (new_transaction_frame "0" public_key 1 None None self) as [Hchain Hnodes].
  destruct (new_transaction "0" public_key 1 None None self) as [[index|e] self1];
    [|discriminate].
  cbn [fst snd] in *. rewrite bind_eq.
  assert (Hforge :
    new_block now proof (Some (JStr (hash last_json))) self1
    = (Ok (Block.mk (Z.of_nat (length (chain self))) now
             (map TxObj (current_transactions self1)) proof (JStr (hash last_json))),
       Blockchain.mk [] (addresses self1)
         (chain self ++ [Block.mk (Z.of_nat (length (chain self))) now
                           (map TxObj (current_transactions self1)) proof
                           (JStr (hash last_json))])
         (nodes self))).
  { unfold new_block. run_M. rewrite hash_truthy.
    unfold set_chain, set_current_transactions.
    cbn [chain current_transactions addresses nodes].
    rewrite Hchain, Hnodes. destruct (chain self); [discriminate | reflexivity]. }
  unfold new_block_saved. rewrite bind_eq, Hforge.
  unfold update_chainFile. run_M. cbn [chain addresses].
  destruct (chain_to_jsonSerializable (addresses self1) _) as [served|] eqn:Hserved;
    [|discriminate].
  cbn [Block.transactions Block.index Block.proof Block.previous_hash addresses].
  destruct (transactions_to_jsonSerializable (addresses self1) _) as [txs|] eqn:Htxs;
    [|discriminate].
  intros [= <- <-].
  exists last_, last_json, proof, served, txs.
  do 3 (split; [reflexivity || assumption|]).
  split; [eauto|]. split; [reflexivity|].
  split; [assumption|]. split; reflexivity.
Qed.

(** A call whose sender is ['0'] and whose amount is not zero answers
    with an index whenever it answers. *)
Lemma sentinel_call_answers `{Ecdsa} (r : string) (a : Z)
    (sig msg : option string) (self : t) (index : option Z) :
  a <> 0 ->
  fst (new_transaction "0" r a sig msg self) = Ok index ->
  admitted (fst (new_transaction "0" r a sig msg self)) = true.
Proof.
  intros Ha. pose proof (new_transaction_eq "0" r a sig msg self) as Heq.
  change (resolve "0" (addresses self)) with (Some Zero) in Heq.
  cbv beta iota zeta in Heq.
  assert (Hvalid : Transaction.is_valid (addresses (with_recipient r self))
                     (Transaction.init Zero (recipient_party r self) a sig msg)
                   = Ok true).
  { unfold Transaction.is_valid. cbn.
    destruct (Z.eqb_spec a 0); [contradiction | reflexivity]. }
  rewrite Hvalid in Heq.
  cbn [Transaction.is_signature_valid Transaction.init Transaction.sender] in Heq.
  rewrite Heq.
  destruct (fst (getTransactionsByAddress _ _)) as [txs|e]; [|discriminate].
  destruct (execute_transaction _ _) as [[tx'|e] self2]; [reflexivity | discriminate].
Qed.

(** X26. What [mine] has done when it answers. The chain has one block
    more, which carries the length of the old chain as its index, the
    least proof that is valid after the proof of the last block, the hash
    of the last block as it is served, and the pending transactions
    followed by the reward: one coin from ['0'] to the first wallet named
    by the key of the node. The pool is empty, the wallet holds one coin
    more, no other balance has moved and the sum of all amounts has grown
    by one. *)
Theorem mine_forges_block `{Ecdsa} (public_key : string) (now : Z) (fuel : nat)
    (self self' : t) (response : list (string * json))
    (Hmine : mine public_key now fuel self = (Ok (Some response), self')) :
  exists tip last_json proof j,
    last (chain self) = Some tip
    /\ block_to_jsonSerializable (addresses self) tip = Ok last_json
    /\ valid_proof (Block.proof tip) proof = true
    /\ (forall q, 0 <= q < proof -> valid_proof (Block.proof tip) q = false)
    /\ public_key <> "0"
    /\ find_index public_key (addresses self') 0 = Some j
    /\ chain self'
       = (chain self
          ++ [Block.mk (Z.of_nat (length (chain self))) now
                (map TxObj (current_transactions self
                            ++ [Transaction.mk Zero (Obj j) 1 None None true]))
                proof (JStr (hash last_json))])%list
    /\ current_transactions self' = []
    /\ nodes self' = nodes self
    /\ supply (addresses self') = supply (addresses self) + 1
    /\ (forall n, n <> "0" ->
          balance n (addresses self')
          = balance n (addresses self) + (if String.eqb public_key n then 1 else 0))
    /\ dict_get "index" response = Some (JInt (Z.of_nat (length (chain self)))).
Proof.
  destruct (mine_success _ _ _ _ _ _ Hmine)
    as (tip & last_json & proof & served & txs
        & Htip & Hjson & Hproof & [index Hindex] & -> & _ & _ & ->).
  exists tip, last_json, proof.
  assert (Hadm : admitted (fst (new_transaction "0" public_key 1 None None self)) = true).
  { eapply sentinel_call_answers; [discriminate | exact Hindex]. }
  destruct (new_transaction_outcome "0" public_key 1 None None self) as [_ Hyes].
  cbv zeta in Hyes.
  destruct (Hyes Hadm)
    as (sp & j & tx' & self2 & Hsp & Hrp & Hkey & _ & _ & Hex & Hself1).
  assert (sp = Zero) as -> by (unfold resolve in Hsp; cbn in Hsp; congruence).
  destruct (execute_transaction_effect _ _ _ _ Hex) as (Htx' & Hnames & _).
  cbn [Transaction.init Transaction.sender Transaction.recipient Transaction.amount
       Transaction.message Transaction.signature] in Htx'.
  exists j. split; [exact Htip|]. split; [exact Hjson|].
  destruct (proof_of_work_from_sound _ _ _ _ Hproof) as (_ & Hvalid & Hleast).
  split; [exact Hvalid|]. split; [exact Hleast|]. split; [exact Hkey|].
  cbn [addresses chain current_transactions nodes].
  split.
  { rewrite Hself1. cbn [addresses set_current_transactions].
    rewrite (find_index_names _ _ _ Hnames).
    destruct (with_recipient_ledger "0" public_key Zero self eq_refl)
      as (_ & _ & _ & [[Hz _] | (j' & Hj' & _ & Hfound)]); [congruence|].
    rewrite Hfound. congruence. }
  split.
  { rewrite Hself1 at 1. cbn [current_transactions set_current_transactions].
    rewrite Htx'. reflexivity. }
  split; [reflexivity|]. split; [reflexivity|].
  split.
  { rewrite new_transaction_supply, Hadm. reflexivity. }
  split; [|reflexivity].
  intros n Hn.
  destruct (new_transaction_ledger "0" public_key 1 None None self) as (Hbal & _).
  cbv zeta in Hbal. rewrite (Hbal n Hn), Hadm. cbn [andb].
  destruct (String.eqb_spec "0" n); [congruence | lia].
Qed.

Lemma mine_forges_block_witness :
  exists tip last_json proof j,
    last (chain (node_with [])) = Some tip
    /\ block_to_jsonSerializable (addresses (node_with [])) tip = Ok last_json
    /\ valid_proof (Block.proof tip) proof = true
    /\ (forall q, 0 <= q < proof -> valid_proof (Block.proof tip) q = false)
    /\ alice <> "0"
    /\ find_index alice
         (addresses (snd (@mine (accepts_only "") alice 11 3 (node_with [])))) 0
       = Some j
    /\ chain (snd (@mine (accepts_only "") alice 11 3 (node_with [])))
       = (chain (node_with [])
          ++ [Block.mk (Z.of_nat (length (chain (node_with [])))) 11
                (map TxObj (current_transactions (node_with [])
                            ++ [Transaction.mk Zero (Obj j) 1 None None true]))
                proof (JStr (hash last_json))])%list
    /\ current_transactions (snd (@mine (accepts_only "") alice 11 3 (node_with [])))
       = []
    /\ nodes (snd (@mine (accepts_only "") alice 11 3 (node_with [])))
       = nodes (node_with [])
    /\ supply (addresses (snd (@mine (accepts_only "") alice 11 3 (node_with []))))
       = supply (addresses (node_with [])) + 1
    /\ (forall n, n <> "0" ->
          balance n (addresses (snd (@mine (accepts_only "") alice 11 3 (node_with []))))
          = balance n (addresses (node_with []))
            + (if String.eqb alice n then 1 else 0))
    /\ dict_get "index" mined_second
       = Some (JInt (Z.of_nat (length (chain (node_with []))))).
Proof.
  apply (@mine_forges_block (accepts_only "") alice 11 3 (node_with [])).
  vm_compute. reflexivity.
Defined.
Lemma mapM_app_Ok {A B : Type} (f : A -> result B) (l1 l2 : list A) (ys : list B) :
  mapM f (l1 ++ l2) = Ok ys ->
  exists y1 y2, mapM f l1 = Ok y1 /\ mapM f l2 = Ok y2 /\ ys = (y1 ++ y2)%list.
Proof.
  revert ys. induction l1 as [|x l1 IH]; intros ys; cbn [app].
  - intros Hl2. exists [], ys. auto.
  - cbn. destruct (f x) as [y|]; [|discriminate]. cbn.
    destruct (mapM f (l1 ++ l2)) as [ys'|] eqn:Hrest; [|discriminate]. cbn.
    intros [= <-]. destruct (IH ys' eq_refl) as (y1 & y2 & -> & H2 & ->).
    exists (y :: y1), y2. cbn. auto.
Qed.

Lemma mapM_singleton {A B : Type} (f : A -> result B) (x : A) :
  mapM f [x] = (y ← f x; Ok [y]).
Proof. cbn. destruct (f x); reflexivity. Qed.

Lemma mapM_last_Ok {A B : Type} (f : A -> result B) (l : list A) (ys : list B) (x : A) :
  mapM f l = Ok ys -> last l = Some x ->
  exists y, f x = Ok y /\ last ys = Some y.
Proof.
  intros Hl Hx. apply last_Some in Hx. destruct Hx as [l' ->].
  apply mapM_app_Ok in Hl. destruct Hl as (y1 & y2 & _ & Hy2 & ->).
  rewrite mapM_singleton in Hy2. destruct (f x) as [y|]; [|discriminate].
  injection Hy2 as <-. exists y. split; [reflexivity | apply last_snoc].
Qed.

(** X27. Mining keeps the served chain valid. When a peer judges the
    chain that the node serves to be valid, and the clock of the node is
    not behind the time stamp of its last block, then after a call of
    [mine] that answers, the node serves one block more and the peer
    judges the longer chain to be valid too: the block that [mine] forges
    names the hash that [valid_chain] computes for the block before it,
    and carries a proof that [valid_proof] accepts. *)
Theorem mine_keeps_served_chain_valid `{Ecdsa} (public_key : string) (now : Z)
    (fuel : nat) (self self' : t) (response : list (string * json))
    (served : list (list (string * json))) (n : Z) (held : list Block.t)
    (Hmine : mine public_key now fuel self = (Ok (Some response), self'))
    (Hserved : fst (full_chain self) = Ok (served, n))
    (Hheld : chain_received served held)
    (Hvalid : valid_chain held = Ok true)
    (Hclock : forall tip, last (chain self) = Some tip ->
                          number_lt now (Block.timestamp tip) = false) :
  exists block held_block,
    fst (full_chain self') = Ok ((served ++ [block])%list, n + 1)
    /\ chain_received (served ++ [block]) (held ++ [held_block])
    /\ valid_chain (held ++ [held_block]) = Ok true.
Proof.
  destruct (mine_success _ _ _ _ _ _ Hmine)
    as (tip & last_json & proof & served1 & txs
        & Htip & Hjson & Hproof & _ & -> & Hserved1 & _ & _).
  destruct (new_transaction_names "0" public_key 1 None None self) as [sfx Hnames].
  revert Hserved. unfold full_chain. run_M. cbn [chain addresses].
  destruct (chain_to_jsonSerializable (addresses self) (chain self))
    as [served0|] eqn:Hserved0; [|discriminate].
  cbn [fst]. intros [= -> <-]. rewrite Hserved1.
  pose proof Hserved1 as Hparts. apply mapM_app_Ok in Hparts.
  destruct Hparts as (y1 & y2 & Hy1 & Hy2 & ->).
  fold (chain_to_jsonSerializable
          (addresses (snd (new_transaction "0" public_key 1 None None self)))
          (chain self)) in Hy1.
  rewrite (chain_served_names _ _ sfx _ _ Hnames Hserved0) in Hy1.
  injection Hy1 as <-.
  rewrite mapM_singleton in Hy2.
  destruct (block_to_jsonSerializable _ _) as [block|] eqn:Hblock in Hy2;
    [|discriminate].
  injection Hy2 as <-.
  destruct (block_served_received _ _ _ Hblock) as (txs' & Hshape & Hreceived).
  cbn [Block.index Block.timestamp Block.proof Block.previous_hash] in Hreceived.
  exists block. eexists. split.
  { rewrite length_app, Nat2Z.inj_add. reflexivity. }
  split.
  { apply Forall2_app; [exact Hheld|]. constructor; [exact Hreceived | constructor]. }
  (* the last block that the peer holds is the served form of the tip *)
  destruct (mapM_last_Ok _ _ _ _ Hserved0 Htip) as (tip_json & Htip_json & Hlast_served).
  rewrite Hjson in Htip_json. injection Htip_json as <-.
  destruct (block_served_received _ _ _ Hjson) as (tip_txs & Htip_shape & Htip_received).
  assert (Hlast_held : last held
                       = Some (Block.mk (Block.index tip) (Block.timestamp tip)
                                 (map TxDict tip_txs) (Block.proof tip)
                                 (Block.previous_hash tip))).
  { apply last_Some in Hlast_served. destruct Hlast_served as [served' ->].
    apply Forall2_app_inv_l in Hheld.
    destruct Hheld as (k1 & k2 & _ & Hk2 & ->).
    inversion Hk2 as [|? b ? ? Hb Hnil]; subst. inversion Hnil; subst.
    rewrite Htip_received in Hb. injection Hb as <-. apply last_snoc. }
  destruct held as [|first rest]; [discriminate|].
  cbn [app valid_chain] in *. apply valid_chain_from_app.
  split; [exact Hvalid|]. split; [|reflexivity].
  intros a Ha. rewrite Hlast_held in Ha. injection Ha as <-.
  unfold pair_ok.
  cbn [Block.index Block.timestamp Block.proof Block.previous_hash].
  split.
  { exists (hash last_json). split; [|reflexivity].
    rewrite hash_block_received, Htip_shape. reflexivity. }
  split.
  { apply (proof_of_work_from_sound _ _ _ _ Hproof). }
  apply Hclock, Htip.
Qed.

Lemma mine_keeps_served_chain_valid_witness :
  exists block held_block,
    fst (full_chain (snd (@mine (accepts_only "") alice 11 3 (node_with []))))
    = Ok (([served_first] ++ [block])%list, 1 + 1)
    /\ chain_received ([served_first] ++ [block]) ([genesis] ++ [held_block])
    /\ valid_chain ([genesis] ++ [held_block]) = Ok true.
Proof.
  apply (@mine_keeps_served_chain_valid (accepts_only "") alice 11 3
           (node_with []) (snd (@mine (accepts_only "") alice 11 3 (node_with [])))
           mined_second [served_first] 1 [genesis]).
  - vm_compute. reflexivity.
  - reflexivity.
  - repeat constructor.
  - reflexivity.
  - intros tip [= <-]. reflexivity.
Defined.

(** ** The endpoint for new transactions *)

(** X28. The message of the endpoint [new_transaction] on a chain whose
    blocks carry their positions as indices: an admitted transaction is
    announced for the block that [new_block] forges next, whose index is
    the length of the chain; a call that is turned away is answered with
    ['Invalid transaction'] and leaves the pool as it was; and an
    exception of [new_transaction] is not caught. *)
Theorem new_transaction_endpoint_message `{Ecdsa} (sender recipient : string)
    (amount : Z) (signature message : option string) (self : t)
    (Hindexed : chain_indexed (chain self)) :
  snd (new_transaction_endpoint sender recipient amount signature message self)
  = snd (new_transaction sender recipient amount signature message self)
  /\ match fst (new_transaction sender recipient amount signature message self) with
     | Ok (Some _) =>
         fst (new_transaction_endpoint sender recipient amount signature message self)
         = Ok (String.append "Transaction added to the Block "
                 (builtins.str (Z.of_nat (length (chain self)))))
     | Ok None =>
         fst (new_transaction_endpoint sender recipient amount signature message self)
         = Ok "Invalid transaction"
         /\ current_transactions
              (snd (new_transaction sender recipient amount signature message self))
            = current_transactions self
     | Raise e =>
         fst (new_transaction_endpoint sender recipient amount signature message self)
         = Raise e
     end.
Proof.
  unfold new_transaction_endpoint. rewrite bind_eq.
  pose proof (new_transaction_returns sender recipient amount signature message self)
    as Hreturns.
  destruct (new_transaction_ledger sender recipient amount signature message self)
    as (_ & _ & _ & Hpool).
  cbv zeta in Hpool.
  destruct (new_transaction sender recipient amount signature message self)
    as [[[index|]|e] self1]; cbn [fst snd] in *.
  - split; [reflexivity|]. rewrite (Hreturns index eq_refl).
    rewrite (chain_indexed_last _ Hindexed). reflexivity.
  - split; [reflexivity|]. split; [reflexivity|]. apply Hpool. reflexivity.
  - split; reflexivity.
Qed.

Lemma new_transaction_endpoint_message_witness :
  fst (@new_transaction_endpoint (accepts_only "") "0" "B" 5 None None
         (@started (accepts_only "")))
  = Ok "Transaction added to the Block 1".
Proof.
  destruct (@new_transaction_endpoint_message (accepts_only "") "0" "B" 5 None None
              (@started (accepts_only ""))) as [_ Hmessage].
  - intros [|[|i]] b; [intros [= <-]; reflexivity | discriminate | discriminate].
  - exact Hmessage.
Defined.

(** ** Loading the chain file *)

Lemma getOrCreateAddress_with_recipient (r : string) (self : t) :
  getOrCreateAddress r self = (Ok (recipient_party r self), with_recipient r self).
Proof.
  rewrite getOrCreateAddress_eq. unfold with_recipient, recipient_party.
  destruct (resolve r (addresses self)); reflexivity.
Qed.

(** One transaction of the file, step by step. *)
Lemma init_transaction_eq `{Ecdsa} (e : Entry) (self : t) :
  init_transaction e self =
  let self1 := with_recipient (entry_sender e) self in
  let sp := recipient_party (entry_sender e) self in
  let self2 := with_recipient (entry_recipient e) self1 in
  let rp := recipient_party (entry_recipient e) self1 in
  let tx := Transaction.init sp rp (entry_amount e) (entry_signature e) None in
  match fst (getTransactionsByAddress (arg_of_party sp) self2) with
  | Raise err => (Raise err, self2)
  | Ok txs =>
      match Transaction.is_valid (addresses self2) tx with
      | Raise err => (Raise err, self2)
      | Ok false => execute_transaction tx self2
      | Ok true =>
          match Transaction.is_signature_valid (addresses self2) tx txs with
          | Raise err => (Raise err, self2)
          | Ok _ => execute_transaction tx self2
          end
      end
  end.
Proof.
  cbv zeta. unfold init_transaction. rewrite bind_eq.
  assert (Hsender :
    (if String.eqb (entry_sender e) "0" then mret Zero
     else getOrCreateAddress (entry_sender e)) self
    = (Ok (recipient_party (entry_sender e) self),
       with_recipient (entry_sender e) self)).
  { destruct (String.eqb_spec (entry_sender e) "0") as [-> | Hne]; [reflexivity|].
    apply getOrCreateAddress_with_recipient. }
  rewrite Hsender. rewrite bind_eq, getOrCreateAddress_with_recipient.
  cbv zeta. rewrite bind_eq.
  pose proof (getTransactionsByAddress_state
                (arg_of_party (recipient_party (entry_sender e) self))
                (with_recipient (entry_recipient e)
                   (with_recipient (entry_sender e) self))) as Hstate.
  destruct (getTransactionsByAddress _ _) as [[txs|err] st]; cbn [fst snd] in *;
    subst st; [|reflexivity].
  run_M.
  destruct (Transaction.is_valid _ _) as [[|]|err]; [| |reflexivity].
  - destruct (Transaction.is_signature_valid _ _ _) as [b|err]; reflexivity.
  - reflexivity.
Qed.

Lemma find_index_name (s : string) (l : list Address.t) (i : nat) :
  find_index s l 0 = Some i -> names l !! i = Some s.
Proof.
  intros Hi. destruct (find_index_Some _ _ _ _ Hi) as (_ & x & Hx & <- & _).
  rewrite Nat.sub_0_r in Hx. rewrite list_lookup_fmap, Hx. reflexivity.
Qed.

(** A transaction between parties that the ledger knows, once carried
    out: the balances, and the transaction as it is served. *)
Lemma execute_transaction_found (s r : string) (sp rp : party) (a : Z)
    (sig msg : option string) (self self' : t) (tx' : Transaction.t) :
  (sp = Zero /\ s = "0")
  \/ (exists i, sp = Obj i /\ s <> "0" /\ find_index s (addresses self) 0 = Some i) ->
  (rp = Zero /\ r = "0")
  \/ (exists j, rp = Obj j /\ r <> "0" /\ find_index r (addresses self) 0 = Some j) ->
  execute_transaction (Transaction.init sp rp a sig msg) self = (Ok tx', self') ->
  (forall n, n <> "0" ->
     balance n (addresses self')
     = balance n (addresses self)
       + (if String.eqb r n then a else 0) - (if String.eqb s n then a else 0))
  /\ names (addresses self') = names (addresses self)
  /\ transaction_to_jsonSerializable (addresses self') (TxObj tx')
     = Ok [ ("sender", JStr s); ("recipient", JStr r); ("amount", JInt a);
            ("message", json_of_option msg); ("signature", json_of_option sig) ].
Proof.
  intros Hsp Hrp Hex.
  destruct (execute_transaction_effect _ _ _ _ Hex) as (Htx' & Hnames & _).
  cbn [Transaction.init Transaction.sender Transaction.recipient Transaction.amount
       Transaction.message Transaction.signature] in Htx'.
  destruct Hrp as [[-> ->] | (j & -> & Hr0 & Hj)].
  { rewrite execute_transaction_eq in Hex. cbv zeta in Hex.
    cbn [Transaction.init Transaction.sender Transaction.recipient] in Hex.
    destruct sp as [|i]; [discriminate|].
    destruct (addresses self !! i); discriminate. }
  assert (Hserved_r : Address.address <$> deref (addresses self') j = Ok r).
  { rewrite name_of_reference, Hnames, (find_index_name _ _ _ Hj). reflexivity. }
  split; [|split; [exact Hnames|]].
  - intros n Hn. rewrite execute_transaction_eq in Hex. cbv zeta in Hex.
    cbn [Transaction.init Transaction.sender Transaction.recipient
         Transaction.amount] in Hex.
    destruct Hsp as [[-> ->] | (i & -> & Hs0 & Hi)].
    + destruct (addresses self !! j); [|discriminate].
      injection Hex as _ <-. cbn [addresses set_addresses].
      rewrite <- (Nat.sub_0_r j) at 1.
      rewrite (balance_bump r n a _ 0%nat j Hj), (String.eqb_sym n r).
      destruct (String.eqb_spec "0" n); [congruence | lia].
    + destruct (addresses self !! i); [|discriminate].
      cbn [addresses set_addresses] in Hex.
      assert (Hj2 : find_index r (bump i (- a) (addresses self)) 0 = Some j).
      { rewrite (find_index_names r _ (addresses self)); [exact Hj|].
        apply names_bump. }
      destruct (bump i (- a) (addresses self) !! j); [|discriminate].
      injection Hex as _ <-. cbn [addresses set_addresses].
      rewrite <- (Nat.sub_0_r j) at 1.
      rewrite (balance_bump r n a _ 0%nat j Hj2).
      rewrite <- (Nat.sub_0_r i) at 1.
      rewrite (balance_bump s n (- a) _ 0%nat i Hi).
      rewrite (String.eqb_sym n r), (String.eqb_sym n s).
      destruct (String.eqb r n), (String.eqb s n); lia.
  - rewrite Htx'. unfold transaction_to_jsonSerializable, party_address.
    cbn [Transaction.sender Transaction.recipient Transaction.amount
         Transaction.message Transaction.signature].
    rewrite Hserved_r.
    destruct Hsp as [[-> ->] | (i & -> & Hs0 & Hi)]; [reflexivity|].
    rewrite name_of_reference, Hnames, (find_index_name _ _ _ Hi). reflexivity.
Qed.

Lemma with_recipient_ledger_ok (r : string) (self : t) :
  ledger_ok (addresses self) -> ledger_ok (addresses (with_recipient r self)).
Proof.
  intros [Hnd H0].
  destruct (with_recipient_ledger "0" r Zero self eq_refl) as (_ & Hnames & _).
  cbv zeta in Hnames. unfold ledger_ok.
  destruct Hnames as [-> | (Hr & Hnotin & ->)]; [auto|]. split.
  - apply List.NoDup_app; [assumption | repeat constructor; intros [] | ].
    intros x Hx [<- | []]. contradiction.
  - rewrite in_app_iff. intros [? | [? | []]]; [contradiction | congruence].
Qed.

Lemma with_recipient_names (r : string) (self : t) :
  exists sfx, names (addresses (with_recipient r self))
              = (names (addresses self) ++ sfx)%list.
Proof.
  unfold with_recipient. destruct (resolve r (addresses self)).
  - exists []. rewrite app_nil_r. reflexivity.
  - exists [r]. cbn [addresses set_addresses]. rewrite map_app. reflexivity.
Qed.

(** One transaction of the file that was loaded, seen from the ledger. *)
Lemma init_transaction_ledger `{Ecdsa} (e : Entry) (self self' : t)
    (tx' : Transaction.t) :
  init_transaction e self = (Ok tx', self') ->
  (forall n, n <> "0" ->
     balance n (addresses self')
     = balance n (addresses self)
       + (if String.eqb (entry_recipient e) n then entry_amount e else 0)
       - (if String.eqb (entry_sender e) n then entry_amount e else 0))
  /\ (exists sfx, names (addresses self') = (names (addresses self) ++ sfx)%list)
  /\ (ledger_ok (addresses self) -> ledger_ok (addresses self'))
  /\ transaction_to_jsonSerializable (addresses self') (TxObj tx')
     = Ok (entry_dict (without_message e))
  /\ chain self' = chain self
  /\ current_transactions self' = current_transactions self
  /\ nodes self' = nodes self.
Proof.
  rewrite init_transaction_eq. cbv zeta.
  set (s := entry_sender e). set (r := entry_recipient e).
  set (self1 := with_recipient s self).
  set (self2 := with_recipient r self1).
  set (sp := recipient_party s self).
  set (rp := recipient_party r self1).
  set (tx := Transaction.init sp rp (entry_amount e) (entry_signature e) None).
  intros Hdone.
  assert (Hex : execute_transaction tx self2 = (Ok tx', self')).
  { destruct (fst (getTransactionsByAddress (arg_of_party sp) self2)) as [txs|];
      [|discriminate].
    destruct (Transaction.is_valid (addresses self2) tx) as [[|]|]; [| |discriminate].
    - destruct (Transaction.is_signature_valid (addresses self2) tx txs);
        [exact Hdone | discriminate].
    - exact Hdone. }
  clear Hdone.
  destruct (with_recipient_ledger "0" s Zero self eq_refl)
    as (Hbal1 & _ & _ & Hsp1).
  cbv zeta in Hbal1. fold self1 sp in Hbal1, Hsp1.
  assert (Hs1 : resolve s (addresses self1) = Some sp).
  { destruct Hsp1 as [[-> ->] | (i & -> & Hs0 & Hi)]; [reflexivity|].
    unfold resolve. destruct (String.eqb_spec s "0"); [contradiction|].
    rewrite Hi. reflexivity. }
  destruct (with_recipient_ledger s r sp self1 Hs1) as (Hbal2 & _ & Hsp2 & Hrp2).
  cbv zeta in Hbal2. fold self2 rp in Hbal2, Hsp2, Hrp2.
  destruct (execute_transaction_found s r sp rp _ _ _ _ _ _ Hsp2 Hrp2 Hex)
    as (Hbal & Hnames & Hserved).
  destruct (execute_transaction_effect _ _ _ _ Hex) as (_ & _ & _ & Hcur & Hchain & Hnodes).
  destruct (with_recipient_frame s self) as (Hc1 & Hn1 & Hp1).
  destruct (with_recipient_frame r self1) as (Hc2 & Hn2 & Hp2).
  fold self1 in Hc1, Hn1, Hp1. fold self2 in Hc2, Hn2, Hp2.
  split; [|split; [|split; [|split; [exact Hserved|]]]].
  - intros n Hn. rewrite (Hbal n Hn), Hbal2, Hbal1. reflexivity.
  - destruct (with_recipient_names s self) as [sfx1 H1].
    destruct (with_recipient_names r self1) as [sfx2 H2].
    fold self1 in H1. fold self2 in H2.
    exists (sfx1 ++ sfx2)%list. rewrite Hnames, H2, H1, app_assoc. reflexivity.
  - intros Hok. unfold ledger_ok. rewrite Hnames.
    apply (with_recipient_ledger_ok r self1), (with_recipient_ledger_ok s self), Hok.
  - split; [congruence|]. split; congruence.
Qed.

Lemma mapM_app_intro {A B : Type} (f : A -> result B) (l1 l2 : list A)
    (y1 y2 : list B) :
  mapM f l1 = Ok y1 -> mapM f l2 = Ok y2 -> mapM f (l1 ++ l2) = Ok (y1 ++ y2)%list.
Proof.
  revert y1. induction l1 as [|x l1 IH]; intros y1; cbn [app].
  - intros [= <-]. auto.
  - cbn. destruct (f x) as [y|]; [|discriminate]. cbn.
    destruct (mapM f l1) as [ys|]; [|discriminate]. cbn.
    intros [= <-] H2. rewrite (IH ys eq_refl H2). reflexivity.
Qed.

(** The transactions of one block of the file, once loaded. *)
Lemma init_transactions_ledger `{Ecdsa} (es : list Entry) :
  forall (self self' : t) (txs : list Transaction.t),
  init_transactions es self = (Ok txs, self') ->
  (forall n, n <> "0" ->
     balance n (addresses self')
     = balance n (addresses self) + credited n es - debited n es)
  /\ (exists sfx, names (addresses self') = (names (addresses self) ++ sfx)%list)
  /\ (ledger_ok (addresses self) -> ledger_ok (addresses self'))
  /\ transactions_to_jsonSerializable (addresses self') (map TxObj txs)
     = Ok (map (fun e => entry_dict (without_message e)) es)
  /\ chain self' = chain self
  /\ current_transactions self' = current_transactions self
  /\ nodes self' = nodes self.
Proof.
  induction es as [|e es IH]; intros self self' txs; cbn [init_transactions].
  - intros [= <- <-]. cbn [credited debited fold_right].
    split; [intros; lia|]. split; [exists []; rewrite app_nil_r; reflexivity|].
    split; [auto|]. split; [reflexivity|]. auto.
  - rewrite bind_eq.
    destruct (init_transaction e self) as [[tx|] self1] eqn:Hstep; [|discriminate].
    rewrite bind_eq.
    destruct (init_transactions es self1) as [[txs'|] self2] eqn:Hrest; [|discriminate].
    intros [= <- <-].
    destruct (init_transaction_ledger _ _ _ _ Hstep)
      as (Hbal1 & [sfx1 Hn1] & Hok1 & Hserved1 & Hc1 & Hp1 & Hnd1).
    destruct (IH _ _ _ Hrest) as (Hbal2 & [sfx2 Hn2] & Hok2 & Hserved2 & Hc2 & Hp2 & Hnd2).
    split; [|split; [|split; [|split; [|split; [|split]]]]]; try congruence.
    + intros n Hn. rewrite (Hbal2 n Hn), (Hbal1 n Hn).
      cbn [credited debited fold_right]. fold (credited n es) (debited n es). lia.
    + exists (sfx1 ++ sfx2)%list. rewrite Hn2, Hn1, app_assoc. reflexivity.
    + auto.
    + unfold transactions_to_jsonSerializable in *. cbn [map].
      apply (mapM_app_intro _ [TxObj tx] (map TxObj txs')
               [entry_dict (without_message e)]
               (map (fun e0 => entry_dict (without_message e0)) es));
        [|exact Hserved2].
      rewrite mapM_singleton.
      rewrite (transaction_served_names _ _ sfx2 _ _ Hn2 Hserved1). reflexivity.
Qed.

(** The blocks of the file from [position] on, once loaded: [done] holds
    the blocks before them, which are served as [served]. *)
Lemma init_blocks_ledger `{Ecdsa} (rest : list FileBlock) :
  forall (position : nat) (done : list Block.t)
         (served : list (list (string * json))) (self self' : t),
  chain self = (done ++ map loaded rest)%list ->
  length done = position ->
  chain_to_jsonSerializable (addresses self) done = Ok served ->
  init_blocks position rest self = (Ok tt, self') ->
  (forall n, n <> "0" ->
     balance n (addresses self')
     = balance n (addresses self) + credited n (entries rest) - debited n (entries rest))
  /\ (ledger_ok (addresses self) -> ledger_ok (addresses self'))
  /\ chain_to_jsonSerializable (addresses self') (chain self')
     = Ok (served ++ map reloaded rest)%list
  /\ current_transactions self' = current_transactions self
  /\ nodes self' = nodes self.
Proof.
  induction rest as [|b rest IH]; intros position done served self self' Hchain Hpos Hserved;
    cbn [init_blocks].
  - intros [= <-]. cbn [entries flat_map credited debited fold_right map].
    rewrite Hchain, !app_nil_r.
    split; [intros; lia|]. auto.
  - rewrite bind_eq.
    destruct (init_transactions (file_transactions b) self) as [[txs|] self1] eqn:Hblock;
      [|discriminate].
    destruct (init_transactions_ledger _ _ _ _ Hblock)
      as (Hbal1 & [sfx Hn1] & Hok1 & Hserved1 & Hc1 & Hp1 & Hnd1).
    run_M. intros Hrest.
    set (forged := Block.mk (file_index b) (file_timestamp b) (map TxObj txs)
                     (file_proof b) (file_previous_hash b)) in *.
    assert (Hinsert : <[position := forged]> (chain self1)
                      = ((done ++ [forged]) ++ map loaded rest)%list).
    { rewrite Hc1, Hchain. cbn [map]. subst position.
      rewrite insert_app_r_alt by lia. rewrite Nat.sub_diag. cbn.
      rewrite <- app_assoc. reflexivity. }
    rewrite Hinsert in Hrest.
    assert (Hforged : block_to_jsonSerializable (addresses self1) forged
                      = Ok (reloaded b)).
    { unfold block_to_jsonSerializable. subst forged. cbn [Block.transactions].
      rewrite Hserved1. cbn [mbind result_bind]. unfold reloaded.
      rewrite List.map_map. reflexivity. }
    assert (Hdone : chain_to_jsonSerializable (addresses self1) (done ++ [forged])
                    = Ok (served ++ [reloaded b])%list).
    { unfold chain_to_jsonSerializable. apply mapM_app_intro.
      - apply (chain_served_names _ _ sfx _ _ Hn1 Hserved).
      - rewrite mapM_singleton, Hforged. reflexivity. }
    destruct (IH (S position) (done ++ [forged])%list (served ++ [reloaded b])%list
                (set_chain ((done ++ [forged]) ++ map loaded rest) self1) self')
      as (Hbal2 & Hok2 & Hserved2 & Hp2 & Hnd2);
      [reflexivity | rewrite length_app; cbn; lia | exact Hdone | exact Hrest |].
    cbn [addresses set_chain current_transactions nodes] in *.
    split; [|split; [auto|split; [|split; congruence]]].
    + intros n Hn. rewrite (Hbal2 n Hn), (Hbal1 n Hn).
      unfold entries. cbn [flat_map]. fold (entries rest).
      unfold credited, debited. rewrite !fold_right_app.
      fold (credited n (entries rest)) (debited n (entries rest)).
      assert (Hsum : forall (g : Entry -> Z) (l : list Entry) (z : Z),
                 fold_right (fun e acc => g e + acc) z l
                 = fold_right (fun e acc => g e + acc) 0 l + z).
      { intros g l z. induction l as [|x l IHl]; cbn; [lia | rewrite IHl; lia]. }
      rewrite (Hsum (fun e => if String.eqb (entry_recipient e) n then entry_amount e else 0)
                 (file_transactions b) (credited n (entries rest))).
      rewrite (Hsum (fun e => if String.eqb (entry_sender e) n then entry_amount e else 0)
                 (file_transactions b) (debited n (entries rest))).
      unfold credited, debited. lia.
    + rewrite Hserved2. cbn [map]. rewrite <- app_assoc. reflexivity.
Qed.

(** [__init__] on a chain file that holds a block. *)
Lemma init_loaded `{Ecdsa} (public_key : string) (now : Z)
    (file_chain : list FileBlock) (file_nodes : list string) (self' : t) :
  init public_key now file_chain file_nodes = (Ok tt, self') ->
  file_chain <> [] ->
  exists self1,
    init_blocks 0 file_chain (Blockchain.mk [] [] (map loaded file_chain) [])
    = (Ok tt, self1)
    /\ self' = Blockchain.mk (current_transactions self1) (addresses self1)
                 (chain self1) file_nodes.
Proof.
  unfold init. rewrite bind_eq. intros Hinit Hfile.
  destruct (init_blocks 0 file_chain _) as [[[]|] self1] eqn:Hblocks; [|discriminate].
  exists self1. split; [reflexivity|].
  destruct (init_blocks_ledger file_chain 0 [] []
              (Blockchain.mk [] [] (map loaded file_chain) []) self1
              eq_refl eq_refl eq_refl Hblocks) as (_ & _ & Hserved & _).
  apply mapM_Ok_length in Hserved. cbn [app] in Hserved.
  rewrite length_map in Hserved.
  revert Hinit. run_M. cbn [chain].
  destruct (length (chain self1)) as [|k] eqn:Hk.
  - destruct file_chain; [contradiction | discriminate].
  - cbn [Nat.eqb]. intros [= <-]. reflexivity.
Qed.

(** X29. [__init__] trusts the chain file. When it has loaded a file that
    holds a block, every wallet holds what the transactions of the file
    brought to its name minus what they took from it, whether or not
    [new_transaction] would have admitted them: the answer of the check
    is dropped, and a wallet that the file overdraws holds a negative
    amount. No two wallets share a name, and no transaction is pending. *)
Theorem init_trusts_the_chain_file `{Ecdsa} (public_key : string) (now : Z)
    (file_chain : list FileBlock) (file_nodes : list string) (self' : t)
    (Hinit : init public_key now file_chain file_nodes = (Ok tt, self'))
    (Hfile : file_chain <> []) :
  (forall x, In x (addresses self') ->
     Address.amount x
     = credited (Address.address x) (entries file_chain)
       - debited (Address.address x) (entries file_chain))
  /\ ledger_ok (addresses self')
  /\ current_transactions self' = []
  /\ nodes self' = file_nodes.
Proof.
  destruct (init_loaded _ _ _ _ _ Hinit Hfile) as (self1 & Hblocks & ->).
  destruct (init_blocks_ledger file_chain 0 [] []
              (Blockchain.mk [] [] (map loaded file_chain) []) self1
              eq_refl eq_refl eq_refl Hblocks) as (Hbal & Hok & _ & Hpool & _).
  cbn [addresses current_transactions nodes] in *.
  assert (Hledger : ledger_ok (addresses self1)).
  { apply Hok. split; [constructor | intros []]. }
  split; [|auto]. intros x Hx. destruct Hledger as [Hnd H0].
  rewrite <- (balance_of_member x _ Hnd Hx). rewrite Hbal.
  - cbn [balance]. lia.
  - intros Heq. apply H0. rewrite <- Heq. apply in_map. exact Hx.
Qed.

Lemma init_trusts_the_chain_file_witness :
  Address.amount (Address.mk "A" (-5))
  = credited (Address.address (Address.mk "A" (-5))) (entries overdrawn_file)
    - debited (Address.address (Address.mk "A" (-5))) (entries overdrawn_file).
Proof.
  destruct (@init_trusts_the_chain_file (accepts_only "") alice 11 overdrawn_file []
              (snd (@init (accepts_only "") alice 11 overdrawn_file [])))
    as [Hwallets _].
  - reflexivity.
  - discriminate.
  - apply Hwallets. left. reflexivity.
Defined.

(** X30. A restart forgets the messages. [__init__] does not read the
    message of a transaction of the chain file: once it has loaded a file
    that holds a block, [full_chain] serves the blocks of the file with
    their indices, time stamps, proofs, previous hashes and transactions,
    except that no transaction has a message any more. *)
Theorem init_forgets_messages `{Ecdsa} (public_key : string) (now : Z)
    (file_chain : list FileBlock) (file_nodes : list string) (self' : t)
    (Hinit : init public_key now file_chain file_nodes = (Ok tt, self'))
    (Hfile : file_chain <> []) :
  full_chain self'
  = (Ok (map reloaded file_chain, Z.of_nat (length file_chain)), self').
Proof.
  destruct (init_loaded _ _ _ _ _ Hinit Hfile) as (self1 & Hblocks & ->).
  destruct (init_blocks_ledger file_chain 0 [] []
              (Blockchain.mk [] [] (map loaded file_chain) []) self1
              eq_refl eq_refl eq_refl Hblocks) as (_ & _ & Hserved & _).
  unfold full_chain. run_M. cbn [chain addresses]. rewrite Hserved. cbn [app].
  apply mapM_Ok_length in Hserved. cbn [app] in Hserved.
  rewrite length_map in Hserved. rewrite <- Hserved. reflexivity.
Qed.

Lemma init_forgets_messages_witness :
  fst (full_chain (snd (@init (accepts_only "") alice 11 greeting_file [])))
  = Ok ([served_genesis], 1).
Proof.
  rewrite (@init_forgets_messages (accepts_only "") alice 11 greeting_file []
             (snd (@init (accepts_only "") alice 11 greeting_file []))).
  - reflexivity.
  - reflexivity.
  - discriminate.
Defined.
